(** * TestProject/main.py: the employee directory, its batch loader and
      its benchmark query

    A shallow embedding of [src/TestProject/main.py].  The program keeps a
    table [employees] in PostgreSQL and drives it through six command-line
    modes.  The embedding follows the source function by function:

    - Python [str] values are sequences of Unicode code points ([list N]);
      attributes that Python lets be [None] are [option]s;
    - the PostgreSQL session is part of an explicit [world]: the committed
      table, the view of the open transaction, whether an error has aborted
      that transaction, and the log of the INSERT statements sent to the
      server;
    - [random] is a tape of raw draws read through a cursor, the clock is
      the calendar date of the run;
    - exceptions are an outcome of the monad [M], which keeps the world
      reached when the exception was raised.

    The table is modelled by the five columns the program reads and writes
    ([id] and [created_at] are never selected).  A run uses one connection
    at a time, so the session is a part of the world rather than a value
    passed around.  A date is a triple of integers: the range check of
    [datetime.date] is left out (the generator builds months 1..12 and days
    1..28 only).  [print] and the timing of mode 5 are not modelled, nor
    are the limits of the server's resources (the [id] sequence, the size
    of an index entry, the disk). *)

From Stdlib Require Import ZArith NArith List Bool Lia.
From Stdlib Require Import Strings.Ascii Strings.String.
From Stdlib Require Import Init.Decimal Numbers.DecimalString.
From Stdlib Require Import Sorting.Sorted.
From stdpp Require Import base decidable option numbers list gmap.
Import ListNotations.

Local Open Scope Z_scope.

(** ** Strings *)

(** A Python [str]: a sequence of code points. *)
Abbreviation char := N (only parsing).
Abbreviation str := (list N) (only parsing).

(** A string literal of the source. *)
Definition lit (s : String.string) : str :=
  List.map N_of_ascii (list_ascii_of_string s).

(** [str(n)] / [f"{n}"] for a non-negative [int]. *)
Definition str_of_nat (n : nat) : str :=
  lit (NilZero.string_of_uint (Nat.to_uint n)).

(** [sep.join(parts)] *)
Fixpoint join (sep : str) (parts : list str) : str :=
  match parts with
  | [] => []
  | [p] => p
  | p :: rest => p ++ sep ++ join sep rest
  end.

(** [str.isspace] on one code point: the characters Python's [str.split()]
    and [str.strip()] treat as whitespace. *)
Definition isspace (c : char) : bool :=
  ((9 <=? c) && (c <=? 13) || (28 <=? c) && (c <=? 32)
   || (c =? 133) || (c =? 160) || (c =? 5760)
   || (8192 <=? c) && (c <=? 8202)
   || (c =? 8232) || (c =? 8233) || (c =? 8239) || (c =? 8287)
   || (c =? 12288))%N.

(** [s.strip()]: drop leading and trailing whitespace. *)
Fixpoint lstrip (s : str) : str :=
  match s with
  | c :: s' => if isspace c then lstrip s' else s
  | [] => []
  end.

Definition strip (s : str) : str := rev (lstrip (rev (lstrip s))).

(** [s.split()]: the maximal runs of non-whitespace characters, in order.
    [cur] is the token being read, kept reversed. *)
Fixpoint split_aux (cur : str) (s : str) : list str :=
  match s with
  | [] => match cur with [] => [] | _ => [rev cur] end
  | c :: s' =>
      if isspace c
      then match cur with
           | [] => split_aux [] s'
           | _ => rev cur :: split_aux [] s'
           end
      else split_aux (c :: cur) s'
  end.

Definition split (s : str) : list str := split_aux [] s.

(** ** Dates *)

Record date := mkDate { year : Z; month : Z; day : Z }.

#[global] Instance date_eq_dec : EqDecision date.
Proof. solve_decision. Defined.

(** Python's [<] on pairs of integers. *)
Definition tuple_lt (a b : Z * Z) : bool :=
  (a.1 <? b.1) || ((a.1 =? b.1) && (a.2 <? b.2)).

(** ** The Employee record *)

Record Employee := mkEmployee {
  surname : option str;
  given_name : option str;
  patronymic : option str;
  date_of_birth : option date;
  gender : option str
}.

#[global] Instance Employee_eq_dec : EqDecision Employee.
Proof. solve_decision. Defined.

(** What [to_tuple] hands to the database driver; [None] is sent as NULL. *)
Definition tuple : Type :=
  option str * option str * option str * option date * option str.

Definition to_tuple (self : Employee) : tuple :=
  (surname self, given_name self, patronymic self, date_of_birth self,
   gender self).

(** ** The table *)

(** A stored row; every column of the schema is NOT NULL. *)
Record row := mkRow {
  r_surname : str;
  r_given_name : str;
  r_patronymic : str;
  r_date_of_birth : date;
  r_gender : str
}.

#[global] Instance row_eq_dec : EqDecision row.
Proof. solve_decision. Defined.

(** The columns of [UNIQUE (surname, given_name, patronymic, date_of_birth)]. *)
Definition identity_key (r : row) : str * str * str * date :=
  (r_surname r, r_given_name r, r_patronymic r, r_date_of_birth r).

Definition has_key (table : list row) (k : str * str * str * date) : bool :=
  existsb (fun r => bool_decide (identity_key r = k)) table.

(** One row of [INSERT ... ON CONFLICT (surname, given_name, patronymic,
    date_of_birth) DO NOTHING]: a row whose key is present is skipped. *)
Definition insert_do_nothing (table : list row) (r : row) : list row :=
  if has_key table (identity_key r) then table else table ++ [r].

(** The NOT NULL check of one proposed row. *)
Definition not_null (t : tuple) : option row :=
  match t with
  | (Some s, Some g, Some p, Some d, Some x) => Some (mkRow s g p d x)
  | _ => None
  end.

Fixpoint all_not_null (ts : list tuple) : option (list row) :=
  match ts with
  | [] => Some []
  | t :: ts' =>
      match not_null t, all_not_null ts' with
      | Some r, Some rs => Some (r :: rs)
      | _, _ => None
      end
  end.

(** ** The world and the monad *)

(** An exception, by the class that catches it: [ValueError] stands for
    the class and its subclasses ([UnicodeEncodeError] is one). *)
Inductive exn :=
| ValueError | KeyError | IndexError | AttributeError
| NotNullViolation      (* psycopg2.errors.NotNullViolation *)
| TransactionAborted.   (* psycopg2.errors.InFailedSqlTransaction *)

Inductive outcome (A : Type) :=
| Ok (a : A)
| Raise (e : exn).
Arguments Ok {A} a.
Arguments Raise {A} e.

(** An INSERT statement sent to the server: the single-row form of [save]
    or the multi-row [VALUES %s] form of [execute_values]. *)
Inductive statement :=
| InsertOne (t : tuple)
| InsertValues (ts : list tuple).

Record world := mkWorld {
  SURNAMES_BY_LETTER : gmap N (list str);  (* the module-level dict *)
  tape : nat -> nat;                       (* raw draws of [random] *)
  cursor : nat;                            (* draws consumed so far *)
  clock : date;                            (* [datetime.date.today()] *)
  committed : list row;                    (* the table, as committed *)
  session : list row;                      (* the table seen by the open transaction *)
  aborted : bool;                          (* an error has aborted that transaction *)
  sent : list statement                    (* INSERTs sent to the server, oldest first *)
}.

Definition M (A : Type) : Type := world -> outcome A * world.

Definition ret {A} (a : A) : M A := fun w => (Ok a, w).
Definition raise {A} (e : exn) : M A := fun w => (Raise e, w).
Definition bind {A B} (c : M A) (k : A -> M B) : M B :=
  fun w => match c w with
           | (Ok a, w') => k a w'
           | (Raise e, w') => (Raise e, w')
           end.

Declare Scope py_scope.
Delimit Scope py_scope with py.
Notation "x <- c1 ;; c2" := (bind c1 (fun x => c2))
  (at level 100, c1 at next level, right associativity) : py_scope.
Notation "c1 ;; c2" := (bind c1 (fun _ => c2))
  (at level 100, right associativity) : py_scope.
Local Open Scope py_scope.

(** [for x in xs: body(x)] *)
Fixpoint for_each {A} (xs : list A) (body : A -> M unit) : M unit :=
  match xs with
  | [] => ret tt
  | x :: xs' => body x ;; for_each xs' body
  end.

(** [for x in xs: body(x)] where the body updates a local variable. *)
Fixpoint for_fold {A S} (xs : list A) (s : S) (body : A -> S -> M S) : M S :=
  match xs with
  | [] => ret s
  | x :: xs' => s' <- body x s ;; for_fold xs' s' body
  end.

(** [datetime.date.today()] *)
Definition date_today : M date := fun w => (Ok (clock w), w).

(** *** Employee.age *)

Definition age (self : Employee) (today : option date) : M Z :=
  today <- match today with
           | None => date_today
           | Some t => ret t
           end ;;
  born <- match date_of_birth self with
          | Some d => ret d
          | None => raise AttributeError
          end ;;
  let years := year today - year born in
  ret (if tuple_lt (month today, day today) (month born, day born)
       then years - 1 else years).

(** ** The database session *)

Definition with_pool (d : gmap N (list str)) (w : world) : world :=
  mkWorld d (tape w) (cursor w) (clock w) (committed w) (session w)
          (aborted w) (sent w).
Definition with_cursor (n : nat) (w : world) : world :=
  mkWorld (SURNAMES_BY_LETTER w) (tape w) n (clock w) (committed w)
          (session w) (aborted w) (sent w).
Definition with_committed (t : list row) (w : world) : world :=
  mkWorld (SURNAMES_BY_LETTER w) (tape w) (cursor w) (clock w) t
          (session w) (aborted w) (sent w).
Definition with_session (t : list row) (w : world) : world :=
  mkWorld (SURNAMES_BY_LETTER w) (tape w) (cursor w) (clock w) (committed w)
          t (aborted w) (sent w).
Definition with_aborted (b : bool) (w : world) : world :=
  mkWorld (SURNAMES_BY_LETTER w) (tape w) (cursor w) (clock w) (committed w)
          (session w) b (sent w).
Definition with_sent (l : list statement) (w : world) : world :=
  mkWorld (SURNAMES_BY_LETTER w) (tape w) (cursor w) (clock w) (committed w)
          (session w) (aborted w) l.

(** A session with no transaction in progress: it sees the committed
    table. *)
Definition fresh_session (w : world) : world :=
  with_aborted false (with_session (committed w) w).

(** [get_conn()]: a new session, with the client encoding set to UTF8. *)
Definition get_conn : M unit :=
  fun w => (Ok tt, fresh_session w).

(** [conn.commit()]: COMMIT of a transaction that an error has aborted
    rolls it back, without an error of its own. *)
Definition commit : M unit :=
  fun w => if aborted w then (Ok tt, fresh_session w)
           else (Ok tt, with_committed (session w) w).

(** [conn.close()]: work that was not committed is discarded. *)
Definition conn_close : M unit :=
  fun w => (Ok tt, fresh_session w).

Definition statement_rows (st : statement) : list tuple :=
  match st with
  | InsertOne t => [t]
  | InsertValues ts => ts
  end.

(** What the driver can put into a statement.  psycopg2 encodes a [str]
    parameter in the client encoding, UTF8, and refuses a NUL: a code point
    that is not a Unicode scalar value (a lone surrogate) raises
    [UnicodeEncodeError], U+0000 raises [ValueError]; the first is a
    subclass of the second.  [None] and dates always go through, and the
    database, which stores UTF8 text, takes every string the driver
    sends. *)
Definition adaptable_char (c : char) : bool :=
  ((0 <? c) && ((c <? 55296) || (57343 <? c)) && (c <=? 1114111))%N.

Definition adaptable_str (s : str) : bool := forallb adaptable_char s.

Definition adaptable_opt (o : option str) : bool :=
  match o with
  | Some s => adaptable_str s
  | None => true
  end.

Definition adaptable (t : tuple) : bool :=
  let '(s, g, p, _, x) := t in
  adaptable_opt s && adaptable_opt g && adaptable_opt p && adaptable_opt x.

(** [cur.execute] of one INSERT ... ON CONFLICT DO NOTHING statement.  The
    driver first builds the text of the statement from all its parameters:
    one that it cannot adapt raises [ValueError] and nothing is sent.  The
    server refuses every statement of a transaction that an error has
    aborted.  The statement is atomic: a NULL in any proposed row raises,
    leaves the table as it was and aborts the transaction; otherwise the
    rows are taken in order, each one skipped when its key is already there
    (in the table or earlier in the same statement). *)
Definition pg_execute (st : statement) : M unit :=
  fun w =>
    if negb (forallb adaptable (statement_rows st)) then (Raise ValueError, w)
    else
      let w' := with_sent (sent w ++ [st]) w in
      if aborted w then (Raise TransactionAborted, w')
      else
        match all_not_null (statement_rows st) with
        | None => (Raise NotNullViolation, with_aborted true w')
        | Some rows =>
            (Ok tt,
             with_session (fold_left insert_do_nothing rows (session w)) w')
        end.

(** [seq[lo:hi]] for [0 <= lo <= hi]. *)
Definition slice {A} (l : list A) (lo hi : nat) : list A :=
  take (hi - lo) (drop lo l).

Definition div_ceil (n b : nat) : nat := ((n + b - 1) / b)%nat.

(** [range(0, stop, step)] *)
Definition py_range0 (stop : nat) (step : Z) : M (list nat) :=
  if step =? 0 then raise ValueError
  else if step <? 0 then ret []
  else let b := Z.to_nat step in
       ret (List.map (fun j => (j * b)%nat) (seq 0 (div_ceil stop b))).

(** psycopg2's [_paginate]: pages of [page_size] items, the last one
    shorter.  Reached only with a positive page size. *)
Definition paginate {A} (argslist : list A) (page_size : nat) : list (list A) :=
  List.map (fun j => slice argslist (j * page_size) (j * page_size + page_size))
           (seq 0 (div_ceil (length argslist) page_size)).

(** [execute_values(cur, sql, argslist, page_size=...)]: one multi-row
    statement per page. *)
Definition execute_values (argslist : list tuple) (page_size : Z) : M unit :=
  for_each (paginate argslist (Z.to_nat page_size))
           (fun page => pg_execute (InsertValues page)).

Definition BATCH_SIZE : Z := 10000.

(** *** mode_create_table

    [CREATE TABLE IF NOT EXISTS employees]: five columns, all NOT NULL, and
    [UNIQUE (surname, given_name, patronymic, date_of_birth)].  The table of
    the model exists from the start and has this schema ([not_null] and
    [insert_do_nothing] are its two constraints), so that the statement
    changes nothing. *)
Definition mode_create_table : M unit :=
  get_conn ;;
  commit ;;
  conn_close.

(** *** Employee.save *)
Definition save (self : Employee) : M unit :=
  pg_execute (InsertOne (to_tuple self)) ;;
  commit.

(** *** Employee.bulk_insert *)
Definition bulk_insert (employees : list Employee) (batch_size : Z) : M unit :=
  let tuples := List.map to_tuple employees in
  idx <- py_range0 (length tuples) batch_size ;;
  for_each idx (fun i =>
    let batch := slice tuples i (i + Z.to_nat batch_size) in
    execute_values batch batch_size) ;;
  commit.

(** ** Parsing the command line of mode 2 *)

Definition parse_fullname (fullname : str) : M (str * str * str) :=
  let parts := split (strip fullname) in
  if (length parts =? 3)%nat then
    ret (nth 0 parts [], nth 1 parts [], nth 2 parts [])
  else if (length parts =? 2)%nat then
    ret (nth 0 parts [], nth 1 parts [], [])
  else if (3 <? length parts)%nat then
    ret (nth 0 parts [], nth 1 parts [], join (lit " ") (drop 2 parts))
  else raise ValueError.

Section CommandLine.
(** [datetime.datetime.strptime(datestr, "%Y-%m-%d").date()] belongs to
    the Python library: [None] stands for its [ValueError]. *)
Variable strptime_ymd : str -> option date.

Definition parse_date (datestr : str) : M date :=
  match strptime_ymd datestr with
  | Some d => ret d
  | None => raise ValueError
  end.

Definition mode_insert_single (fullname dob_str gender : str) : M unit :=
  name <- parse_fullname fullname ;;
  let '(surname, given, patronymic) := name in
  dob <- parse_date dob_str ;;
  let emp := mkEmployee (Some surname) (Some given) (Some patronymic)
                        (Some dob) (Some gender) in
  get_conn ;;
  save emp ;;
  conn_close.
End CommandLine.

(** ** The synthetic generator *)

Definition FIRST_NAMES : list str :=
  List.map lit
    ["Ivan"; "Petr"; "Alex"; "John"; "Michael"; "David"; "Robert"; "William";
     "James"; "Thomas"; "Andrey"; "Nikolay"; "Sergey"; "Vladimir"; "Roman";
     "Igor"]%string.

Definition PATRONYMICS : list str :=
  List.map lit
    ["Ivanovich"; "Petrovich"; "Sergeevich"; "Alexandrovich"; "Mikhailovich";
     "Dmitrievich"; "Vladimirovich"; "Nikolaevich"; "Romanovich";
     "Igorevich"]%string.

(** [[chr(i) for i in range(ord('A'), ord('Z') + 1)]] *)
Definition LETTERS : list char := List.map N.of_nat (seq 65 26).

(** [f"{L}surname{n}"] *)
Definition surname_of (L : char) (n : nat) : str :=
  [L] ++ lit "surname" ++ str_of_nat n.

Definition prepare_surnames : M unit :=
  for_each LETTERS (fun L =>
    let arr := List.map (surname_of L) (seq 1 200) in
    fun w => (Ok tt, with_pool (<[L := arr]> (SURNAMES_BY_LETTER w)) w)).

(** One raw draw of the generator. *)
Definition draw : M nat :=
  fun w => (Ok (tape w (cursor w)), with_cursor (S (cursor w)) w).

(** [random.choice(seq)] *)
Definition random_choice {A} (items : list A) : M A :=
  match items with
  | [] => raise IndexError
  | _ =>
      k <- draw ;;
      match nth_error items (k mod length items) with
      | Some x => ret x
      | None => raise IndexError
      end
  end.

(** [random.randint(a, b)]: some integer of [a..b]. *)
Definition random_randint (a b : Z) : M Z :=
  if b <? a then raise ValueError
  else k <- draw ;; ret (a + Z.of_nat k mod (b - a + 1)).

Definition Male : str := lit "Male".
Definition Female : str := lit "Female".

Definition gen_random_employee (letter : option char) (gender : option str)
  : M Employee :=
  (fun w => if decide (SURNAMES_BY_LETTER w = ∅)
            then prepare_surnames w else ret tt w) ;;
  letter <- match letter with
            | None => random_choice LETTERS
            | Some l => ret l
            end ;;
  arr <- (fun w => match SURNAMES_BY_LETTER w !! letter with
                   | Some a => ret a w
                   | None => raise KeyError w
                   end) ;;
  surname <- random_choice arr ;;
  given <- random_choice FIRST_NAMES ;;
  patronymic <- random_choice PATRONYMICS ;;
  age_years <- random_randint 18 70 ;;
  today <- date_today ;;
  let start_year := year today - age_years in
  month <- random_randint 1 12 ;;
  day <- random_randint 1 28 ;;
  let dob := mkDate start_year month day in
  gender <- match gender with
            | None => random_choice [Male; Female]
            | Some g => ret g
            end ;;
  ret (mkEmployee (Some surname) (Some given) (Some patronymic) (Some dob)
                  (Some gender)).

(** [f"F_special_{i+1}"] *)
Definition special_surname (i : nat) : str :=
  lit "F_special_" ++ str_of_nat (i + 1).

(** The body of the first loop of [mode_bulk_generate]. *)
Definition general_step (i : nat) (batch : list Employee) : M (list Employee) :=
  letter <- match nth_error LETTERS (i mod length LETTERS) with
            | Some l => ret l
            | None => raise IndexError
            end ;;
  let gender := if (i mod 2 =? 0)%nat then Male else Female in
  emp <- gen_random_employee (Some letter) (Some gender) ;;
  let batch := batch ++ [emp] in
  if Z.of_nat (length batch) >=? BATCH_SIZE then
    bulk_insert batch BATCH_SIZE ;;
    ret []
  else ret batch.

(** The body of its second loop. *)
Definition special_step (i : nat) (special : list Employee)
  : M (list Employee) :=
  let surname := special_surname i in
  given <- random_choice FIRST_NAMES ;;
  patronymic <- random_choice PATRONYMICS ;;
  lo <- date_today ;;
  hi <- date_today ;;
  year <- random_randint (year lo - 60) (year hi - 18) ;;
  month <- random_randint 1 12 ;;
  day <- random_randint 1 28 ;;
  let dob := mkDate year month day in
  ret (special ++ [mkEmployee (Some surname) (Some given) (Some patronymic)
                              (Some dob) (Some Male)]).

Definition mode_bulk_generate (total : Z) : M unit :=
  prepare_surnames ;;
  get_conn ;;
  batch <- for_fold (seq 0 (Z.to_nat total)) [] general_step ;;
  match batch with
  | [] => ret tt
  | _ => bulk_insert batch BATCH_SIZE
  end ;;
  special <- for_fold (seq 0 100) [] special_step ;;
  bulk_insert special BATCH_SIZE ;;
  conn_close.

(** ** The benchmark query *)

(** SQL [s LIKE pattern]: [%] matches any run of characters, [_] any one. *)
Fixpoint like (pattern : str) (s : str) {struct pattern} : bool :=
  match pattern with
  | [] => match s with [] => true | _ => false end
  | c :: pattern' =>
      if (c =? 37)%N then
        (fix any (s : str) : bool :=
           like pattern' s
           || match s with [] => false | _ :: s' => any s' end) s
      else match s with
           | [] => false
           | d :: s' => ((c =? 95)%N || (c =? d)%N) && like pattern' s'
           end
  end.

Definition Employee_of_row (r : row) : Employee :=
  mkEmployee (Some (r_surname r)) (Some (r_given_name r))
             (Some (r_patronymic r)) (Some (r_date_of_birth r))
             (Some (r_gender r)).

(** What mode 5 shows: the number of rows fetched and the preview lines. *)
Record report := mkReport {
  rows_fetched : list row;
  count_printed : nat;
  preview : list (row * Z)
}.

Section Query.
(** The collation of the database decides [ORDER BY surname]. *)
Variable collate_le : str -> str -> bool.

Fixpoint insert_sorted (r : row) (l : list row) : list row :=
  match l with
  | [] => [r]
  | x :: l' =>
      if collate_le (r_surname r) (r_surname x) then r :: l
      else x :: insert_sorted r l'
  end.

Definition order_by_surname (l : list row) : list row :=
  fold_right insert_sorted [] l.

(** [SELECT ... WHERE gender = %s AND surname LIKE %s ORDER BY surname] *)
Definition select_where (params : str * str) (table : list row) : list row :=
  order_by_surname
    (List.filter (fun r => bool_decide (r_gender r = params.1)
                           && like params.2 (r_surname r)) table).

Definition mode_select_male_F_measure : M report :=
  get_conn ;;
  let params := (Male, lit "F%") in
  rows <- (fun w => (Ok (select_where params (session w)), w)) ;;
  conn_close ;;
  lines <- for_fold (take 20 rows) [] (fun r lines =>
             a <- age (Employee_of_row r) None ;;
             ret (lines ++ [(r, a)])) ;;
  ret (mkReport rows (length rows) lines).
End Query.

(** ** Notions used in the statements *)

(** *** Tables and sessions *)

(** The schema's UNIQUE constraint, as a property of a table. *)
Definition unique_keys (table : list row) : Prop :=
  List.NoDup (List.map identity_key table).

(** A sequence of rows proposed one after the other. *)
Definition insert_all (table : list row) (rows : list row) : list row :=
  fold_left insert_do_nothing rows table.


(** A world whose connection holds no uncommitted work. *)
Definition idle (w : world) : Prop := session w = committed w.

(** Running multi-row statements one after the other.  [run_pages] is the
    loop of [execute_values] and, page sizes permitting, of [bulk_insert]. *)
Definition run_pages (pages : list (list tuple)) : M unit :=
  for_each pages (fun page => pg_execute (InsertValues page)).

(** What a load leaves behind: [rows] were proposed to the table, in order,
    through the statements [stmts], and everything is committed. *)
Definition loaded (w w' : world) (rows : list row) (stmts : list statement)
  : Prop :=
  tape w' = tape w /\ clock w' = clock w
  /\ idle w'
  /\ committed w' = insert_all (committed w) rows
  /\ sent w' = sent w ++ stmts
  /\ concat (List.map statement_rows stmts)
     = List.map to_tuple (List.map Employee_of_row rows)
  /\ aborted w' = false.

(** A row whose strings the driver can send. *)
Definition adaptable_row (r : row) : bool :=
  adaptable (to_tuple (Employee_of_row r)).

(** *** Tokens *)

Definition no_space (t : str) : Prop := Forall (fun c => isspace c = false) t.
Definition all_space (t : str) : Prop := Forall (fun c => isspace c = true) t.

(** What splitting on whitespace means: leading whitespace is skipped, and
    a token is a non-empty run of non-whitespace characters that ends at
    the end of the string or at a whitespace character. *)
Inductive Tokens : str -> list str -> Prop :=
| Tokens_end s : all_space s -> Tokens s []
| Tokens_skip c s ts : isspace c = true -> Tokens s ts -> Tokens (c :: s) ts
| Tokens_token t s ts :
    t <> [] -> no_space t ->
    match s with [] => True | c :: _ => isspace c = true end ->
    Tokens s ts -> Tokens (t ++ s) (t :: ts).

(** *** The generator as a function of the tape *)

(** The surnames [prepare_surnames] stores under a letter. *)
Definition pool_of (L : char) : list str := List.map (surname_of L) (seq 1 200).

(** The dict after [prepare_surnames]. *)
Definition prepared (d : gmap N (list str)) : gmap N (list str) :=
  fold_left (fun d L => <[L := pool_of L]> d) LETTERS d.

(** Every letter of the alphabet has its pool. *)
Definition pool_ready (d : gmap N (list str)) : Prop :=
  forall L, In L LETTERS -> d !! L = Some (pool_of L).

Arguments pool_of : simpl never.
Arguments prepared : simpl never.

(** Projections of worlds built with the setters. *)
Ltac world_simpl :=
  cbn [SURNAMES_BY_LETTER tape cursor clock committed session aborted sent
       with_pool with_cursor with_committed with_session with_aborted
       with_sent fresh_session] in *.

(** The record [gen_random_employee(letters[i % 26], gender by parity)]
    builds from the six draws at positions [p .. p+5]. *)
Definition general_row (tp : nat -> nat) (today : date) (p i : nat) : row :=
  let L := nth (i mod 26) LETTERS 0%N in
  mkRow (nth (tp p mod 200) (pool_of L) [])
        (nth (tp (p + 1)%nat mod 16) FIRST_NAMES [])
        (nth (tp (p + 2)%nat mod 10) PATRONYMICS [])
        (mkDate (year today - (18 + Z.of_nat (tp (p + 3)%nat) mod 53))
                (1 + Z.of_nat (tp (p + 4)%nat) mod 12)
                (1 + Z.of_nat (tp (p + 5)%nat) mod 28))
        (if (i mod 2 =? 0)%nat then Male else Female).

Fixpoint general_rows (tp : nat -> nat) (today : date) (p start len : nat)
  : list row :=
  match len with
  | O => []
  | S len' =>
      general_row tp today p start
      :: general_rows tp today (p + 6) (S start) len'
  end.

(** The special record number [i], from the five draws at [p .. p+4]. *)
Definition special_row (tp : nat -> nat) (today : date) (p i : nat) : row :=
  mkRow (special_surname i)
        (nth (tp p mod 16) FIRST_NAMES [])
        (nth (tp (p + 1)%nat mod 10) PATRONYMICS [])
        (mkDate (year today - 60 + Z.of_nat (tp (p + 2)%nat) mod 43)
                (1 + Z.of_nat (tp (p + 3)%nat) mod 12)
                (1 + Z.of_nat (tp (p + 4)%nat) mod 28))
        Male.

Fixpoint special_rows (tp : nat -> nat) (today : date) (p start len : nat)
  : list row :=
  match len with
  | O => []
  | S len' =>
      special_row tp today p start
      :: special_rows tp today (p + 5) (S start) len'
  end.

(** The first character of a record's surname. *)
Definition surname_initial (e : Employee) : option char :=
  match surname e with
  | Some (c :: _) => Some c
  | _ => None
  end.

(** *** Collations *)

(** The "C" collation: code point by code point. *)
Fixpoint codepoint_le (a b : str) : bool :=
  match a, b with
  | [], _ => true
  | _ :: _, [] => false
  | x :: a', y :: b' => (x <? y)%N || ((x =? y)%N && codepoint_le a' b')
  end.

(** [ORDER BY surname], as a relation between neighbours of the result. *)
Definition by_surname (collate_le : str -> str -> bool) (a b : row) : Prop :=
  collate_le (r_surname a) (r_surname b) = true.

(** ** Concrete inputs *)

(** The record of the usage line, and another one. *)
Definition ivanov : Employee :=
  mkEmployee (Some (lit "Ivanov")) (Some (lit "Petr"))
             (Some (lit "Sergeevich")) (Some (mkDate 2009 7 12)) (Some Male).

Definition ivanov_row : row :=
  mkRow (lit "Ivanov") (lit "Petr") (lit "Sergeevich") (mkDate 2009 7 12) Male.

Definition petrova : Employee :=
  mkEmployee (Some (lit "Petrova")) (Some (lit "Anna")) (Some [])
             (Some (mkDate 1990 1 31)) (Some Female).

Definition petrova_row : row :=
  mkRow (lit "Petrova") (lit "Anna") [] (mkDate 1990 1 31) Female.

(** A record built with no surname. *)
Definition nameless : Employee :=
  mkEmployee None (Some (lit "Petr")) (Some (lit "Sergeevich"))
             (Some (mkDate 2009 7 12)) (Some Male).

(** An empty table, a generator that always draws 0, on 3 November 2026. *)
Definition world0 : world :=
  mkWorld ∅ (fun _ => 0%nat) 0 (mkDate 2026 11 3) [] [] false [].

(** A world whose table already holds [ivanov_row]. *)
Definition world1 : world :=
  mkWorld ∅ (fun _ => 0%nat) 0 (mkDate 2026 11 3) [ivanov_row] [ivanov_row]
          false [].

(** A world whose generator always draws 515, on 3 November 2026. *)
Definition world515 : world :=
  mkWorld ∅ (fun _ => 515%nat) 0 (mkDate 2026 11 3) [] [] false [].

(** A table holding one row that has the key the run below gives to
    [F_special_1], with another gender. *)
Definition collision_row : row :=
  mkRow (special_surname 0) (lit "John") (lit "Dmitrievich")
        (mkDate 2008 12 12) Female.

(** The same generator and date as [world515], over that table. *)
Definition world_collision : world :=
  mkWorld ∅ (fun _ => 515%nat) 0 (mkDate 2026 11 3)
          [collision_row] [collision_row] false [].

(** A stand-in for the library's date parser, on the date of the usage line. *)
Definition strptime_example (s : str) : option date :=
  if bool_decide (s = lit "2009-07-12") then Some (mkDate 2009 7 12) else None.

(** ** Further notions used in the statements *)

(** The order of the calendar on dates. *)
Definition date_le (a b : date) : Prop :=
  year a < year b
  \/ (year a = year b
      /\ (month a < month b \/ (month a = month b /\ day a <= day b))).

(** A token: a non-empty string without whitespace. *)
Definition is_token (t : str) : Prop := t <> [] /\ no_space t.

(** The row a record with all its fields becomes. *)
Definition stored_as (e : Employee) (r : row) : Prop :=
  not_null (to_tuple e) = Some r.

(** The draws an optional argument costs the generator: one when it is
    left out. *)
Definition draws_for {A} (o : option A) : nat :=
  match o with
  | Some _ => 0
  | None => 1
  end.

(** The predicate of the benchmark query, on one row. *)
Definition male_F (r : row) : bool :=
  bool_decide (r_gender r = Male) && like (lit "F%") (r_surname r).

(** The position of an upper-case letter in the alphabet, from 0. *)
Definition letter_index (c : char) : nat := N.to_nat c - 65.

(** ** Mode 3: the listing *)

(** Insertion sort by a comparison, for [ORDER BY]. *)
Fixpoint insert_by (le : row -> row -> bool) (r : row) (l : list row)
  : list row :=
  match l with
  | [] => [r]
  | x :: l' => if le r x then r :: l else x :: insert_by le r l'
  end.

Definition sort_by (le : row -> row -> bool) (l : list row) : list row :=
  fold_right (insert_by le) [] l.

Section Listing.
(** The collation of the database, as for mode 5. *)
Variable collate_le : str -> str -> bool.

Definition collate_lt (a b : str) : bool := negb (collate_le b a).
Definition collate_eq (a b : str) : bool := collate_le a b && collate_le b a.

(** [ORDER BY surname, given_name, patronymic] *)
Definition name_le (a b : row) : bool :=
  collate_lt (r_surname a) (r_surname b)
  || collate_eq (r_surname a) (r_surname b)
     && (collate_lt (r_given_name a) (r_given_name b)
         || collate_eq (r_given_name a) (r_given_name b)
            && collate_le (r_patronymic a) (r_patronymic b)).

(** [SELECT surname, given_name, patronymic, date_of_birth, gender
     FROM employees GROUP BY (the same five columns)
     ORDER BY surname, given_name, patronymic]: one row per distinct
    combination of the five columns. *)
Definition select_all_grouped (table : list row) : list row :=
  sort_by name_le (remove_dups table).

(** [mode_list_all]: the lines printed, each a row with its age, and the
    total of the last line. *)
Definition mode_list_all : M (list (row * Z) * nat) :=
  get_conn ;;
  rows <- (fun w => (Ok (select_all_grouped (session w)), w)) ;;
  conn_close ;;
  today <- date_today ;;
  lines <- for_fold rows [] (fun r lines =>
             a <- age (Employee_of_row r) (Some today) ;;
             ret (lines ++ [(r, a)])) ;;
  ret (lines, length rows).
End Listing.

(** ** Mode 6: the indexes *)

(** An index of the catalog: its name and the expressions it covers. *)
Record index := mkIndex { ix_name : str; ix_on : list str }.

#[global] Instance index_eq_dec : EqDecision index.
Proof. solve_decision. Defined.

(** What the server answers when it refuses a statement. *)
Inductive pg_error :=
| OperationalError          (* the statement itself is refused *)
| InFailedSqlTransaction.   (* the transaction was aborted by an earlier error *)

(** The server seen from mode 6: the world of the other modes, the catalog
    of indexes as committed and as the open transaction sees it, whether
    that transaction has been aborted by an error, and which CREATE INDEX
    statements the server refuses (a lock that cannot be taken, a full
    disk).  Mode 6 sends no INSERT and the other modes no CREATE INDEX,
    each on a connection of its own: [tx_failed] follows the transaction of
    mode 6, [aborted] of the base that of the data statements. *)
Record server := mkServer {
  base : world;
  indexes : list index;
  tx_indexes : list index;
  tx_failed : bool;
  refuses : str -> bool
}.

Inductive result (A : Type) :=
| Done (a : A)
| Failed (e : exn)
| Refused (e : pg_error).
Arguments Done {A} a.
Arguments Failed {A} e.
Arguments Refused {A} e.

Definition SM (A : Type) : Type := server -> result A * server.

Definition sret {A} (a : A) : SM A := fun s => (Done a, s).

Definition sbind {A B} (c : SM A) (k : A -> SM B) : SM B :=
  fun s => match c s with
           | (Done a, s') => k a s'
           | (Failed e, s') => (Failed e, s')
           | (Refused e, s') => (Refused e, s')
           end.

Fixpoint sfor_each {A} (xs : list A) (body : A -> SM unit) : SM unit :=
  match xs with
  | [] => sret tt
  | x :: xs' => sbind (body x) (fun _ => sfor_each xs' body)
  end.

(** A mode of the other kind, run on the server. *)
Definition lift {A} (c : M A) : SM A :=
  fun s => match c (base s) with
           | (Ok a, w') =>
               (Done a, mkServer w' (indexes s) (tx_indexes s) (tx_failed s)
                                 (refuses s))
           | (Raise e, w') =>
               (Failed e, mkServer w' (indexes s) (tx_indexes s) (tx_failed s)
                                   (refuses s))
           end.

(** [try: c  except Exception: print(...)] *)
Definition try_except (c : SM unit) : SM unit :=
  fun s => match c s with
           | (Done a, s') => (Done a, s')
           | (_, s') => (Done tt, s')
           end.

(** [get_conn()] and [conn.close()] on the server: the transaction starts
    from, and uncommitted work falls back to, what is committed. *)
Definition session_reset : SM unit :=
  fun s => (Done tt, mkServer (fresh_session (base s))
                              (indexes s) (indexes s) false (refuses s)).

(** [conn.commit()]: COMMIT in an aborted transaction rolls back, without
    an error. *)
Definition commit_tx : SM unit :=
  fun s =>
    if tx_failed s
    then (Done tt, mkServer (fresh_session (base s))
                            (indexes s) (indexes s) false (refuses s))
    else (Done tt, mkServer (with_committed (session (base s)) (base s))
                            (tx_indexes s) (tx_indexes s) false (refuses s)).

Definition has_index (catalog : list index) (name : str) : bool :=
  existsb (fun ix => bool_decide (ix_name ix = name)) catalog.

(** [cur.execute("CREATE INDEX IF NOT EXISTS name ON employees (...)")]:
    refused outright in an aborted transaction; a refusal of the statement
    aborts the transaction; a name that is taken is left alone. *)
Definition create_index_if_not_exists (ix : index) : SM unit :=
  fun s =>
    if tx_failed s then (Refused InFailedSqlTransaction, s)
    else if refuses s (ix_name ix) then
      (Refused OperationalError,
       mkServer (base s) (indexes s) (tx_indexes s) true (refuses s))
    else if has_index (tx_indexes s) (ix_name ix) then (Done tt, s)
    else (Done tt, mkServer (base s) (indexes s) (tx_indexes s ++ [ix]) false
                            (refuses s)).

Definition idx_gender_surname : index :=
  mkIndex (lit "idx_gender_surname") [lit "gender"; lit "surname"].

Definition idx_gender_lower_surname : index :=
  mkIndex (lit "idx_gender_lower_surname") [lit "gender"; lit "lower(surname)"].

Definition mode_optimize_create_indexes : SM unit :=
  sbind session_reset (fun _ =>
  let sqls := [idx_gender_surname; idx_gender_lower_surname] in
  sbind (sfor_each sqls (fun s => try_except (create_index_if_not_exists s)))
        (fun _ =>
  sbind commit_tx (fun _ =>
  session_reset))).

(** ** The command line *)

Section Main.
Variable strptime_ymd : str -> option date.
Variable collate_le : str -> str -> bool.

(** [main(sys.argv)]; [print_usage] prints and does nothing else. *)
Definition main (argv : list str) : SM unit :=
  if (length argv <? 2)%nat then sret tt
  else
    let mode := nth 1 argv [] in
    if bool_decide (mode = lit "1") then lift mode_create_table
    else if bool_decide (mode = lit "2") then
      if (length argv <? 5)%nat then sret tt
      else lift (mode_insert_single strptime_ymd (nth 2 argv []) (nth 3 argv [])
                                    (nth 4 argv []))
    else if bool_decide (mode = lit "3") then
      lift (mode_list_all collate_le ;; ret tt)
    else if bool_decide (mode = lit "4") then lift (mode_bulk_generate 1000000)
    else if bool_decide (mode = lit "5") then
      lift (mode_select_male_F_measure collate_le ;; ret tt)
    else if bool_decide (mode = lit "6") then mode_optimize_create_indexes
    else sret tt.
End Main.

(** A server with no index, no pending work, that refuses nothing. *)
Definition server_of (w : world) : server :=
  mkServer w [] [] false (fun _ => false).

(** The same server refusing the statements on one index name. *)
Definition refusing (name : str) (s : server) : server :=
  mkServer (base s) (indexes s) (tx_indexes s) (tx_failed s)
           (fun n => bool_decide (n = name)).

(** A server between two runs: no open transaction on the catalog. *)
Definition settled (s : server) : Prop :=
  tx_indexes s = indexes s /\ tx_failed s = false.

(** The catalog after one CREATE INDEX IF NOT EXISTS that goes through. *)
Definition with_index (ix : index) (catalog : list index) : list index :=
  if has_index catalog (ix_name ix) then catalog else catalog ++ [ix].

(** * Properties *)

(** ** The model at work *)

Example split_example :
  split (strip (lit "  Ivanov   Petr De  La Cruz "))
  = [lit "Ivanov"; lit "Petr"; lit "De"; lit "La"; lit "Cruz"].
Proof. reflexivity. Qed.

Example paginate_example :
  paginate [1; 2; 3; 4; 5]%nat 2 = [[1; 2]; [3; 4]; [5]]%nat.
Proof. reflexivity. Qed.

Example like_example :
  List.map (like (lit "F%")) [lit "F"; lit "F_special_1"; lit "aF"; []]
  = [true; true; false; false].
Proof. reflexivity. Qed.

Example special_surname_example : special_surname 99 = lit "F_special_100".
Proof. reflexivity. Qed.

(** A gender holding U+0000 never leaves the driver; a statement the
    server refuses aborts the transaction, which then refuses every
    statement and commits nothing. *)
Example unsendable_example :
  save (mkEmployee (Some (lit "Ivanov")) (Some (lit "Petr"))
                   (Some (lit "Sergeevich")) (Some (mkDate 2009 7 12))
                   (Some [77; 97; 0; 108; 101]%N)) world1
  = (Raise ValueError, world1).
Proof. reflexivity. Qed.

Example aborted_example :
  let w := (bulk_insert [ivanov; nameless] 1 world0).2 in
  (aborted w, (save petrova w).1, committed (commit w).2)
  = (true, Raise TransactionAborted, []).
Proof. reflexivity. Qed.

(** Thirty general records drawn with a constant tape: the last four repeat
    the keys of the first four and are skipped; two statements are sent. *)
Example load_example :
  let w := (mode_bulk_generate 30 world515).2 in
  (length (committed w), length (sent w)) = (126, 2)%nat.
Proof. vm_compute. reflexivity. Qed.

Example query_example :
  let w := (mode_bulk_generate 30 world515).2 in
  match mode_select_male_F_measure codepoint_le w with
  | (Ok rep, _) => count_printed rep = 100%nat /\ length (preview rep) = 20%nat
  | _ => False
  end.
Proof. vm_compute. split; reflexivity. Qed.

(** ** The table: keys, conflicts, uniqueness *)

Lemma has_key_In table k :
  has_key table k = true <-> exists r, In r table /\ identity_key r = k.
Proof.
  unfold has_key. rewrite existsb_exists.
  split; intros (r & Hin & Hk); exists r; split; auto.
  - now apply bool_decide_eq_true in Hk.
  - now apply bool_decide_eq_true.
Qed.

Lemma has_key_map table k :
  has_key table k = true <-> In k (List.map identity_key table).
Proof.
  rewrite has_key_In, in_map_iff. split; intros (r & H1 & H2); eauto.
Qed.

Lemma has_key_app t1 t2 k :
  has_key (t1 ++ t2) k = has_key t1 k || has_key t2 k.
Proof. unfold has_key. apply existsb_app. Qed.

Lemma insert_present table r :
  has_key table (identity_key r) = true -> insert_do_nothing table r = table.
Proof. unfold insert_do_nothing. now intros ->. Qed.

Lemma insert_absent table r :
  has_key table (identity_key r) = false ->
  insert_do_nothing table r = table ++ [r].
Proof. unfold insert_do_nothing. now intros ->. Qed.

Lemma insert_has_key table r :
  has_key (insert_do_nothing table r) (identity_key r) = true.
Proof.
  unfold insert_do_nothing.
  destruct (has_key table (identity_key r)) eqn:E; [exact E|].
  rewrite has_key_app. cbn. rewrite bool_decide_eq_true_2 by reflexivity.
  now rewrite orb_true_r.
Qed.

Lemma insert_keeps table r x :
  In x table -> In x (insert_do_nothing table r).
Proof.
  unfold insert_do_nothing. destruct (has_key _ _); [auto|].
  intros. apply in_or_app. now left.
Qed.

Lemma insert_has_key_mono table r k :
  has_key table k = true -> has_key (insert_do_nothing table r) k = true.
Proof.
  rewrite !has_key_In. intros (x & Hx & Hk). exists x. split; [|exact Hk].
  now apply insert_keeps.
Qed.

Lemma insert_all_keeps rows : forall table x,
  In x table -> In x (insert_all table rows).
Proof.
  induction rows as [|r rows IH]; intros table x Hx; cbn; [exact Hx|].
  apply IH. now apply insert_keeps.
Qed.

Lemma insert_all_has_key_mono rows table k :
  has_key table k = true -> has_key (insert_all table rows) k = true.
Proof.
  rewrite !has_key_In. intros (x & Hx & Hk). exists x. split; [|exact Hk].
  now apply insert_all_keeps.
Qed.

Lemma insert_all_app table r1 r2 :
  insert_all table (r1 ++ r2) = insert_all (insert_all table r1) r2.
Proof. unfold insert_all. apply fold_left_app. Qed.

(** Every proposed row ends with its key in the table. *)
Lemma insert_all_has_key rows : forall table r,
  In r rows -> has_key (insert_all table rows) (identity_key r) = true.
Proof.
  induction rows as [|x rows IH]; intros table r Hin; [destruct Hin|].
  destruct Hin as [->|Hin]; cbn.
  - apply insert_all_has_key_mono, insert_has_key.
  - now apply IH.
Qed.



Lemma insert_unique table r :
  unique_keys table -> unique_keys (insert_do_nothing table r).
Proof.
  unfold unique_keys, insert_do_nothing. intros H.
  destruct (has_key table (identity_key r)) eqn:E; [exact H|].
  rewrite List.map_app. cbn.
  apply List.NoDup_app; [exact H | repeat constructor; intros [] | ].
  intros k Hk [<-|[]].
  apply has_key_map in Hk. congruence.
Qed.

Lemma insert_all_unique rows : forall table,
  unique_keys table -> unique_keys (insert_all table rows).
Proof.
  induction rows as [|x rows IH]; intros table H; cbn; [exact H|].
  apply IH. now apply insert_unique.
Qed.

(** The table only grows, by proposed rows whose key was free. *)
Lemma insert_all_extends rows : forall table,
  exists added,
    insert_all table rows = table ++ added
    /\ (forall x, In x added ->
                  In x rows /\ has_key table (identity_key x) = false).
Proof.
  induction rows as [|x rows IH]; intros table.
  - exists []. cbn. rewrite app_nil_r. split; [reflexivity|intros ? []].
  - change (insert_all table (x :: rows))
      with (insert_all (insert_do_nothing table x) rows).
    destruct (has_key table (identity_key x)) eqn:E.
    + rewrite insert_present by exact E.
      destruct (IH table) as (added & H1 & H2).
      exists added. split; [exact H1|].
      intros y Hy. destruct (H2 y Hy). split; [now right|assumption].
    + rewrite insert_absent by exact E.
      destruct (IH (table ++ [x])) as (added & H1 & H2).
      exists (x :: added). rewrite H1, <- app_assoc. split; [reflexivity|].
      intros y [<-|Hy]; [split; [now left|exact E]|].
      destruct (H2 y Hy) as [Hin Hk]. split; [now right|].
      rewrite has_key_app in Hk. now apply orb_false_iff in Hk.
Qed.

Lemma filter_length_le {A} (f g : A -> bool) (l : list A) :
  (forall x, f x = true -> g x = true) ->
  (length (List.filter f l) <= length (List.filter g l))%nat.
Proof.
  intros H. induction l as [|x l IH]; cbn; [lia|].
  destruct (f x) eqn:Ef.
  - rewrite (H x Ef). cbn. lia.
  - destruct (g x); cbn; lia.
Qed.

(** The rows matching a predicate after a load: those that matched before,
    and at most the proposed ones that match and whose key was free. *)
Lemma insert_all_count_le (m : row -> bool) rows : forall table,
  (length (List.filter m (insert_all table rows))
   <= length (List.filter m table)
      + length (List.filter
                  (fun r => m r && negb (has_key table (identity_key r)))
                  rows))%nat.
Proof.
  induction rows as [|x rows IH]; intros table; [cbn; lia|].
  change (insert_all table (x :: rows))
    with (insert_all (insert_do_nothing table x) rows).
  specialize (IH (insert_do_nothing table x)). cbn [List.filter].
  destruct (has_key table (identity_key x)) eqn:E.
  - rewrite insert_present in * by exact E.
    rewrite andb_false_r. lia.
  - rewrite insert_absent in * by exact E.
    rewrite andb_true_r.
    rewrite List.filter_app, length_app in IH. cbn in IH.
    assert (Hle : (length (List.filter
               (fun r => m r && negb (has_key (table ++ [x]) (identity_key r)))
               rows)
             <= length (List.filter
               (fun r => m r && negb (has_key table (identity_key r)))
               rows))%nat).
    { apply filter_length_le. intros r Hr.
      apply andb_true_iff in Hr as [Hm Hk]. rewrite Hm. cbn.
      rewrite has_key_app in Hk. now destruct (has_key table (identity_key r)). }
    destruct (m x); cbn in *; lia.
Qed.

(** ** Pages and chunks *)

Lemma div_ceil_0 b : (0 < b)%nat -> div_ceil 0 b = 0%nat.
Proof. intros H. unfold div_ceil. apply Nat.div_small. lia. Qed.

Lemma div_ceil_pos n b :
  (0 < b)%nat -> (0 < n)%nat -> div_ceil n b = S (div_ceil (n - b) b).
Proof.
  intros Hb Hn. unfold div_ceil.
  destruct (Nat.le_gt_cases b n) as [Hle|Hlt].
  - replace (n + b - 1)%nat with ((n - b + b - 1) + 1 * b)%nat by lia.
    rewrite Nat.div_add by lia. lia.
  - replace (n - b)%nat with 0%nat by lia.
    rewrite (Nat.div_small (0 + b - 1) b) by lia.
    symmetry. apply (Nat.div_unique _ _ 1%nat (n - 1)%nat); lia.
Qed.

Section Pages.
Context {A : Type}.
Variable b : nat.
Hypothesis b_pos : (0 < b)%nat.

Lemma paginate_nil : paginate (@nil A) b = [].
Proof using b_pos. unfold paginate. cbn. now rewrite div_ceil_0. Qed.

Lemma paginate_cons (l : list A) :
  l <> [] -> paginate l b = take b l :: paginate (drop b l) b.
Proof using b_pos.
  intros Hl. unfold paginate.
  assert (Hlen : (0 < length l)%nat) by (destruct l; cbn; [congruence|lia]).
  rewrite (div_ceil_pos (length l) b) by assumption.
  rewrite length_drop. cbn [seq List.map].
  f_equal.
  - unfold slice. cbn. now replace (b - 0)%nat with b by lia.
  - rewrite <- seq_shift, List.map_map.
    apply List.map_ext. intros j. unfold slice.
    rewrite drop_drop.
    replace (S j * b + b - S j * b)%nat with (j * b + b - j * b)%nat by lia.
    now replace (S j * b)%nat with (b + j * b)%nat by lia.
Qed.

(** Induction along the pages of a sequence. *)
Lemma paginate_ind (P : list A -> list (list A) -> Prop) :
  P [] [] ->
  (forall l, l <> [] -> P (drop b l) (paginate (drop b l) b) ->
             P l (take b l :: paginate (drop b l) b)) ->
  forall l, P l (paginate l b).
Proof using b_pos.
  intros Hnil Hcons l.
  remember (length l) as n eqn:Hn. revert l Hn.
  induction n as [n IH] using lt_wf_ind. intros l Hn.
  destruct l as [|x l].
  - rewrite paginate_nil. exact Hnil.
  - rewrite paginate_cons by discriminate.
    apply Hcons; [discriminate|].
    apply (IH (length (drop b (x :: l)))); [|reflexivity].
    rewrite length_drop. cbn in *. lia.
Qed.

Lemma paginate_concat (l : list A) : concat (paginate l b) = l.
Proof using b_pos.
  apply (paginate_ind (fun l ps => concat ps = l)); [reflexivity|].
  intros l0 _ IH. cbn. rewrite IH. apply take_drop.
Qed.

Lemma paginate_bounded (l : list A) :
  Forall (fun p => (0 < length p <= b)%nat) (paginate l b).
Proof using b_pos.
  apply (paginate_ind (fun _ ps => Forall (fun p => (0 < length p <= b)%nat) ps)).
  - constructor.
  - intros l0 Hl IH. constructor; [|exact IH].
    rewrite length_take. destruct l0; cbn; [congruence|lia].
Qed.

Lemma paginate_single (l : list A) :
  (0 < length l <= b)%nat -> paginate l b = [l].
Proof using b_pos.
  intros H. rewrite paginate_cons by (destruct l; cbn in *; [lia|discriminate]).
  rewrite take_ge, drop_ge by lia. now rewrite paginate_nil.
Qed.
End Pages.

(** ** Running statements *)

Lemma bind_ret_tt (c : M unit) w : (c ;; ret tt) w = c w.
Proof. unfold bind, ret. destruct (c w) as [[[]|e] w']; reflexivity. Qed.

Lemma for_each_map {A B} (f : A -> B) (body : B -> M unit) xs w :
  for_each (List.map f xs) body w = for_each xs (fun x => body (f x)) w.
Proof.
  revert w. induction xs as [|x xs IH]; intros w; cbn; [reflexivity|].
  unfold bind. destruct (body (f x) w) as [[[]|e] w']; [apply IH|reflexivity].
Qed.

Lemma for_each_ext {A} (f g : A -> M unit) xs :
  Forall (fun x => forall w, f x w = g x w) xs ->
  forall w, for_each xs f w = for_each xs g w.
Proof.
  induction 1 as [|x xs Hx _ IH]; intros w; cbn; [reflexivity|].
  unfold bind. rewrite Hx. destruct (g x w) as [[[]|e] w']; [apply IH|reflexivity].
Qed.

Lemma all_not_null_app ts1 ts2 :
  all_not_null (ts1 ++ ts2)
  = match all_not_null ts1, all_not_null ts2 with
    | Some r1, Some r2 => Some (r1 ++ r2)
    | _, _ => None
    end.
Proof.
  induction ts1 as [|t ts1 IH]; cbn.
  - now destruct (all_not_null ts2).
  - rewrite IH. destruct (not_null t), (all_not_null ts1), (all_not_null ts2);
      reflexivity.
Qed.

Lemma all_not_null_length ts rows :
  all_not_null ts = Some rows -> length rows = length ts.
Proof.
  revert rows. induction ts as [|t ts IH]; intros rows; cbn.
  - now intros [= <-].
  - destruct (not_null t), (all_not_null ts); try discriminate.
    intros [= <-]. cbn. f_equal. now apply IH.
Qed.

Lemma forallb_concat_cons {A} (f : A -> bool) p pages :
  forallb f (concat (p :: pages)) = forallb f p && forallb f (concat pages).
Proof. cbn. apply forallb_app. Qed.

(** One statement, in its three outcomes. *)
Lemma pg_execute_ok st rows w :
  aborted w = false ->
  forallb adaptable (statement_rows st) = true ->
  all_not_null (statement_rows st) = Some rows ->
  pg_execute st w
  = (Ok tt, with_session (insert_all (session w) rows)
              (with_sent (sent w ++ [st]) w)).
Proof. intros Ha Hs Hn. unfold pg_execute. now rewrite Hs, Ha, Hn. Qed.

Lemma pg_execute_null st w :
  aborted w = false ->
  forallb adaptable (statement_rows st) = true ->
  all_not_null (statement_rows st) = None ->
  pg_execute st w
  = (Raise NotNullViolation, with_aborted true (with_sent (sent w ++ [st]) w)).
Proof. intros Ha Hs Hn. unfold pg_execute. now rewrite Hs, Ha, Hn. Qed.

Lemma pg_execute_unadaptable st w :
  forallb adaptable (statement_rows st) = false ->
  pg_execute st w = (Raise ValueError, w).
Proof. intros Hs. unfold pg_execute. now rewrite Hs. Qed.

(** A statement that goes through was well formed and found the
    transaction in order; one that does not commits nothing. *)
Lemma pg_execute_cases st w :
  (exists rows,
      aborted w = false
      /\ forallb adaptable (statement_rows st) = true
      /\ all_not_null (statement_rows st) = Some rows
      /\ pg_execute st w
         = (Ok tt, with_session (insert_all (session w) rows)
                     (with_sent (sent w ++ [st]) w)))
  \/ (exists e w',
         pg_execute st w = (Raise e, w') /\ committed w' = committed w
         /\ (aborted w = false ->
             forallb adaptable (statement_rows st) = true ->
             all_not_null (statement_rows st) = None)).
Proof.
  unfold pg_execute.
  destruct (forallb adaptable (statement_rows st)) eqn:Hs; cbn [negb].
  - destruct (aborted w) eqn:Ha.
    + right. eexists. eexists. split; [reflexivity|]. split; [reflexivity|].
      discriminate.
    + destruct (all_not_null (statement_rows st)) as [rows|] eqn:Hn.
      * left. exists rows. now repeat split.
      * right. eexists. eexists. now repeat split.
  - right. eexists. eexists. split; [reflexivity|]. split; [reflexivity|].
    discriminate.
Qed.

Lemma run_pages_ok pages : forall rows w,
  aborted w = false ->
  forallb adaptable (concat pages) = true ->
  all_not_null (concat pages) = Some rows ->
  run_pages pages w
  = (Ok tt, with_session (insert_all (session w) rows)
              (with_sent (sent w ++ List.map InsertValues pages) w)).
Proof.
  unfold run_pages.
  induction pages as [|p pages IH]; intros rows w Ha Hs H.
  - cbn in *. injection H as <-. destruct w. unfold with_session, with_sent.
    cbn. now rewrite app_nil_r.
  - rewrite forallb_concat_cons in Hs. apply andb_true_iff in Hs as [Hs1 Hs2].
    cbn [concat] in H. rewrite all_not_null_app in H.
    destruct (all_not_null p) as [r1|] eqn:E1; [|discriminate].
    destruct (all_not_null (concat pages)) as [r2|] eqn:E2; [|discriminate].
    injection H as <-. cbn [for_each].
    unfold bind at 1.
    rewrite (pg_execute_ok (InsertValues p) r1 w Ha Hs1 E1).
    rewrite (IH r2) by (first [exact Ha | exact Hs2 | reflexivity]).
    destruct w. unfold with_session, with_sent, insert_all. cbn.
    now rewrite fold_left_app, <- app_assoc.
Qed.

(** The loop over the pages, whatever the pages: when it comes to its end
    every page was well formed; when it does not, nothing is committed. *)
Lemma run_pages_cases pages : forall w,
  (exists rows,
      (pages = [] \/ aborted w = false)
      /\ forallb adaptable (concat pages) = true
      /\ all_not_null (concat pages) = Some rows
      /\ run_pages pages w
         = (Ok tt, with_session (insert_all (session w) rows)
                     (with_sent (sent w ++ List.map InsertValues pages) w)))
  \/ (exists e w',
         run_pages pages w = (Raise e, w') /\ committed w' = committed w).
Proof.
  unfold run_pages.
  induction pages as [|p pages IH]; intros w.
  - left. exists []. split; [now left|]. split; [reflexivity|].
    split; [reflexivity|]. cbn. destruct w. unfold with_session, with_sent.
    cbn. now rewrite app_nil_r.
  - cbn [for_each]. unfold bind.
    destruct (pg_execute_cases (InsertValues p) w)
      as [(r1 & Ha & Hs1 & E1 & ->)|(e & w' & -> & Hc & _)].
    + cbn [statement_rows] in *.
      destruct (IH (with_session (insert_all (session w) r1)
                      (with_sent (sent w ++ [InsertValues p]) w)))
        as [(r2 & _ & Hs2 & E2 & ->)|(e & w' & -> & Hc)].
      * left. exists (r1 ++ r2). split; [now right|].
        rewrite forallb_concat_cons, Hs1, Hs2. split; [reflexivity|].
        cbn [concat]. rewrite all_not_null_app, E1, E2. split; [reflexivity|].
        destruct w. unfold with_session, with_sent, insert_all. cbn.
        now rewrite fold_left_app, <- app_assoc.
      * right. exists e, w'. split; [reflexivity|]. exact Hc.
    + right. exists e, w'. now split.
Qed.

(** A page with a NULL cannot go through. *)
Lemma run_pages_null pages w r w' :
  run_pages pages w = (r, w') ->
  all_not_null (concat pages) = None ->
  exists e, r = Raise e.
Proof.
  intros Hrun Hnull.
  destruct (run_pages_cases pages w) as [(rows & _ & _ & E & _)|(e & w0 & H & _)].
  - congruence.
  - rewrite H in Hrun. injection Hrun as <- <-. now exists e.
Qed.

Lemma execute_values_single batch page_size w :
  (0 < length batch <= Z.to_nat page_size)%nat ->
  execute_values batch page_size w = pg_execute (InsertValues batch) w.
Proof.
  intros H. unfold execute_values.
  rewrite paginate_single by lia. cbn. apply bind_ret_tt.
Qed.

(** With a positive batch size [bulk_insert] sends one statement per chunk
    of the input and commits after the last one. *)
Lemma bulk_insert_pos employees batch_size w :
  0 < batch_size ->
  bulk_insert employees batch_size w
  = (run_pages (paginate (List.map to_tuple employees) (Z.to_nat batch_size)) ;;
     commit) w.
Proof.
  intros Hb. unfold bulk_insert, py_range0.
  destruct (Z.eqb_spec batch_size 0) as [->|_]; [lia|].
  destruct (Z.ltb_spec batch_size 0) as [?|_]; [lia|].
  unfold bind at 1. unfold ret at 1.
  unfold bind. rewrite for_each_map.
  set (b := Z.to_nat batch_size). set (ts := List.map to_tuple employees).
  assert (Hpos : (0 < b)%nat) by (subst b; lia).
  assert (Heq : for_each (seq 0 (div_ceil (length ts) b))
            (fun x => execute_values (slice ts (x * b) (x * b + b)) batch_size) w
          = run_pages (paginate ts b) w).
  { unfold run_pages, paginate. rewrite for_each_map.
    apply for_each_ext. apply List.Forall_forall. intros j Hj w0.
    apply execute_values_single. fold b.
    pose proof (paginate_bounded b Hpos ts) as Hall.
    rewrite List.Forall_forall in Hall. apply Hall.
    unfold paginate. apply in_map_iff. exists j. now split. }
  now rewrite Heq.
Qed.

Lemma for_each_app {A} (body : A -> M unit) xs ys w :
  for_each (xs ++ ys) body w = (for_each xs body ;; for_each ys body) w.
Proof.
  revert w. induction xs as [|x xs IH]; intros w; cbn; [reflexivity|].
  unfold bind in *. destruct (body x w) as [[[]|e] w']; [apply IH|reflexivity].
Qed.

(** A chunk with a NULL stops the loop: the statements up to and including
    it were sent, and the transaction is aborted. *)
Lemma run_pages_fail_at done_pages bad rest rows w :
  aborted w = false ->
  forallb adaptable (concat (done_pages ++ [bad])) = true ->
  all_not_null (concat done_pages) = Some rows ->
  all_not_null bad = None ->
  run_pages (done_pages ++ bad :: rest) w
  = (Raise NotNullViolation,
     with_aborted true
       (with_sent (sent w ++ List.map InsertValues (done_pages ++ [bad]))
          (with_session (insert_all (session w) rows) w))).
Proof.
  intros Ha Hs Hok Hbad. unfold run_pages. rewrite for_each_app.
  rewrite concat_app, forallb_app in Hs. apply andb_true_iff in Hs as [Hs1 Hs2].
  cbn [concat] in Hs2. rewrite app_nil_r in Hs2.
  unfold bind at 1. fold (run_pages done_pages).
  rewrite (run_pages_ok _ _ _ Ha Hs1 Hok). cbn [for_each].
  unfold bind at 1.
  rewrite pg_execute_null by (try assumption; reflexivity).
  destruct w. unfold with_sent, with_session, with_aborted. cbn.
  now rewrite List.map_app, <- app_assoc.
Qed.

Lemma commit_ok w :
  aborted w = false -> commit w = (Ok tt, with_committed (session w) w).
Proof. unfold commit. now intros ->. Qed.

Lemma bulk_insert_ok employees batch_size rows w :
  0 < batch_size ->
  aborted w = false ->
  forallb adaptable (List.map to_tuple employees) = true ->
  all_not_null (List.map to_tuple employees) = Some rows ->
  bulk_insert employees batch_size w
  = (Ok tt,
     with_committed (insert_all (session w) rows)
       (with_session (insert_all (session w) rows)
          (with_sent
             (sent w ++ List.map InsertValues
                (paginate (List.map to_tuple employees) (Z.to_nat batch_size)))
             w))).
Proof.
  intros Hb Ha Hs Hrows. rewrite bulk_insert_pos by exact Hb.
  unfold bind.
  rewrite (run_pages_ok _ rows)
    by (try rewrite paginate_concat by lia; assumption).
  now rewrite commit_ok by exact Ha.
Qed.

Lemma bulk_insert_null employees batch_size w :
  0 < batch_size ->
  all_not_null (List.map to_tuple employees) = None ->
  exists e w', bulk_insert employees batch_size w = (Raise e, w')
               /\ committed w' = committed w.
Proof.
  intros Hb Hnull. rewrite bulk_insert_pos by exact Hb. unfold bind.
  destruct (run_pages_cases
              (paginate (List.map to_tuple employees) (Z.to_nat batch_size)) w)
    as [(rows & _ & _ & E & _)|(e & w' & -> & Hc)].
  - rewrite paginate_concat in E by lia. congruence.
  - now exists e, w'.
Qed.

(** [range(0, n, 0)] raises before anything is sent. *)
Lemma bulk_insert_zero employees w :
  bulk_insert employees 0 w = (Raise ValueError, w).
Proof. reflexivity. Qed.

(** A negative step gives an empty range: nothing is sent, and the commit
    still runs. *)
Lemma bulk_insert_neg employees batch_size w :
  batch_size < 0 ->
  bulk_insert employees batch_size w = commit w.
Proof.
  intros Hb. unfold bulk_insert, py_range0.
  destruct (Z.eqb_spec batch_size 0) as [->|_]; [lia|].
  destruct (Z.ltb_spec batch_size 0) as [_|?]; [|lia].
  reflexivity.
Qed.

(** A commit on a connection with no pending work changes no row. *)
Lemma commit_idle w :
  idle w ->
  exists w', commit w = (Ok tt, w')
             /\ committed w' = committed w /\ sent w' = sent w.
Proof.
  unfold idle, commit. intros H.
  destruct (aborted w); eexists; (split; [reflexivity|]); cbn; auto.
Qed.

Lemma save_ok self r w :
  aborted w = false ->
  adaptable (to_tuple self) = true ->
  not_null (to_tuple self) = Some r ->
  save self w
  = (Ok tt,
     with_committed (insert_do_nothing (session w) r)
       (with_session (insert_do_nothing (session w) r)
          (with_sent (sent w ++ [InsertOne (to_tuple self)]) w))).
Proof.
  intros Ha Hs H. unfold save, bind.
  rewrite (pg_execute_ok _ [r] w Ha)
    by (cbn [statement_rows forallb all_not_null]; rewrite ?Hs, ?H; reflexivity).
  now rewrite commit_ok by exact Ha.
Qed.

(** [save] in general: it goes through for a record that is complete and
    can be sent, on a transaction in order; in every other case it
    raises and commits nothing. *)
Lemma save_cases self w :
  (exists r,
      aborted w = false /\ adaptable (to_tuple self) = true
      /\ not_null (to_tuple self) = Some r
      /\ save self w
         = (Ok tt,
            with_committed (insert_do_nothing (session w) r)
              (with_session (insert_do_nothing (session w) r)
                 (with_sent (sent w ++ [InsertOne (to_tuple self)]) w))))
  \/ (exists e w', save self w = (Raise e, w') /\ committed w' = committed w).
Proof.
  destruct (pg_execute_cases (InsertOne (to_tuple self)) w)
    as [(rows & Ha & Hs & Hn & _)|(e & w' & H & Hc & _)].
  - cbn [statement_rows forallb all_not_null] in Hs, Hn.
    rewrite andb_true_r in Hs.
    destruct (not_null (to_tuple self)) as [r|] eqn:E; [|discriminate].
    left. exists r. repeat split; try assumption. now apply save_ok.
  - right. exists e, w'. split; [|exact Hc]. unfold save, bind. now rewrite H.
Qed.

Lemma all_not_null_In ts rows r :
  all_not_null ts = Some rows -> In r rows ->
  exists t, In t ts /\ not_null t = Some r.
Proof.
  revert rows. induction ts as [|t ts IH]; intros rows; cbn.
  - intros [= <-] [].
  - destruct (not_null t) as [r0|] eqn:E0; [|discriminate].
    destruct (all_not_null ts) as [rs|]; [|discriminate].
    intros [= <-] [<-|Hin].
    + exists t. auto.
    + destruct (IH rs eq_refl Hin) as (t' & H1 & H2). exists t'. auto.
Qed.

Lemma all_not_null_None ts t :
  In t ts -> not_null t = None -> all_not_null ts = None.
Proof.
  induction ts as [|x ts IH]; [intros []|]. intros [<-|Hin] Hn; cbn.
  - now rewrite Hn.
  - rewrite (IH Hin Hn). now destruct (not_null x).
Qed.


(** ** The loader *)



(** C9. [bulk_insert] of an empty list, on a connection with no pending
    work and for a batch size other than 0: no error, no statement sent,
    the stored rows unchanged. *)
Theorem bulk_insert_empty (w : world) (batch_size : Z) :
  idle w ->
  batch_size <> 0 ->
  exists w',
    bulk_insert [] batch_size w = (Ok tt, w')
    /\ sent w' = sent w
    /\ committed w' = committed w.
Proof.
  intros Hidle Hb.
  destruct (commit_idle w Hidle) as (w' & Hrun & Hc & Hs).
  exists w'. split; [|now split].
  destruct (Z.lt_trichotomy batch_size 0) as [Hneg|[->|Hpos]]; [| lia |].
  - now rewrite bulk_insert_neg by exact Hneg.
  - rewrite bulk_insert_pos by exact Hpos. cbn [List.map].
    rewrite paginate_nil by lia. exact Hrun.
Qed.

Lemma bulk_insert_empty_witness :
  exists w',
    bulk_insert [] BATCH_SIZE world1 = (Ok tt, w')
    /\ sent w' = sent world1
    /\ committed w' = committed world1.
Proof.
  apply (bulk_insert_empty world1 BATCH_SIZE); [reflexivity|discriminate].
Defined.

(** C4. A record with no surname or no given name ([None], sent as NULL to
    columns declared NOT NULL) makes [bulk_insert] raise, for every batch
    size that is not negative, and nothing of the call is stored: the
    committed table is the one before the call. *)
Theorem bulk_insert_malformed
  (w : world) (es : list Employee) (batch_size : Z) (e : Employee) :
  0 <= batch_size ->
  In e es ->
  surname e = None \/ given_name e = None ->
  exists x w',
    bulk_insert es batch_size w = (Raise x, w')
    /\ committed w' = committed w.
Proof.
  intros Hb Hin Hmiss.
  destruct (Z.eq_dec batch_size 0) as [->|Hne].
  - exists ValueError, w. now rewrite bulk_insert_zero.
  - assert (Hnull : all_not_null (List.map to_tuple es) = None).
    { apply (all_not_null_None _ (to_tuple e)); [now apply in_map|].
      destruct e as [s g p d x]. cbn in *.
      destruct Hmiss as [-> | ->]; [reflexivity|now destruct s]. }
    destruct (bulk_insert_null es batch_size w ltac:(lia) Hnull)
      as (x & w' & H1 & H2).
    now exists x, w'.
Qed.

Lemma bulk_insert_malformed_witness :
  exists x w',
    bulk_insert [ivanov; nameless; petrova] BATCH_SIZE world0 = (Raise x, w')
    /\ committed w' = committed world0.
Proof.
  apply (bulk_insert_malformed world0 [ivanov; nameless; petrova] BATCH_SIZE
           nameless).
  - discriminate.
  - right. left. reflexivity.
  - left. reflexivity.
Defined.

(** C3, as the code has it.  For a positive batch size [bulk_insert] cuts
    its input into chunks of at most [batch_size] records, in order, and
    sends one multi-row INSERT per chunk; it commits once, after the last
    chunk.  When every chunk goes through (complete records that the
    driver can send, on a transaction in order), all of them are committed
    together.  When chunk [k] is refused after [k] complete chunks, [k + 1]
    statements were sent, the transaction is aborted, the committed table
    is the one before the call, and a commit issued afterwards stores
    nothing either: the complete chunks are lost with the one in flight.
    Whatever makes the call fail, the committed table is the one before
    the call. *)
Theorem bulk_insert_commits_once
  (w : world) (es : list Employee) (batch_size : Z) :
  0 < batch_size ->
  let pages := paginate (List.map to_tuple es) (Z.to_nat batch_size) in
  concat pages = List.map to_tuple es
  /\ Forall (fun p => 0 < Z.of_nat (length p) <= batch_size) pages
  /\ (forall rows,
        aborted w = false ->
        forallb adaptable (List.map to_tuple es) = true ->
        all_not_null (List.map to_tuple es) = Some rows ->
        exists w',
          bulk_insert es batch_size w = (Ok tt, w')
          /\ sent w' = sent w ++ List.map InsertValues pages
          /\ committed w' = insert_all (session w) rows)
  /\ (forall k bad rows,
        aborted w = false ->
        forallb adaptable (concat (take (S k) pages)) = true ->
        pages !! k = Some bad ->
        all_not_null (concat (take k pages)) = Some rows ->
        all_not_null bad = None ->
        exists w' w'',
          bulk_insert es batch_size w = (Raise NotNullViolation, w')
          /\ sent w' = sent w ++ List.map InsertValues (take (S k) pages)
          /\ aborted w' = true
          /\ committed w' = committed w
          /\ commit w' = (Ok tt, w'')
          /\ committed w'' = committed w)
  /\ (forall r w',
        bulk_insert es batch_size w = (r, w') ->
        r <> Ok tt -> committed w' = committed w).
Proof.
  intros Hb pages.
  assert (Hpos : (0 < Z.to_nat batch_size)%nat) by lia.
  split; [apply paginate_concat; exact Hpos|].
  split.
  { eapply Forall_impl; [apply paginate_bounded; exact Hpos|].
    cbn. intros p Hp. lia. }
  split; [|split].
  - intros rows Ha Hs Hrows. rewrite (bulk_insert_ok _ _ _ _ Hb Ha Hs Hrows).
    eexists. split; [reflexivity|]. cbn. now split.
  - intros k bad rows Ha Hs Hk Hdone Hbad.
    rewrite bulk_insert_pos by exact Hb. fold pages.
    rewrite (take_S_r pages k bad Hk) in Hs.
    rewrite <- (take_drop_middle pages k bad Hk). unfold bind.
    rewrite (run_pages_fail_at _ _ _ _ _ Ha Hs Hdone Hbad).
    eexists. eexists. split; [reflexivity|]. cbn.
    rewrite (take_drop_middle pages k bad Hk).
    rewrite (take_S_r pages k bad Hk). now repeat split.
  - intros r w'. rewrite bulk_insert_pos by exact Hb. fold pages. unfold bind.
    destruct (run_pages_cases pages w)
      as [(rows & _ & _ & _ & ->)|(e & w0 & -> & Hc)].
    + unfold commit. cbn [aborted with_session with_sent].
      destruct (aborted w); intros [= <- <-]; congruence.
    + now intros [= <- <-] _.
Qed.

Lemma bulk_insert_commits_once_witness :
  exists w' w'',
    bulk_insert [ivanov; petrova; nameless] 2 world0
    = (Raise NotNullViolation, w')
    /\ sent w' = sent world0
                 ++ List.map InsertValues
                      (take 2 (paginate
                                 (List.map to_tuple [ivanov; petrova; nameless])
                                 (Z.to_nat 2)))
    /\ aborted w' = true
    /\ committed w' = committed world0
    /\ commit w' = (Ok tt, w'')
    /\ committed w'' = committed world0.
Proof.
  refine (proj1 (proj2 (proj2 (proj2
    (bulk_insert_commits_once world0 [ivanov; petrova; nameless] 2 _))))
    1%nat [to_tuple nameless] [ivanov_row; petrova_row] _ _ _ _ _).
  - reflexivity.
  - reflexivity.
  - reflexivity.
  - reflexivity.
  - reflexivity.
  - reflexivity.
Defined.

(** C3, as stated, fails: with batch size 1 and a second record that has no
    surname, the first chunk is complete (its statement went through) when
    the second chunk is refused, and the row of the complete chunk is not
    in the committed table, nor would a commit issued afterwards put it
    there. *)
Lemma commit_per_chunk_counterexample :
  exists w',
    bulk_insert [ivanov; nameless] 1 world0 = (Raise NotNullViolation, w')
    /\ sent w' = [InsertValues [to_tuple ivanov];
                  InsertValues [to_tuple nameless]]
    /\ ~ In ivanov_row (committed w')
    /\ ~ In ivanov_row (committed (commit w').2).
Proof.
  eexists. split; [reflexivity|]. cbn.
  split; [reflexivity|]. split; intros [].
Qed.

(** ** Mode 2 *)

Lemma parse_fullname_pure fullname w :
  parse_fullname fullname w = ((parse_fullname fullname w).1, w).
Proof.
  unfold parse_fullname.
  repeat match goal with |- context [if ?c then _ else _] => destruct c end;
    reflexivity.
Qed.

Lemma parse_fullname_outcome fullname w :
  (exists name, (parse_fullname fullname w).1 = Ok name)
  \/ (parse_fullname fullname w).1 = Raise ValueError.
Proof.
  unfold parse_fullname.
  repeat match goal with |- context [if ?c then _ else _] => destruct c end;
    cbn; eauto.
Qed.

(** Mode 2 in its three courses: the name or the date is refused before
    anything else happens; the driver cannot send one of the strings, and
    [save] raises on the connection just opened; or the record is proposed
    to the table and committed. *)
Lemma mode_insert_single_cases strptime_ymd fullname dob_str g w :
  match (parse_fullname fullname w).1, strptime_ymd dob_str with
  | Ok (s, gv, p), Some d =>
      if adaptable (Some s, Some gv, Some p, Some d, Some g) then
        let table := insert_do_nothing (committed w) (mkRow s gv p d g) in
        mode_insert_single strptime_ymd fullname dob_str g w
        = (Ok tt,
           fresh_session
             (with_committed table
                (with_sent
                   (sent w ++ [InsertOne (Some s, Some gv, Some p, Some d, Some g)])
                   w)))
      else
        mode_insert_single strptime_ymd fullname dob_str g w
        = (Raise ValueError, fresh_session w)
  | _, _ =>
      mode_insert_single strptime_ymd fullname dob_str g w = (Raise ValueError, w)
  end.
Proof.
  assert (Hrun : mode_insert_single strptime_ymd fullname dob_str g w
    = match (parse_fullname fullname w).1 with
      | Ok (s, gv, p) =>
          match strptime_ymd dob_str with
          | Some d =>
              (get_conn ;;
               save (mkEmployee (Some s) (Some gv) (Some p) (Some d) (Some g)) ;;
               conn_close) w
          | None => (Raise ValueError, w)
          end
      | Raise x => (Raise x, w)
      end).
  { unfold mode_insert_single, parse_date.
    unfold bind at 1. rewrite parse_fullname_pure.
    destruct (parse_fullname fullname w).1 as [[[s gv] p]|x]; [|reflexivity].
    unfold bind at 1. now destruct (strptime_ymd dob_str). }
  rewrite Hrun.
  destruct (parse_fullname_outcome fullname w) as [([[s gv] p] & E)|E];
    rewrite E; [|reflexivity].
  destruct (strptime_ymd dob_str) as [d|]; [|reflexivity].
  destruct (adaptable (Some s, Some gv, Some p, Some d, Some g)) eqn:Hs.
  - unfold bind at 1. unfold get_conn at 1. unfold bind at 1.
    rewrite (save_ok _ (mkRow s gv p d g)) by (try exact Hs; reflexivity).
    cbv zeta. unfold conn_close. now destruct w.
  - unfold bind at 1. unfold get_conn at 1.
    unfold bind at 1. unfold save. unfold bind at 1.
    rewrite pg_execute_unadaptable; [reflexivity|].
    cbn [statement_rows forallb]. apply andb_false_iff. left. exact Hs.
Qed.

(** C10, as the code has it.  For a full name and a date that parse into
    parts the driver can send, [mode_insert_single] makes no check of the
    gender string [g] of its own.  For every [g] the driver can send (no
    U+0000, no lone surrogate) it succeeds: the record carrying [g] is
    stored when no stored row has its identity key, and otherwise the table
    is left as it is.  For a [g] the driver cannot send, [save] raises
    [ValueError] and nothing is sent or stored. *)
Theorem insert_single_gender
  (strptime_ymd : str -> option date) (w : world)
  (fullname dob_str g s gv p : str) (d : date) :
  (parse_fullname fullname w).1 = Ok (s, gv, p) ->
  strptime_ymd dob_str = Some d ->
  adaptable_str s = true -> adaptable_str gv = true ->
  adaptable_str p = true ->
  (adaptable_str g = true ->
   exists w',
     mode_insert_single strptime_ymd fullname dob_str g w = (Ok tt, w')
     /\ (has_key (committed w) (s, gv, p, d) = false ->
         committed w' = committed w ++ [mkRow s gv p d g])
     /\ (has_key (committed w) (s, gv, p, d) = true ->
         committed w' = committed w))
  /\ (adaptable_str g = false ->
      exists w',
        mode_insert_single strptime_ymd fullname dob_str g w
        = (Raise ValueError, w')
        /\ committed w' = committed w /\ sent w' = sent w).
Proof.
  intros Hname Hdate Hs Hgv Hp.
  pose proof (mode_insert_single_cases strptime_ymd fullname dob_str g w) as H.
  rewrite Hname, Hdate in H.
  cbn [adaptable adaptable_opt] in H. rewrite Hs, Hgv, Hp in H.
  cbn [andb] in H.
  split; intros Hg; rewrite Hg in H; cbv zeta in H; rewrite H.
  - eexists. split; [reflexivity|]. cbn.
    split; intros Hk.
    + now apply insert_absent.
    + now apply insert_present.
  - eexists. split; [reflexivity|]. now split.
Qed.

Lemma insert_single_gender_witness :
  exists w',
    mode_insert_single strptime_example (lit "Petrova Anna")
      (lit "2009-07-12") (lit "unknown") world1 = (Ok tt, w')
    /\ (has_key (committed world1)
          (lit "Petrova", lit "Anna", [], mkDate 2009 7 12) = false ->
        committed w'
        = committed world1
          ++ [mkRow (lit "Petrova") (lit "Anna") [] (mkDate 2009 7 12)
                    (lit "unknown")])
    /\ (has_key (committed world1)
          (lit "Petrova", lit "Anna", [], mkDate 2009 7 12) = true ->
        committed w' = committed world1).
Proof.
  refine (proj1 (insert_single_gender strptime_example world1
                   (lit "Petrova Anna") (lit "2009-07-12") (lit "unknown")
                   (lit "Petrova") (lit "Anna") [] (mkDate 2009 7 12)
                   _ _ _ _ _) _); reflexivity.
Defined.

(** C10, as stated, fails, in two ways.  The name and the date parse, and
    yet no record carrying the gender given is stored: because a row with
    the same identity key is there, the call returning normally; or
    because the gender holds a U+0000, which the driver refuses, the call
    raising [ValueError]. *)
Lemma insert_single_gender_counterexample :
  (parse_fullname (lit "Ivanov Petr Sergeevich") world1).1
  = Ok (lit "Ivanov", lit "Petr", lit "Sergeevich")
  /\ strptime_example (lit "2009-07-12") = Some (mkDate 2009 7 12)
  /\ (exists w',
        mode_insert_single strptime_example (lit "Ivanov Petr Sergeevich")
          (lit "2009-07-12") Female world1 = (Ok tt, w')
        /\ ~ exists r, In r (committed w') /\ r_gender r = Female)
  /\ (exists w',
        mode_insert_single strptime_example (lit "Ivanov Petr Sergeevich")
          (lit "2009-07-12") [77; 97; 0; 108; 101]%N world0
        = (Raise ValueError, w')
        /\ committed w' = []).
Proof.
  split; [reflexivity|]. split; [reflexivity|]. split.
  - eexists. split; [vm_compute; reflexivity|]. cbn.
    intros (r & [<-|[]] & Hg). discriminate Hg.
  - eexists. split; [vm_compute; reflexivity|]. reflexivity.
Qed.

(** ** Age *)

(** C8. [age] is the difference of the years, less one exactly when the
    reference (month, day) comes before the birth (month, day) in
    lexicographic order; with no reference date it reads the clock.  A
    person born 2000-07-12 is 23 on 2024-07-11 and 24 on 2024-07-12. *)
Theorem age_spec (e : Employee) (born today : date) (w : world) :
  date_of_birth e = Some born ->
  let before :=
    month today < month born
    \/ (month today = month born /\ day today < day born) in
  (exists a,
     age e (Some today) w = (Ok a, w)
     /\ (before -> a = year today - year born - 1)
     /\ (~ before -> a = year today - year born))
  /\ age e None w = age e (Some (clock w)) w
  /\ forall s g p x,
       age (mkEmployee s g p (Some (mkDate 2000 7 12)) x)
           (Some (mkDate 2024 7 11)) w = (Ok 23, w)
       /\ age (mkEmployee s g p (Some (mkDate 2000 7 12)) x)
              (Some (mkDate 2024 7 12)) w = (Ok 24, w).
Proof.
  intros Hborn before. split; [|split].
  - unfold age, bind, ret. rewrite Hborn. eexists. split; [reflexivity|].
    unfold tuple_lt. cbn [fst snd]. subst before.
    destruct (Z.ltb_spec (month today) (month born)) as [H1|H1]; cbn.
    + split; [reflexivity|]. intros Hn. exfalso. apply Hn. now left.
    + destruct (Z.eqb_spec (month today) (month born)) as [H2|H2]; cbn.
      * destruct (Z.ltb_spec (day today) (day born)) as [H3|H3].
        -- split; [reflexivity|]. intros Hn. exfalso. apply Hn. now right.
        -- split; [|reflexivity]. intros [?|[_ ?]]; lia.
      * split; [|reflexivity]. intros [?|[? _]]; [lia|congruence].
  - reflexivity.
  - intros s g p x. split; reflexivity.
Qed.

Lemma age_spec_witness :
  age ivanov None world0 = age ivanov (Some (clock world0)) world0.
Proof.
  refine (proj1 (proj2 (age_spec ivanov (mkDate 2009 7 12) (mkDate 2024 7 11)
                          world0 _))).
  reflexivity.
Defined.

(** ** Tokens *)

Lemma split_aux_all_space s : all_space s -> split_aux [] s = [].
Proof. induction 1 as [|c s Hc _ IH]; cbn; [reflexivity|]. now rewrite Hc. Qed.

Lemma split_aux_no_space t : forall cur s,
  no_space t -> split_aux cur (t ++ s) = split_aux (rev t ++ cur) s.
Proof.
  induction t as [|c t IH]; intros cur s Ht; cbn; [reflexivity|].
  apply Forall_cons in Ht as [Hc Ht]. rewrite Hc, IH by exact Ht.
  now rewrite <- app_assoc.
Qed.

Lemma Tokens_nil_inv ts : Tokens [] ts -> ts = [].
Proof.
  intros H. remember (@nil N) as s0 eqn:E.
  destruct H as [s Hs|c s ts Hc HT|t s ts Ht Hns Hs HT];
    [reflexivity|discriminate|].
  destruct t; [congruence|discriminate].
Qed.

(** [split] computes the tokens... *)
Lemma Tokens_split s ts : Tokens s ts -> split s = ts.
Proof.
  unfold split. induction 1 as [s Hs|c s ts Hc _ IH|t s ts Ht Hns Hs HT IH].
  - now apply split_aux_all_space.
  - cbn. now rewrite Hc.
  - rewrite split_aux_no_space by exact Hns. rewrite app_nil_r.
    destruct s as [|c s].
    + apply Tokens_nil_inv in HT as ->. cbn.
      destruct (rev t) eqn:E; [|now rewrite <- E, rev_involutive].
      apply (f_equal (@rev _)) in E. rewrite rev_involutive in E. now subst.
    + cbn in *. rewrite Hs in *.
      destruct (rev t) eqn:E.
      * apply (f_equal (@rev _)) in E. rewrite rev_involutive in E. now subst.
      * rewrite <- E, rev_involutive. now rewrite IH.
Qed.

(** ... and every string has them. *)
Lemma split_aux_Tokens s : forall cur,
  no_space cur ->
  Tokens (rev cur ++ s) (split_aux cur s).
Proof.
  induction s as [|c s IH]; intros cur Hcur.
  - destruct cur as [|x cur]; cbn [split_aux].
    + constructor. constructor.
    + apply Tokens_token.
      * intros E. apply (f_equal (@length _)) in E.
        rewrite length_rev in E. discriminate.
      * now apply Forall_rev.
      * exact I.
      * constructor. constructor.
  - cbn [split_aux]. destruct (isspace c) eqn:Hc.
    + assert (Hrest : Tokens (c :: s) (split_aux [] s)).
      { apply Tokens_skip; [exact Hc|]. apply (IH []). constructor. }
      destruct cur as [|x cur]; [exact Hrest|].
      apply Tokens_token.
      * intros E. apply (f_equal (@length _)) in E.
        rewrite length_rev in E. discriminate.
      * now apply Forall_rev.
      * exact Hc.
      * exact Hrest.
    + replace (rev cur ++ c :: s) with (rev (c :: cur) ++ s)
        by (cbn; now rewrite <- app_assoc).
      apply IH. now constructor.
Qed.

Lemma Tokens_total s : Tokens s (split s).
Proof. apply (split_aux_Tokens s []). constructor. Qed.

Lemma split_lstrip s : split (lstrip s) = split s.
Proof.
  unfold split. induction s as [|c s IH]; cbn; [reflexivity|].
  destruct (isspace c) eqn:Hc; [exact IH|]. cbn. now rewrite Hc.
Qed.

Lemma lstrip_decomp s : exists ws, all_space ws /\ s = ws ++ lstrip s.
Proof.
  induction s as [|c s (ws & H1 & H2)]; cbn.
  - exists []. split; [constructor|reflexivity].
  - destruct (isspace c) eqn:Hc.
    + exists (c :: ws). split; [now constructor|]. cbn. now f_equal.
    + exists []. split; [constructor|reflexivity].
Qed.

Lemma split_aux_trailing ws : all_space ws -> forall s cur,
  split_aux cur (s ++ ws) = split_aux cur s.
Proof.
  intros Hws. induction s as [|c s IH]; intros cur; cbn.
  - destruct Hws as [|c ws Hc Hws]; [reflexivity|]. cbn. rewrite Hc.
    rewrite split_aux_all_space by exact Hws. reflexivity.
  - destruct (isspace c); [destruct cur|]; now rewrite IH.
Qed.

(** [strip] before [split] changes nothing. *)
Lemma split_strip s : split (strip s) = split s.
Proof.
  unfold strip. rewrite <- (split_lstrip s).
  destruct (lstrip_decomp (rev (lstrip s))) as (ws & Hws & E).
  apply (f_equal (@rev _)) in E. rewrite rev_involutive, rev_app_distr in E.
  rewrite E at 2. unfold split. symmetry. apply split_aux_trailing.
  now apply Forall_rev.
Qed.

(** C7. [parse_fullname] works on the whitespace-separated tokens of its
    input, which every string has: two tokens give surname, given name and
    an empty patronymic; three give the three parts in order; more than
    three give the first two and the others joined by single spaces; fewer
    than two raise [ValueError], and [mode_insert_single] then stops before
    it touches the database. *)
Theorem parse_fullname_spec (s : str) (w : world) :
  Tokens s (split (strip s))
  /\ (forall ts,
        Tokens s ts ->
        (forall a b, ts = [a; b] -> parse_fullname s w = (Ok (a, b, []), w))
        /\ (forall a b c,
              ts = [a; b; c] -> parse_fullname s w = (Ok (a, b, c), w))
        /\ (forall a b rest,
              ts = a :: b :: rest -> (2 <= length rest)%nat ->
              parse_fullname s w = (Ok (a, b, join (lit " ") rest), w))
        /\ ((length ts < 2)%nat ->
            parse_fullname s w = (Raise ValueError, w)
            /\ forall strptime_ymd dob_str g,
                 mode_insert_single strptime_ymd s dob_str g w
                 = (Raise ValueError, w)))
  /\ parse_fullname (lit "Ivanov Petr Sergeevich") w
     = (Ok (lit "Ivanov", lit "Petr", lit "Sergeevich"), w)
  /\ parse_fullname (lit "Ivanov Petr") w = (Ok (lit "Ivanov", lit "Petr", []), w)
  /\ parse_fullname (lit "Ivanov Petr De La Cruz") w
     = (Ok (lit "Ivanov", lit "Petr", lit "De La Cruz"), w)
  /\ parse_fullname (lit "Ivanov") w = (Raise ValueError, w).
Proof.
  split; [rewrite split_strip; apply Tokens_total|].
  split; [|repeat split; reflexivity].
  intros ts HT. apply Tokens_split in HT. rewrite <- split_strip in HT.
  unfold mode_insert_single, bind, parse_fullname. rewrite HT.
  repeat split.
  - intros a b ->. reflexivity.
  - intros a b c ->. reflexivity.
  - intros a b rest -> Hlen. destruct rest as [|c [|d rest]]; cbn in Hlen; [lia..|].
    reflexivity.
  - destruct ts as [|a [|b ts]]; cbn in *; [reflexivity..|lia].
  - intros strptime_ymd dob_str g.
    destruct ts as [|a [|b ts]]; cbn in *; [reflexivity..|lia].
Qed.

Lemma parse_fullname_spec_witness :
  parse_fullname (lit "  Ivanov   Petr De  La Cruz ") world0
  = (Ok (lit "Ivanov", lit "Petr", join (lit " ") [lit "De"; lit "La"; lit "Cruz"]),
     world0).
Proof.
  refine (proj1 (proj2 (proj2
    (proj1 (proj2 (parse_fullname_spec (lit "  Ivanov   Petr De  La Cruz ") world0))
       [lit "Ivanov"; lit "Petr"; lit "De"; lit "La"; lit "Cruz"] _)))
    (lit "Ivanov") (lit "Petr") [lit "De"; lit "La"; lit "Cruz"] _ _).
  - exact (Tokens_total (lit "  Ivanov   Petr De  La Cruz ")).
  - reflexivity.
  - cbn. lia.
Defined.

(** ** The generator, draw by draw *)

Lemma random_choice_ok {A} (items : list A) (d : A) w :
  items <> [] ->
  random_choice items w
  = (Ok (nth (tape w (cursor w) mod length items) items d),
     with_cursor (S (cursor w)) w).
Proof.
  intros Hne. unfold random_choice.
  destruct items as [|x items]; [congruence|].
  unfold bind, draw.
  set (l := x :: items).
  assert (Hlt : (tape w (cursor w) mod length l < length l)%nat)
    by (apply Nat.mod_upper_bound; discriminate).
  now rewrite (nth_error_nth' l d Hlt).
Qed.

Lemma random_randint_ok a b w :
  a <= b ->
  random_randint a b w
  = (Ok (a + Z.of_nat (tape w (cursor w)) mod (b - a + 1)),
     with_cursor (S (cursor w)) w).
Proof.
  intros H. unfold random_randint.
  destruct (Z.ltb_spec b a); [lia|]. reflexivity.
Qed.

Lemma LETTERS_length : length LETTERS = 26%nat.
Proof. reflexivity. Qed.

Lemma LETTERS_nth j :
  (j < 26)%nat -> nth j LETTERS 0%N = N.of_nat (65 + j).
Proof.
  intros H. unfold LETTERS.
  rewrite (nth_indep _ 0%N (N.of_nat 0)) by (now rewrite length_map, length_seq).
  now rewrite map_nth, seq_nth.
Qed.

Lemma LETTERS_In j : (j < 26)%nat -> In (nth j LETTERS 0%N) LETTERS.
Proof. intros H. apply nth_In. now rewrite LETTERS_length. Qed.

Lemma prepare_surnames_spec w :
  prepare_surnames w = (Ok tt, with_pool (prepared (SURNAMES_BY_LETTER w)) w).
Proof.
  unfold prepare_surnames, prepared. fold pool_of.
  generalize LETTERS. intros ls. revert w.
  induction ls as [|L ls IH]; intros w; cbn.
  - now destruct w.
  - unfold bind. rewrite IH. now destruct w.
Qed.

Lemma prepared_ready d : pool_ready (prepared d).
Proof.
  unfold pool_ready, prepared. generalize LETTERS. intros ls. revert d.
  induction ls as [|x ls IH]; intros d L Hin; [destruct Hin|]. cbn.
  destruct (in_dec N.eq_dec L ls) as [Hl|Hl]; [now apply IH|].
  destruct Hin as [->|Hin]; [|contradiction].
  clear IH. revert d. induction ls as [|y ls IH]; intros d; cbn.
  - apply lookup_insert_eq.
  - rewrite insert_insert_ne by (intros ->; apply Hl; now left).
    apply IH. intros H. apply Hl. now right.
Qed.

Lemma bind_ok {A B} (c : M A) (k : A -> M B) w a w' :
  c w = (Ok a, w') -> bind c k w = k a w'.
Proof. unfold bind. now intros ->. Qed.

Lemma pool_of_nonempty L : pool_of L <> [].
Proof. discriminate. Qed.

Lemma pool_of_length L : length (pool_of L) = 200%nat.
Proof. reflexivity. Qed.

Lemma gen_random_employee_spec w i :
  pool_ready (SURNAMES_BY_LETTER w) ->
  gen_random_employee (Some (nth (i mod 26) LETTERS 0%N))
                      (Some (if (i mod 2 =? 0)%nat then Male else Female)) w
  = (Ok (Employee_of_row (general_row (tape w) (clock w) (cursor w) i)),
     with_cursor (cursor w + 6) w).
Proof.
  intros Hready.
  assert (Hin : In (nth (i mod 26) LETTERS 0%N) LETTERS).
  { apply LETTERS_In. apply Nat.mod_upper_bound. discriminate. }
  pose proof (Hready _ Hin) as Hpool.
  unfold gen_random_employee.
  erewrite bind_ok; cycle 1.
  { destruct (decide (SURNAMES_BY_LETTER w = ∅)) as [E|_]; [|reflexivity].
    rewrite E, lookup_empty in Hpool. discriminate. }
  erewrite bind_ok by reflexivity.
  erewrite bind_ok by (rewrite Hpool; reflexivity).
  erewrite bind_ok by (apply (random_choice_ok _ []), pool_of_nonempty).
  erewrite bind_ok by (apply (random_choice_ok _ []); discriminate).
  erewrite bind_ok by (apply (random_choice_ok _ []); discriminate).
  erewrite bind_ok by (apply random_randint_ok; lia).
  erewrite bind_ok by reflexivity.
  erewrite bind_ok by (apply random_randint_ok; lia).
  erewrite bind_ok by (apply random_randint_ok; lia).
  erewrite bind_ok by reflexivity.
  unfold ret, general_row, Employee_of_row. cbn -[Z.of_nat Z.modulo Nat.modulo pool_of nth LETTERS FIRST_NAMES PATRONYMICS].
  rewrite pool_of_length.
  replace (cursor w + 1)%nat with (S (cursor w)) by lia.
  replace (cursor w + 2)%nat with (S (S (cursor w))) by lia.
  replace (cursor w + 3)%nat with (S (S (S (cursor w)))) by lia.
  replace (cursor w + 4)%nat with (S (S (S (S (cursor w))))) by lia.
  replace (cursor w + 5)%nat with (S (S (S (S (S (cursor w)))))) by lia.
  replace (cursor w + 6)%nat with (S (S (S (S (S (S (cursor w))))))) by lia.
  destruct w; reflexivity.
Qed.

Lemma not_null_row r : not_null (to_tuple (Employee_of_row r)) = Some r.
Proof. now destruct r. Qed.

Lemma all_not_null_rows rows :
  all_not_null (List.map to_tuple (List.map Employee_of_row rows)) = Some rows.
Proof.
  induction rows as [|r rows IH]; cbn [List.map all_not_null]; [reflexivity|].
  now rewrite not_null_row, IH.
Qed.

Lemma special_step_spec i acc w :
  special_step i acc w
  = (Ok (acc ++ [Employee_of_row (special_row (tape w) (clock w) (cursor w) i)]),
     with_cursor (cursor w + 5) w).
Proof.
  unfold special_step.
  erewrite bind_ok by (apply (random_choice_ok _ []); discriminate).
  erewrite bind_ok by (apply (random_choice_ok _ []); discriminate).
  erewrite bind_ok by reflexivity.
  erewrite bind_ok by reflexivity.
  erewrite bind_ok by (apply random_randint_ok; cbn; lia).
  erewrite bind_ok by (apply random_randint_ok; lia).
  erewrite bind_ok by (apply random_randint_ok; lia).
  unfold ret, special_row, Employee_of_row.
  cbn -[Z.of_nat Z.modulo Nat.modulo nth FIRST_NAMES PATRONYMICS special_surname Z.add Z.sub].
  replace (year (clock w) - 18 - (year (clock w) - 60) + 1) with 43 by lia.
  replace (12 - 1 + 1) with 12 by reflexivity.
  replace (28 - 1 + 1) with 28 by reflexivity.
  replace (cursor w + 1)%nat with (S (cursor w)) by lia.
  replace (cursor w + 2)%nat with (S (S (cursor w))) by lia.
  replace (cursor w + 3)%nat with (S (S (S (cursor w)))) by lia.
  replace (cursor w + 4)%nat with (S (S (S (S (cursor w))))) by lia.
  replace (cursor w + 5)%nat with (S (S (S (S (S (cursor w)))))) by lia.
  destruct w; reflexivity.
Qed.

Lemma special_loop len : forall start acc w,
  for_fold (seq start len) acc special_step w
  = (Ok (acc ++ List.map Employee_of_row
                  (special_rows (tape w) (clock w) (cursor w) start len)),
     with_cursor (cursor w + 5 * len) w).
Proof.
  induction len as [|len IH]; intros start acc w; cbn [seq for_fold special_rows].
  - unfold ret. cbn. rewrite app_nil_r, Nat.add_0_r. now destruct w.
  - erewrite bind_ok by apply special_step_spec.
    rewrite IH. cbn [List.map]. rewrite <- app_assoc. cbn [app].
    f_equal. destruct w; unfold with_cursor; cbn. f_equal. lia.
Qed.

Lemma forallb_over_map {A B} (f : B -> bool) (g : A -> B) l :
  forallb f (List.map g l) = forallb (fun x => f (g x)) l.
Proof. induction l as [|x l IH]; cbn; [reflexivity|now rewrite IH]. Qed.

Lemma adaptable_rows rows :
  forallb adaptable (List.map to_tuple (List.map Employee_of_row rows))
  = forallb adaptable_row rows.
Proof. now rewrite List.map_map, forallb_over_map. Qed.

Lemma nth_forallb {A} (f : A -> bool) l n d :
  forallb f l = true -> f d = true -> f (nth n l d) = true.
Proof.
  intros Hl Hd. destruct (nth_in_or_default n l d) as [Hin| ->]; [|exact Hd].
  rewrite forallb_forall in Hl. now apply Hl.
Qed.

(** The digits of a number, the catalogues of names and the pools of
    surnames hold nothing the driver would refuse. *)
Lemma digits_adaptable (u : Decimal.uint) :
  adaptable_str (lit (NilZero.string_of_uint u)) = true.
Proof.
  assert (H : forall v, adaptable_str (lit (NilEmpty.string_of_uint v)) = true).
  { induction v; cbn in *; auto. }
  destruct u; cbn; try apply H; reflexivity.
Qed.

Lemma str_of_nat_adaptable n : adaptable_str (str_of_nat n) = true.
Proof. apply digits_adaptable. Qed.

Lemma adaptable_str_app a b :
  adaptable_str (a ++ b) = adaptable_str a && adaptable_str b.
Proof. apply forallb_app. Qed.

Lemma pool_of_adaptable L :
  In L LETTERS -> forallb adaptable_str (pool_of L) = true.
Proof.
  intros HL. unfold pool_of. rewrite forallb_over_map. apply forallb_forall.
  intros n _. unfold surname_of. rewrite !adaptable_str_app.
  rewrite str_of_nat_adaptable, andb_true_r.
  assert (H : forallb (fun L => adaptable_str [L]) LETTERS = true)
    by (vm_compute; reflexivity).
  rewrite forallb_forall in H. rewrite (H L HL). reflexivity.
Qed.

Lemma special_surname_adaptable i : adaptable_str (special_surname i) = true.
Proof.
  unfold special_surname. rewrite adaptable_str_app, str_of_nat_adaptable.
  reflexivity.
Qed.

Lemma general_row_adaptable tp today p i :
  adaptable_row (general_row tp today p i) = true.
Proof.
  unfold adaptable_row, general_row, Employee_of_row, to_tuple, adaptable,
    adaptable_opt.
  cbn [surname given_name patronymic date_of_birth gender
       r_surname r_given_name r_patronymic r_date_of_birth r_gender].
  rewrite !andb_true_iff. repeat split.
  - apply nth_forallb; [|reflexivity].
    apply pool_of_adaptable, LETTERS_In, Nat.mod_upper_bound. discriminate.
  - apply nth_forallb; reflexivity.
  - apply nth_forallb; reflexivity.
  - now destruct (i mod 2 =? 0)%nat.
Qed.

Lemma special_row_adaptable tp today p i :
  adaptable_row (special_row tp today p i) = true.
Proof.
  unfold adaptable_row, special_row, Employee_of_row, to_tuple, adaptable,
    adaptable_opt.
  cbn [surname given_name patronymic date_of_birth gender
       r_surname r_given_name r_patronymic r_date_of_birth r_gender].
  rewrite !andb_true_iff. repeat split.
  - apply special_surname_adaptable.
  - apply nth_forallb; reflexivity.
  - apply nth_forallb; reflexivity.
Qed.

Lemma general_rows_adaptable tp today len : forall p start,
  forallb adaptable_row (general_rows tp today p start len) = true.
Proof.
  induction len as [|len IH]; intros p start; cbn [general_rows forallb];
    [reflexivity|].
  now rewrite general_row_adaptable, IH.
Qed.

Lemma special_rows_adaptable tp today len : forall p start,
  forallb adaptable_row (special_rows tp today p start len) = true.
Proof.
  induction len as [|len IH]; intros p start; cbn [special_rows forallb];
    [reflexivity|].
  now rewrite special_row_adaptable, IH.
Qed.

(** The first loop of [mode_bulk_generate], from any point on: the records
    still in [batch] and the ones to come are flushed in order, each flush
    committed, and fewer than [BATCH_SIZE] records stay behind. *)
Lemma general_loop len : forall start brows w,
  pool_ready (SURNAMES_BY_LETTER w) ->
  idle w ->
  aborted w = false ->
  forallb adaptable_row brows = true ->
  Z.of_nat (length brows) < BATCH_SIZE ->
  exists brows' flushed stmts w',
    for_fold (seq start len) (List.map Employee_of_row brows) general_step w
    = (Ok (List.map Employee_of_row brows'), w')
    /\ SURNAMES_BY_LETTER w' = SURNAMES_BY_LETTER w
    /\ tape w' = tape w /\ clock w' = clock w
    /\ cursor w' = (cursor w + 6 * len)%nat
    /\ idle w'
    /\ committed w' = insert_all (committed w) flushed
    /\ sent w' = sent w ++ stmts
    /\ concat (List.map statement_rows stmts)
       = List.map to_tuple (List.map Employee_of_row flushed)
    /\ brows ++ general_rows (tape w) (clock w) (cursor w) start len
       = flushed ++ brows'
    /\ Z.of_nat (length brows') < BATCH_SIZE
    /\ aborted w' = false.
Proof.
  induction len as [|len IH]; intros start brows w Hready Hidle Ha Hs Hlen;
    cbn [seq for_fold general_rows].
  - exists brows, [], [], w. unfold ret. cbn. rewrite !app_nil_r, Nat.add_0_r.
    repeat split; auto.
  - set (r := general_row (tape w) (clock w) (cursor w) start).
    assert (Hsr : forallb adaptable_row (brows ++ [r]) = true).
    { rewrite forallb_app, Hs. cbn [forallb]. subst r.
      now rewrite general_row_adaptable. }
    assert (Hstep : exists w1,
      general_step start (List.map Employee_of_row brows) w
      = (if Z.of_nat (length (brows ++ [r])) >=? BATCH_SIZE
         then bulk_insert (List.map Employee_of_row (brows ++ [r])) BATCH_SIZE ;;
              ret []
         else ret (List.map Employee_of_row (brows ++ [r]))) w1
      /\ w1 = with_cursor (cursor w + 6) w).
    { eexists. split; [|reflexivity]. unfold general_step.
      rewrite LETTERS_length.
      erewrite bind_ok; cycle 1.
      { rewrite (nth_error_nth' LETTERS 0%N)
          by (rewrite LETTERS_length; apply Nat.mod_upper_bound; discriminate).
        reflexivity. }
      erewrite bind_ok by (apply gen_random_employee_spec; exact Hready).
      fold r. rewrite List.map_app, !length_app, !length_map. reflexivity. }
    destruct Hstep as (w1 & Hstep & Hw1).
    destruct (Z.of_nat (length (brows ++ [r])) >=? BATCH_SIZE) eqn:E.
    + erewrite bind_ok; cycle 1.
      { rewrite Hstep. erewrite bind_ok; [reflexivity|].
        apply bulk_insert_ok;
          [reflexivity | subst w1; exact Ha
           | rewrite adaptable_rows; exact Hsr | apply all_not_null_rows]. }
      match goal with |- context [for_fold _ _ _ ?w2] =>
        destruct (IH (S start) [] w2) as
          (brows' & flushed & stmts & w' & H1 & H2 & H3 & H4 & H5 & H6 & H7 & H8
           & H9 & H10 & H11 & H12)
      end.
      * subst w1. exact Hready.
      * reflexivity.
      * subst w1. exact Ha.
      * reflexivity.
      * reflexivity.
      * exists brows', ((brows ++ [r]) ++ flushed),
          (List.map InsertValues
             (paginate (List.map to_tuple (List.map Employee_of_row (brows ++ [r])))
                (Z.to_nat BATCH_SIZE)) ++ stmts), w'.
        subst w1. cbn in H1, H2, H3, H4, H5, H7, H8, H10.
        change (List.map Employee_of_row []) with (@nil Employee) in H1.
        split; [exact H1|].
        split; [exact H2|]. split; [exact H3|]. split; [exact H4|].
        split; [rewrite H5; lia|]. split; [exact H6|].
        split; [rewrite H7, Hidle; symmetry; apply insert_all_app|].
        split; [rewrite H8; now rewrite <- app_assoc|].
        split.
        { rewrite List.map_app, concat_app, H9, List.map_map. cbn [statement_rows].
          rewrite List.map_id.
          rewrite paginate_concat by (unfold BATCH_SIZE; lia).
          now rewrite !List.map_app. }
        split; [|split; [exact H11|exact H12]].
        rewrite <- !app_assoc, <- H10. reflexivity.
    + erewrite bind_ok by (rewrite Hstep; reflexivity).
      match goal with |- context [for_fold _ _ _ ?w2] =>
        destruct (IH (S start) (brows ++ [r]) w2) as
          (brows' & flushed & stmts & w' & H1 & H2 & H3 & H4 & H5 & H6 & H7 & H8
           & H9 & H10 & H11 & H12)
      end.
      * subst w1. exact Hready.
      * subst w1. exact Hidle.
      * subst w1. exact Ha.
      * exact Hsr.
      * destruct (Z.geb_spec (Z.of_nat (length (brows ++ [r]))) BATCH_SIZE);
          [discriminate|lia].
      * exists brows', flushed, stmts, w'.
        subst w1. cbn in H1, H2, H3, H4, H5, H7, H8, H10.
        split; [exact H1|].
        split; [exact H2|]. split; [exact H3|]. split; [exact H4|].
        split; [rewrite H5; lia|]. split; [exact H6|].
        split; [exact H7|]. split; [exact H8|]. split; [exact H9|].
        split; [|split; [exact H11|exact H12]].
        rewrite <- H10, <- app_assoc. reflexivity.
Qed.

Lemma loaded_trans w w1 w2 r1 r2 s1 s2 :
  loaded w w1 r1 s1 -> loaded w1 w2 r2 s2 -> loaded w w2 (r1 ++ r2) (s1 ++ s2).
Proof.
  intros (A1 & A2 & A3 & A4 & A5 & A6 & A7) (B1 & B2 & B3 & B4 & B5 & B6 & B7).
  repeat split.
  - congruence.
  - congruence.
  - exact B3.
  - rewrite B4, A4. symmetry. apply insert_all_app.
  - rewrite B5, A5. now rewrite app_assoc.
  - rewrite !List.map_app, concat_app. congruence.
  - exact B7.
Qed.

Lemma bulk_insert_rows rows w :
  idle w ->
  aborted w = false ->
  forallb adaptable_row rows = true ->
  exists stmts w',
    bulk_insert (List.map Employee_of_row rows) BATCH_SIZE w = (Ok tt, w')
    /\ SURNAMES_BY_LETTER w' = SURNAMES_BY_LETTER w
    /\ cursor w' = cursor w
    /\ loaded w w' rows stmts.
Proof.
  intros Hidle Ha Hs. unfold idle in Hidle.
  rewrite (bulk_insert_ok _ BATCH_SIZE rows w eq_refl Ha)
    by (try rewrite adaptable_rows; try exact Hs; apply all_not_null_rows).
  eexists. eexists. split; [reflexivity|]. cbn.
  repeat split.
  - now rewrite Hidle.
  - rewrite List.map_map. cbn [statement_rows]. rewrite List.map_id.
    apply paginate_concat. unfold BATCH_SIZE. lia.
  - exact Ha.
Qed.

(** A run of [mode_bulk_generate] proposes [total] general records and
    then the 100 special ones, all committed at the end. *)
Lemma mode_bulk_generate_spec total w :
  exists stmts w',
    mode_bulk_generate total w = (Ok tt, w')
    /\ SURNAMES_BY_LETTER w' = prepared (SURNAMES_BY_LETTER w)
    /\ loaded (fresh_session w) w'
         (general_rows (tape w) (clock w) (cursor w) 0 (Z.to_nat total)
          ++ special_rows (tape w) (clock w)
               (cursor w + 6 * Z.to_nat total) 0 100)
         stmts.
Proof.
  unfold mode_bulk_generate.
  erewrite bind_ok by apply prepare_surnames_spec.
  erewrite bind_ok by reflexivity.
  set (w2 := fresh_session _).
  destruct (general_loop (Z.to_nat total) 0 [] w2) as
    (brows' & flushed & stmts & w3 & H1 & H2 & H3 & H4 & H5 & H6 & H7 & H8
     & H9 & H10 & H11 & H12).
  { subst w2. world_simpl. apply prepared_ready. }
  { reflexivity. }
  { reflexivity. }
  { reflexivity. }
  { reflexivity. }
  change (List.map Employee_of_row []) with (@nil Employee) in H1.
  erewrite bind_ok by exact H1.
  assert (Hs : forallb adaptable_row (flushed ++ brows') = true).
  { rewrite <- H10. cbn [app]. apply general_rows_adaptable. }
  rewrite forallb_app in Hs. apply andb_true_iff in Hs as [_ Hsb].
  assert (L3 : loaded (fresh_session w) w3 flushed stmts).
  { subst w2. world_simpl. repeat split; assumption. }
  destruct (bulk_insert_rows brows' w3 H6 H12 Hsb)
    as (s4 & w4 & B1 & B2 & B3 & L4).
  assert (Hrest : exists s5 w5,
    match List.map Employee_of_row brows' with
    | [] => ret tt
    | _ :: _ => bulk_insert (List.map Employee_of_row brows') BATCH_SIZE
    end w3 = (Ok tt, w5)
    /\ SURNAMES_BY_LETTER w5 = SURNAMES_BY_LETTER w3
    /\ cursor w5 = cursor w3
    /\ loaded w3 w5 brows' s5).
  { destruct brows' as [|b brows'].
    - exists [], w3. cbn. repeat split; auto. now rewrite app_nil_r.
    - exists s4, w4. cbn [List.map]. cbn [List.map] in B1. auto. }
  destruct Hrest as (s5 & w5 & C1 & C2 & C3 & L5).
  erewrite bind_ok by exact C1.
  erewrite bind_ok by apply special_loop.
  set (w6 := with_cursor _ w5).
  destruct (bulk_insert_rows
              (special_rows (tape w5) (clock w5) (cursor w5) 0 100) w6)
    as (s7 & w7 & D1 & D2 & D3 & L7).
  { destruct L5 as (_ & _ & Hi & _). subst w6. exact Hi. }
  { destruct L5 as (_ & _ & _ & _ & _ & _ & Hab). subst w6. exact Hab. }
  { apply special_rows_adaptable. }
  cbn [app]. erewrite bind_ok by exact D1.
  exists ((stmts ++ s5) ++ s7), (fresh_session w7).
  split; [reflexivity|].
  split.
  { world_simpl. rewrite D2. subst w6. world_simpl. rewrite C2, H2. subst w2.
    reflexivity. }
  pose proof (loaded_trans _ _ _ _ _ _ _ L3 L5) as L35.
  assert (L67 : loaded w5 w7 (special_rows (tape w5) (clock w5) (cursor w5) 0 100) s7).
  { destruct L7 as (E1 & E2 & E3 & E4 & E5 & E6 & E7). subst w6.
    repeat split; assumption. }
  pose proof (loaded_trans _ _ _ _ _ _ _ L35 L67) as L.
  destruct L as (E1 & E2 & E3 & E4 & E5 & E6 & E7).
  destruct L35 as (F1 & F2 & _).
  assert (Hc5 : cursor w5 = (cursor w + 6 * Z.to_nat total)%nat).
  { rewrite C3, H5. subst w2. reflexivity. }
  change (tape w2) with (tape w) in *. change (clock w2) with (clock w) in *.
  rewrite <- H10, F1, F2, Hc5 in E4, E6.
  subst w2. world_simpl.
  repeat split; try assumption; reflexivity.
Qed.

(** ** The generated records *)

Lemma general_rows_length tp today len : forall p start,
  length (general_rows tp today p start len) = len.
Proof. induction len as [|len IH]; intros p start; cbn; [|rewrite IH]; reflexivity. Qed.

Lemma general_rows_nth tp today len : forall p start i r,
  nth_error (general_rows tp today p start len) i = Some r ->
  r = general_row tp today (p + 6 * i) (start + i).
Proof.
  induction len as [|len IH]; intros p start i r; cbn [general_rows].
  - destruct i; discriminate.
  - destruct i as [|i]; cbn [nth_error].
    + intros [= <-]. f_equal; lia.
    + intros H. apply IH in H as ->. f_equal; lia.
Qed.

Lemma special_rows_length tp today len : forall p start,
  length (special_rows tp today p start len) = len.
Proof. induction len as [|len IH]; intros p start; cbn; [|rewrite IH]; reflexivity. Qed.

Lemma special_rows_nth tp today len : forall p start i r,
  nth_error (special_rows tp today p start len) i = Some r ->
  r = special_row tp today (p + 5 * i) (start + i).
Proof.
  induction len as [|len IH]; intros p start i r; cbn [special_rows].
  - destruct i; discriminate.
  - destruct i as [|i]; cbn [nth_error].
    + intros [= <-]. f_equal; lia.
    + intros H. apply IH in H as ->. f_equal; lia.
Qed.

(** With a tape that always gives the same draw, the special records do
    not depend on where on the tape they are read. *)
Lemma special_rows_constant c today len : forall p q start,
  special_rows (fun _ => c) today p start len
  = special_rows (fun _ => c) today q start len.
Proof.
  induction len as [|len IH]; intros p q start; cbn [special_rows]; [reflexivity|].
  f_equal. apply IH.
Qed.

Lemma pool_of_nth L k :
  nth (k mod 200) (pool_of L) [] = surname_of L (1 + k mod 200).
Proof.
  unfold pool_of.
  assert (Hlt : (k mod 200 < 200)%nat) by (apply Nat.mod_upper_bound; discriminate).
  rewrite (nth_indep _ [] (surname_of L 0))
    by (now rewrite length_map, length_seq).
  now rewrite map_nth, seq_nth.
Qed.

Lemma general_row_surname tp today p i :
  r_surname (general_row tp today p i)
  = surname_of (nth (i mod 26) LETTERS 0%N) (1 + tp p mod 200).
Proof. unfold general_row. cbn [r_surname]. apply pool_of_nth. Qed.

Lemma general_row_in_pool tp today p i :
  In (r_surname (general_row tp today p i))
     (pool_of (nth (i mod 26) LETTERS 0%N)).
Proof.
  unfold general_row. cbn [r_surname]. apply nth_In.
  rewrite pool_of_length. apply Nat.mod_upper_bound. discriminate.
Qed.

Lemma surname_of_head L n : exists rest, surname_of L n = L :: 115%N :: rest.
Proof. eexists. reflexivity. Qed.

Lemma special_surname_head i :
  exists rest, special_surname i = 70%N :: 95%N :: rest.
Proof. eexists. reflexivity. Qed.

(** The special surnames are in none of the letter pools. *)
Lemma special_not_in_pool i L : ~ In (special_surname i) (pool_of L).
Proof.
  unfold pool_of. rewrite in_map_iff. intros (n & Heq & _).
  destruct (surname_of_head L n) as (r1 & E1).
  destruct (special_surname_head i) as (r2 & E2).
  rewrite E1, E2 in Heq. discriminate.
Qed.

Lemma special_row_date tp today p i :
  let d := r_date_of_birth (special_row tp today p i) in
  18 <= year today - year d <= 60
  /\ 1 <= month d <= 12 /\ 1 <= day d <= 28.
Proof.
  cbn.
  pose proof (Z.mod_pos_bound (Z.of_nat (tp (p + 2)%nat)) 43 eq_refl).
  pose proof (Z.mod_pos_bound (Z.of_nat (tp (p + 3)%nat)) 12 eq_refl).
  pose proof (Z.mod_pos_bound (Z.of_nat (tp (p + 4)%nat)) 28 eq_refl).
  lia.
Qed.

Lemma age_of_row r today w :
  age (Employee_of_row r) (Some today) w
  = (Ok (if tuple_lt (month today, day today)
                     (month (r_date_of_birth r), day (r_date_of_birth r))
         then year today - year (r_date_of_birth r) - 1
         else year today - year (r_date_of_birth r)), w).
Proof. reflexivity. Qed.

(** The letter of a general record decides its gender: the alphabet has an
    even number of letters, so the parity of [i mod 26] is that of [i]. *)
Lemma mod_26_parity i : ((i mod 26) mod 2 = i mod 2)%nat.
Proof.
  pose proof (Nat.div_mod_eq i 26). pose proof (Nat.div_mod_eq i 2).
  pose proof (Nat.div_mod_eq (i mod 26) 2).
  pose proof (Nat.mod_upper_bound i 26). pose proof (Nat.mod_upper_bound i 2).
  pose proof (Nat.mod_upper_bound (i mod 26) 2). lia.
Qed.

Lemma general_rows_initials tp today len : forall p start,
  List.map surname_initial
    (List.map Employee_of_row (general_rows tp today p start len))
  = List.map (fun i => Some (nth (i mod 26) LETTERS 0%N)) (seq start len).
Proof.
  induction len as [|len IH]; intros p start; cbn [general_rows seq List.map];
    [reflexivity|].
  rewrite IH. f_equal.
  unfold surname_initial, Employee_of_row. cbn [surname].
  rewrite general_row_surname.
  now destruct (surname_of_head (nth (start mod 26) LETTERS 0%N)
                                (1 + tp p mod 200)) as (rest & ->).
Qed.

Lemma LETTERS_NoDup : List.NoDup LETTERS.
Proof.
  unfold LETTERS. apply Finite.Injective_map_NoDup.
  - intros a b. apply Nat2N.inj.
  - apply List.seq_NoDup.
Qed.

Lemma Male_not_Female : Male <> Female.
Proof. discriminate. Qed.

(** C6. In every run of [mode_bulk_generate], record number [i] of the
    [total] general records has a surname taken from the pool of letter
    [i mod 26] of A..Z, so starting with that letter, and is Male exactly
    when [i] is even and Female exactly when [i] is odd; with [total = 26]
    the initials of the records are A..Z, each letter once. *)
Theorem general_records (total : Z) (w : world) :
  exists w' stmts general special,
    mode_bulk_generate total w = (Ok tt, w')
    /\ sent w' = sent w ++ stmts
    /\ concat (List.map statement_rows stmts)
       = List.map to_tuple (general ++ special)
    /\ length general = Z.to_nat total
    /\ length special = 100%nat
    /\ (forall i e,
          nth_error general i = Some e ->
          exists L rest,
            nth_error LETTERS (i mod 26) = Some L
            /\ surname e = Some (L :: rest)
            /\ SURNAMES_BY_LETTER w' !! L = Some (pool_of L)
            /\ In (L :: rest) (pool_of L)
            /\ ((i mod 2 = 0)%nat <-> gender e = Some Male)
            /\ ((i mod 2 = 1)%nat <-> gender e = Some Female))
    /\ (total = 26 ->
        List.map surname_initial general = List.map Some LETTERS
        /\ List.NoDup LETTERS).
Proof.
  destruct (mode_bulk_generate_spec total w) as
    (stmts & w' & Hrun & Hpool & (_ & _ & _ & _ & Hsent & Hrows & _)).
  set (G := general_rows (tape w) (clock w) (cursor w) 0 (Z.to_nat total)) in *.
  set (S := special_rows _ _ _ 0 100) in *.
  exists w', stmts, (List.map Employee_of_row G), (List.map Employee_of_row S).
  split; [exact Hrun|]. split; [exact Hsent|].
  split; [now rewrite <- List.map_app|].
  split; [rewrite length_map; apply general_rows_length|].
  split; [rewrite length_map; apply special_rows_length|].
  split.
  - intros i e Hnth. rewrite nth_error_map in Hnth.
    destruct (nth_error G i) as [r|] eqn:Hr; [|discriminate].
    injection Hnth as <-. apply general_rows_nth in Hr. cbn [Nat.add] in Hr.
    assert (Hlt : (i mod 26 < 26)%nat) by (apply Nat.mod_upper_bound; discriminate).
    set (L := nth (i mod 26) LETTERS 0%N).
    pose proof (general_row_in_pool (tape w) (clock w) (cursor w + 6 * i) i) as Hin.
    pose proof (general_row_surname (tape w) (clock w) (cursor w + 6 * i) i) as Hs.
    fold L in Hin, Hs. rewrite <- Hr in Hin, Hs.
    destruct (surname_of_head L (1 + tape w (cursor w + 6 * i) mod 200)) as (rest & Hhead).
    exists L, (115%N :: rest).
    split; [apply nth_error_nth'; now rewrite LETTERS_length|].
    split; [cbn; now rewrite Hs, Hhead|].
    split; [rewrite Hpool; apply prepared_ready, LETTERS_In, Hlt|].
    split; [now rewrite <- Hhead, <- Hs|].
    assert (Hg : gender (Employee_of_row r)
                 = Some (if (i mod 2 =? 0)%nat then Male else Female))
      by (now subst r).
    rewrite Hg.
    pose proof (Nat.mod_upper_bound i 2 ltac:(discriminate)).
    destruct (Nat.eqb_spec (i mod 2) 0) as [E|E]; split; split; intros H';
      try reflexivity; try lia; try (now injection H').
  - intros ->. split; [|exact LETTERS_NoDup].
    subst G. rewrite general_rows_initials. reflexivity.
Qed.

(** C5, as the code has it.  In every run of [mode_bulk_generate], after
    the [total] general records exactly 100 special records are proposed;
    number [i] of them is Male, has the surname [F_special_(i+1)], which
    starts with F and is in none of the letter pools, and a date of birth
    whose year lies 18 to 60 years before the year of the run, month in
    1..12, day in 1..28.  The age on the day of the run therefore lies in
    17..60. *)
Theorem special_records (total : Z) (w : world) :
  exists w' stmts general special,
    mode_bulk_generate total w = (Ok tt, w')
    /\ sent w' = sent w ++ stmts
    /\ concat (List.map statement_rows stmts)
       = List.map to_tuple (general ++ special)
    /\ length general = Z.to_nat total
    /\ length special = 100%nat
    /\ forall i e,
         nth_error special i = Some e ->
         gender e = Some Male
         /\ surname e = Some (special_surname i)
         /\ (exists rest, special_surname i = lit "F" ++ rest)
         /\ (forall L, In L LETTERS ->
                       SURNAMES_BY_LETTER w' !! L = Some (pool_of L)
                       /\ ~ In (special_surname i) (pool_of L))
         /\ exists d a,
              date_of_birth e = Some d
              /\ 18 <= year (clock w) - year d <= 60
              /\ 1 <= month d <= 12 /\ 1 <= day d <= 28
              /\ age e (Some (clock w)) w' = (Ok a, w')
              /\ 17 <= a <= 60.
Proof.
  destruct (mode_bulk_generate_spec total w) as
    (stmts & w' & Hrun & Hpool & (_ & _ & _ & _ & Hsent & Hrows & _)).
  set (G := general_rows (tape w) (clock w) (cursor w) 0 (Z.to_nat total)) in *.
  set (p := (cursor w + 6 * Z.to_nat total)%nat) in *.
  set (S := special_rows _ _ p 0 100) in *.
  exists w', stmts, (List.map Employee_of_row G), (List.map Employee_of_row S).
  split; [exact Hrun|]. split; [exact Hsent|].
  split; [now rewrite <- List.map_app|].
  split; [rewrite length_map; apply general_rows_length|].
  split; [rewrite length_map; apply special_rows_length|].
  intros i e Hnth. rewrite nth_error_map in Hnth.
  destruct (nth_error S i) as [r|] eqn:Hr; [|discriminate].
  injection Hnth as <-. apply special_rows_nth in Hr. cbn [Nat.add] in Hr.
  subst r.
  split; [reflexivity|]. split; [reflexivity|].
  split; [destruct (special_surname_head i) as (rest & ->); now eexists|].
  split.
  { intros L HL. split; [rewrite Hpool; now apply prepared_ready|].
    apply special_not_in_pool. }
  pose proof (special_row_date (tape w) (clock w) (p + 5 * i) i) as Hd.
  cbv zeta in Hd. destruct Hd as (Hy & Hm & Hday).
  eexists. eexists. split; [reflexivity|].
  split; [exact Hy|]. split; [exact Hm|]. split; [exact Hday|].
  split; [apply age_of_row|].
  destruct (tuple_lt _ _); lia.
Qed.

(** C5, as stated, fails on the age: on 3 November 2026, with every draw
    equal to 515, the run of mode 4 proposes the special record
    [F_special_1] born on 12 December 2008, who is 17 on the day of the
    run. *)
Lemma special_age_counterexample :
  exists w' e,
    mode_bulk_generate 1000000 world515 = (Ok tt, w')
    /\ In (to_tuple e) (concat (List.map statement_rows (sent w')))
    /\ surname e = Some (special_surname 0)
    /\ date_of_birth e = Some (mkDate 2008 12 12)
    /\ age e (Some (clock world515)) w' = (Ok 17, w')
    /\ ~ (18 <= 17 <= 60).
Proof.
  destruct (mode_bulk_generate_spec 1000000 world515) as
    (stmts & w' & Hrun & _ & (_ & _ & _ & _ & Hsent & Hrows & _)).
  cbn [sent world515 with_session with_aborted fresh_session app tape clock cursor
       committed] in Hsent, Hrows.
  set (p := (0 + 6 * Z.to_nat 1000000)%nat) in Hrows. clearbody p.
  set (n := Z.to_nat 1000000) in Hrows. clearbody n.
  rewrite (special_rows_constant 515 (mkDate 2026 11 3) 100 p 0 0) in Hrows.
  set (G := general_rows _ _ _ _ _) in Hrows. clearbody G.
  exists w', (Employee_of_row (special_row (fun _ => 515%nat) (mkDate 2026 11 3) 0 0)).
  split; [exact Hrun|].
  split.
  { rewrite Hsent, Hrows, !List.map_app. apply in_or_app. right.
    now left. }
  split; [reflexivity|]. split; [reflexivity|]. split; [reflexivity|]. lia.
Qed.

(** ** The benchmark query *)

Lemma codepoint_le_total a : forall b,
  codepoint_le a b = true \/ codepoint_le b a = true.
Proof.
  induction a as [|x a IH]; intros [|y b]; cbn; auto.
  destruct (N.ltb_spec x y) as [H|H]; cbn; [now left|].
  destruct (N.ltb_spec y x) as [H'|H']; cbn; [now right|].
  assert (x = y) as -> by lia. rewrite N.eqb_refl. cbn. apply IH.
Qed.

Lemma like_percent s : like [37%N] s = true.
Proof.
  induction s as [|c s IH]; [reflexivity|].
  cbn in *. now rewrite IH.
Qed.

(** [surname LIKE 'F%'] is: the surname starts with F. *)
Lemma like_F s : like (lit "F%") s = true <-> exists rest, s = lit "F" ++ rest.
Proof.
  change (lit "F%") with [70%N; 37%N]. change (lit "F") with [70%N].
  destruct s as [|d s]; cbn [like app].
  - split; [discriminate|]. intros (rest & H). discriminate.
  - change ((70 =? 37)%N) with false. cbv iota.
    change ((70 =? 95)%N) with false. cbn [orb].
    fold (like [37%N] s). rewrite like_percent, andb_true_r.
    rewrite N.eqb_eq. split.
    + intros <-. now exists s.
    + now intros (rest & [= <- _]).
Qed.

Section QueryFacts.
Variable collate_le : str -> str -> bool.
Hypothesis collate_total :
  forall a b, collate_le a b = true \/ collate_le b a = true.

Lemma insert_sorted_In r x l :
  In x (insert_sorted collate_le r l) <-> x = r \/ In x l.
Proof using Type.
  induction l as [|y l IH]; cbn.
  - split; [intros [<-|[]]; now left | intros [->|[]]; now left].
  - destruct (collate_le (r_surname r) (r_surname y)); cbn.
    + split; [intros [<-|H]; auto | intros [->|H]; auto].
    + rewrite IH. split; [intros [<-|[->|H]]; auto | intros [->|[<-|H]]; auto].
Qed.

Lemma order_by_surname_In x l :
  In x (order_by_surname collate_le l) <-> In x l.
Proof using Type.
  induction l as [|y l IH]; cbn; [reflexivity|].
  rewrite insert_sorted_In, IH. split; [intros [->|H]; auto | intros [<-|H]; auto].
Qed.

Lemma insert_sorted_length r l :
  length (insert_sorted collate_le r l) = S (length l).
Proof using Type.
  induction l as [|y l IH]; cbn; [reflexivity|].
  destruct (collate_le _ _); cbn; [reflexivity|now rewrite IH].
Qed.

Lemma order_by_surname_length l :
  length (order_by_surname collate_le l) = length l.
Proof using Type.
  unfold order_by_surname.
  induction l as [|y l IH]; cbn [fold_right]; [reflexivity|].
  now rewrite insert_sorted_length, IH.
Qed.

Lemma insert_sorted_Sorted r l :
  Sorted (by_surname collate_le) l -> Sorted (by_surname collate_le) (insert_sorted collate_le r l).
Proof using collate_total.
  induction 1 as [|y l Hs IH Hhd]; cbn.
  - repeat constructor.
  - destruct (collate_le (r_surname r) (r_surname y)) eqn:E.
    + constructor; [now constructor|]. constructor. exact E.
    + constructor; [exact IH|].
      assert (Hyr : by_surname collate_le y r).
      { destruct (collate_total (r_surname r) (r_surname y)); [congruence|assumption]. }
      destruct l as [|z l]; cbn.
      * constructor. exact Hyr.
      * destruct (collate_le (r_surname r) (r_surname z));
          constructor; [exact Hyr|]. now inversion Hhd.
Qed.

Lemma order_by_surname_Sorted l :
  Sorted (by_surname collate_le) (order_by_surname collate_le l).
Proof using collate_total.
  unfold order_by_surname.
  induction l as [|y l IH]; cbn [fold_right]; [constructor|].
  now apply insert_sorted_Sorted.
Qed.

Lemma preview_ok rs : forall acc w,
  exists lines,
    for_fold rs acc (fun r lines =>
      a <- age (Employee_of_row r) None ;; ret (lines ++ [(r, a)])) w
    = (Ok lines, w).
Proof using Type.
  induction rs as [|r rs IH]; intros acc w; cbn [for_fold].
  - now exists acc.
  - erewrite bind_ok by (erewrite bind_ok by apply (age_of_row r (clock w) w);
                         reflexivity).
    apply IH.
Qed.

(** Mode 5 fetches the committed rows that match, in order, and writes
    nothing. *)
Lemma mode_select_spec w :
  exists lines,
    mode_select_male_F_measure collate_le w
    = (Ok (mkReport (select_where collate_le (Male, lit "F%") (committed w))
                    (length (select_where collate_le (Male, lit "F%")
                               (committed w)))
                    lines),
       fresh_session w).
Proof using Type.
  unfold mode_select_male_F_measure.
  erewrite bind_ok by reflexivity.
  erewrite bind_ok by reflexivity.
  erewrite bind_ok by reflexivity.
  cbn [session with_session with_aborted fresh_session committed].
  set (rows := select_where _ _ _).
  destruct (preview_ok (take 20 rows) []
              (fresh_session (fresh_session w)))
    as (lines & Hl).
  exists lines. erewrite bind_ok by exact Hl.
  unfold ret. now destruct w.
Qed.
End QueryFacts.

Lemma select_where_In collate_le g pat table r :
  In r (select_where collate_le (g, pat) table)
  <-> In r table /\ r_gender r = g /\ like pat (r_surname r) = true.
Proof.
  unfold select_where. rewrite order_by_surname_In, filter_In. cbn [fst snd].
  rewrite andb_true_iff, bool_decide_eq_true. reflexivity.
Qed.

Lemma insert_all_Forall (P : row -> Prop) table rows :
  (forall r, In r table -> P r) ->
  (forall r, In r rows -> P r) ->
  forall r, In r (insert_all table rows) -> P r.
Proof.
  intros Ht Hr r Hin.
  destruct (insert_all_extends rows table) as (added & E & Hadd).
  rewrite E in Hin. apply in_app_or in Hin as [H|H]; [now apply Ht|].
  apply Hr. now apply Hadd.
Qed.

Lemma general_rows_In tp today len p start r :
  In r (general_rows tp today p start len) ->
  exists q i, r = general_row tp today q i.
Proof.
  intros H. apply In_nth_error in H as (n & Hn).
  apply general_rows_nth in Hn. eauto.
Qed.

Lemma special_rows_nth_ok tp today len : forall p start i,
  (i < len)%nat ->
  nth_error (special_rows tp today p start len) i
  = Some (special_row tp today (p + 5 * i) (start + i)).
Proof.
  intros p start i Hi.
  destruct (nth_error (special_rows tp today p start len) i) as [r|] eqn:E.
  - now apply special_rows_nth in E as ->.
  - apply nth_error_None in E. rewrite special_rows_length in E. lia.
Qed.

Lemma special_rows_In tp today len p start r :
  In r (special_rows tp today p start len) ->
  exists q i, r = special_row tp today q i.
Proof.
  intros H. apply In_nth_error in H as (n & Hn).
  apply special_rows_nth in Hn. eauto.
Qed.

Lemma general_row_not_special tp today p i j :
  r_surname (general_row tp today p i) <> special_surname j.
Proof.
  intros E. apply (special_not_in_pool j (nth (i mod 26) LETTERS 0%N)).
  rewrite <- E. apply general_row_in_pool.
Qed.

(** No general record matches the benchmark predicate: the ones whose
    surname starts with F have an odd index, so they are Female. *)
Lemma general_row_no_match tp today p i :
  bool_decide (r_gender (general_row tp today p i) = Male)
  && like (lit "F%") (r_surname (general_row tp today p i)) = false.
Proof.
  apply not_true_is_false. rewrite andb_true_iff, bool_decide_eq_true, like_F.
  intros (Hg & rest & Hs).
  rewrite general_row_surname in Hs.
  assert (Hlt : (i mod 26 < 26)%nat) by (apply Nat.mod_upper_bound; discriminate).
  rewrite LETTERS_nth in Hs by exact Hlt.
  destruct (surname_of_head (N.of_nat (65 + i mod 26)) (1 + tp p mod 200))
    as (rest' & E).
  rewrite E in Hs. change (lit "F" ++ rest) with (70%N :: rest) in Hs.
  assert (Hc : N.of_nat (65 + i mod 26) = 70%N) by congruence.
  assert (H5 : (i mod 26 = 5)%nat) by lia.
  pose proof (mod_26_parity i) as Hp. rewrite H5 in Hp.
  change (5 mod 2)%nat with 1%nat in Hp.
  unfold general_row in Hg. cbn [r_gender] in Hg. rewrite <- Hp in Hg.
  cbn in Hg. discriminate.
Qed.

Lemma special_surnames_NoDup :
  List.NoDup (List.map special_surname (seq 0 100)).
Proof.
  apply NoDup_ListNoDup. apply (bool_decide_unpack _). vm_compute. exact I.
Qed.

(** C2, as the code has it.  Take any table in which no row with one of the
    100 special surnames has a gender other than Male (an empty table, or
    one filled by earlier runs of mode 4), and any total collation.  After
    [mode_bulk_generate], mode 5 fetches exactly the committed rows with
    gender Male and a surname starting with F, ordered by surname, and the
    number it prints is their number, at least 100. *)
Theorem benchmark_after_load
  (collate_le : str -> str -> bool) (total : Z) (w : world) :
  (forall a b, collate_le a b = true \/ collate_le b a = true) ->
  (forall r i, In r (committed w) -> (i < 100)%nat ->
               r_surname r = special_surname i -> r_gender r = Male) ->
  exists w1 w2 rep,
    mode_bulk_generate total w = (Ok tt, w1)
    /\ mode_select_male_F_measure collate_le w1 = (Ok rep, w2)
    /\ (forall r, In r (rows_fetched rep)
                  <-> In r (committed w1) /\ r_gender r = Male
                      /\ exists rest, r_surname r = lit "F" ++ rest)
    /\ Sorted (by_surname collate_le) (rows_fetched rep)
    /\ count_printed rep = length (rows_fetched rep)
    /\ (100 <= count_printed rep)%nat
    /\ committed w2 = committed w1.
Proof.
  intros Htotal Hinit.
  destruct (mode_bulk_generate_spec total w) as
    (stmts & w1 & Hrun & _ & (_ & _ & _ & Hcommitted & _ & _)).
  cbn [committed with_session with_aborted fresh_session] in Hcommitted.
  set (G := general_rows _ _ _ _ _) in Hcommitted.
  set (S := special_rows (tape w) (clock w) _ 0 100) in Hcommitted.
  destruct (mode_select_spec collate_le w1) as (lines & Hsel).
  eexists w1, _, _. split; [exact Hrun|]. split; [exact Hsel|].
  cbn [rows_fetched count_printed committed with_session].
  assert (Hmem : forall r,
    In r (select_where collate_le (Male, lit "F%") (committed w1))
    <-> In r (committed w1) /\ r_gender r = Male
        /\ exists rest, r_surname r = lit "F" ++ rest).
  { intros r. now rewrite select_where_In, like_F. }
  split; [exact Hmem|].
  split; [now apply order_by_surname_Sorted|].
  split; [reflexivity|]. split; [|reflexivity].
  (* every special surname has a Male row in the table *)
  assert (Hinv : forall r, In r (committed w1) ->
            forall i, (i < 100)%nat -> r_surname r = special_surname i ->
                      r_gender r = Male).
  { rewrite Hcommitted.
    apply (insert_all_Forall
             (fun r => forall i, (i < 100)%nat ->
                                 r_surname r = special_surname i ->
                                 r_gender r = Male)).
    - intros r Hr i Hi Hs. exact (Hinit r i Hr Hi Hs).
    - intros r Hr i Hi Hs. apply in_app_or in Hr as [Hr|Hr].
      + apply general_rows_In in Hr as (q & j & ->).
        now apply general_row_not_special in Hs.
      + apply special_rows_In in Hr as (q & j & ->). reflexivity. }
  rewrite <- (length_map r_surname).
  replace 100%nat with (length (List.map special_surname (seq 0 100)))
    by (now rewrite length_map, length_seq).
  apply List.NoDup_incl_length; [exact special_surnames_NoDup|].
  intros s Hs. apply in_map_iff in Hs as (i & <- & Hi). apply in_seq in Hi.
  assert (Hkey : has_key (committed w1)
                   (identity_key (special_row (tape w) (clock w)
                      (cursor w + 6 * Z.to_nat total + 5 * i) i)) = true).
  { rewrite Hcommitted. apply insert_all_has_key. apply in_or_app. right.
    apply (nth_error_In _ i). subst S.
    rewrite special_rows_nth_ok by lia. reflexivity. }
  apply has_key_In in Hkey as (r & Hr & Hk).
  assert (Hsur : r_surname r = special_surname i) by (now injection Hk).
  apply in_map_iff. exists r. split; [exact Hsur|].
  apply Hmem. split; [exact Hr|]. split; [apply (Hinv r Hr i); [lia|exact Hsur]|].
  rewrite Hsur. destruct (special_surname_head i) as (rest & ->). now eexists.
Qed.

Lemma benchmark_after_load_witness :
  exists w1 w2 rep,
    mode_bulk_generate 1000000 world0 = (Ok tt, w1)
    /\ mode_select_male_F_measure codepoint_le w1 = (Ok rep, w2)
    /\ (forall r, In r (rows_fetched rep)
                  <-> In r (committed w1) /\ r_gender r = Male
                      /\ exists rest, r_surname r = lit "F" ++ rest)
    /\ Sorted (by_surname codepoint_le) (rows_fetched rep)
    /\ count_printed rep = length (rows_fetched rep)
    /\ (100 <= count_printed rep)%nat
    /\ committed w2 = committed w1.
Proof.
  apply (benchmark_after_load codepoint_le 1000000 world0).
  - exact codepoint_le_total.
  - intros r i [].
Defined.

Lemma filter_none {A} (f : A -> bool) l :
  (forall x, In x l -> f x = false) -> List.filter f l = [].
Proof.
  induction l as [|x l IH]; intros H; cbn; [reflexivity|].
  rewrite (H x) by now left. apply IH. intros y Hy. apply H. now right.
Qed.

(** C2, as stated, fails on the count: the table holds a Female row with
    the identity key of [F_special_1]; the run of mode 4 skips its own
    [F_special_1], no general record matches, and mode 5 prints fewer than
    100 rows. *)
Lemma benchmark_count_counterexample :
  exists w1 w2 rep,
    mode_bulk_generate 1000000 world_collision = (Ok tt, w1)
    /\ mode_select_male_F_measure codepoint_le w1 = (Ok rep, w2)
    /\ (count_printed rep < 100)%nat.
Proof.
  destruct (mode_bulk_generate_spec 1000000 world_collision) as
    (stmts & w1 & Hrun & _ & (_ & _ & _ & Hcommitted & _ & _)).
  cbn [committed with_session with_aborted fresh_session world_collision tape clock
       cursor] in Hcommitted.
  set (p := (0 + 6 * Z.to_nat 1000000)%nat) in Hcommitted. clearbody p.
  set (n := Z.to_nat 1000000) in Hcommitted. clearbody n.
  rewrite (special_rows_constant 515 (mkDate 2026 11 3) 100 p 0 0) in Hcommitted.
  set (G := general_rows _ _ _ _ _) in Hcommitted.
  assert (HG : forall r, In r G -> exists q i,
                r = general_row (fun _ => 515%nat) (mkDate 2026 11 3) q i)
    by (intros r; apply general_rows_In).
  clearbody G.
  destruct (mode_select_spec codepoint_le w1) as (lines & Hsel).
  eexists w1, _, _. split; [exact Hrun|]. split; [exact Hsel|].
  cbn [count_printed]. unfold select_where. cbn [fst snd].
  rewrite order_by_surname_length, Hcommitted.
  set (m := fun r : row => bool_decide (r_gender r = Male)
                           && like (lit "F%") (r_surname r)).
  eapply Nat.le_lt_trans; [apply insert_all_count_le|].
  rewrite List.filter_app, length_app.
  rewrite (filter_none _ G); cycle 1.
  { intros r Hr. apply HG in Hr as (q & i & ->). subst m. cbv beta.
    now rewrite general_row_no_match. }
  vm_compute. lia.
Qed.

(** * Further properties of the code *)

(** ** Writing operations keep the table well formed *)

Lemma insert_all_length rows : forall table,
  (length (insert_all table rows) <= length table + length rows)%nat.
Proof.
  induction rows as [|x rows IH]; intros table; [cbn; lia|].
  change (insert_all table (x :: rows))
    with (insert_all (insert_do_nothing table x) rows).
  specialize (IH (insert_do_nothing table x)).
  unfold insert_do_nothing in IH at 2.
  destruct (has_key table (identity_key x)); cbn [length] in *;
    [lia | rewrite length_app in IH; cbn in IH; lia].
Qed.

(** Whatever the outcome, [bulk_insert] on an idle connection commits the
    table it found, extended by rows of its input. *)
Lemma bulk_insert_committed es batch_size w :
  idle w ->
  (exists rows, all_not_null (List.map to_tuple es) = Some rows
                /\ (bulk_insert es batch_size w).1 = Ok tt
                /\ committed (bulk_insert es batch_size w).2
                   = insert_all (committed w) rows)
  \/ (committed (bulk_insert es batch_size w).2 = committed w
      /\ (batch_size < 0 \/ (bulk_insert es batch_size w).1 <> Ok tt)).
Proof.
  intros Hidle.
  destruct (Z.lt_trichotomy batch_size 0) as [Hneg|[->|Hpos]].
  - right. rewrite bulk_insert_neg by exact Hneg.
    destruct (commit_idle w Hidle) as (w' & -> & Hc & _). cbn. auto.
  - right. rewrite bulk_insert_zero. cbn. split; [reflexivity|]. right. discriminate.
  - rewrite bulk_insert_pos by exact Hpos. unfold bind.
    destruct (run_pages_cases
                (paginate (List.map to_tuple es) (Z.to_nat batch_size)) w)
      as [(rows & Hor & _ & E & ->)|(e & w' & -> & Hc)].
    + left. exists rows. rewrite paginate_concat in E by lia.
      split; [exact E|]. unfold idle in Hidle. unfold commit.
      cbn [aborted with_session with_sent].
      destruct (aborted w) eqn:Ha; cbn; [|now rewrite Hidle].
      destruct Hor as [Hnil|?]; [|discriminate].
      assert (Hts : List.map to_tuple es = []).
      { rewrite <- (paginate_concat (Z.to_nat batch_size) ltac:(lia)
                      (List.map to_tuple es)).
        now rewrite Hnil. }
      rewrite Hts in E. injection E as <-. now split.
    + right. cbn. split; [exact Hc|]. right. discriminate.
Qed.

(** X1. The UNIQUE constraint is an invariant of every operation that
    writes: whatever their outcome, [save], [bulk_insert],
    [mode_insert_single] and [mode_bulk_generate] leave a committed table
    in which no two rows share an identity key. *)
Theorem unique_keys_invariant (w : world) :
  unique_keys (committed w) ->
  (forall e, idle w -> unique_keys (committed (save e w).2))
  /\ (forall es batch_size,
        idle w -> unique_keys (committed (bulk_insert es batch_size w).2))
  /\ (forall strptime_ymd fullname dob_str g,
        unique_keys
          (committed (mode_insert_single strptime_ymd fullname dob_str g w).2))
  /\ (forall total, unique_keys (committed (mode_bulk_generate total w).2)).
Proof.
  intros Hu. repeat split.
  - intros e Hidle. unfold idle in Hidle.
    destruct (save_cases e w) as [(r & _ & _ & _ & ->)|(x & w' & -> & Hc)].
    + cbn. rewrite Hidle. now apply insert_unique.
    + cbn [snd]. now rewrite Hc.
  - intros es batch_size Hidle.
    destruct (bulk_insert_committed es batch_size w Hidle)
      as [(rows & _ & _ & ->)|[-> _]]; [now apply insert_all_unique|exact Hu].
  - intros strptime_ymd fullname dob_str g.
    pose proof (mode_insert_single_cases strptime_ymd fullname dob_str g w) as H.
    destruct (parse_fullname fullname w).1 as [[[s gv] p]|x];
      [destruct (strptime_ymd dob_str) as [d|];
       [destruct (adaptable (Some s, Some gv, Some p, Some d, Some g))|]|];
      rewrite H; cbn;
      [now apply insert_unique|exact Hu|exact Hu|exact Hu].
  - intros total.
    destruct (mode_bulk_generate_spec total w) as
      (stmts & w' & -> & _ & (_ & _ & _ & Hc & _ & _)).
    cbn [snd]. rewrite Hc. now apply insert_all_unique.
Qed.

Lemma unique_keys_invariant_witness :
  unique_keys
    (committed (bulk_insert [ivanov; petrova; ivanov] BATCH_SIZE world1).2).
Proof.
  refine (proj1 (proj2 (unique_keys_invariant world1 _))
            [ivanov; petrova; ivanov] BATCH_SIZE _).
  - unfold unique_keys. cbn. constructor; [intros []|constructor].
  - reflexivity.
Defined.

(** X2. [bulk_insert] only appends: whatever its outcome, on a connection
    with no pending work the committed table after the call is the one
    before it followed by rows of the input whose key was free, at most one
    per record; when the call does not return normally nothing is added. *)
Theorem bulk_insert_append_only
  (w : world) (es : list Employee) (batch_size : Z) :
  idle w ->
  exists added,
    committed (bulk_insert es batch_size w).2 = committed w ++ added
    /\ (length added <= length es)%nat
    /\ ((bulk_insert es batch_size w).1 <> Ok tt -> added = [])
    /\ forall x, In x added ->
                 has_key (committed w) (identity_key x) = false
                 /\ exists e, In e es /\ stored_as e x.
Proof.
  intros Hidle.
  destruct (bulk_insert_committed es batch_size w Hidle)
    as [(rows & Hrows & Hok & Hc)|[Hc _]].
  - destruct (insert_all_extends rows (committed w)) as (added & E & Hadd).
    exists added. split; [now rewrite Hc|].
    split.
    { pose proof (insert_all_length rows (committed w)) as Hlen.
      rewrite E, length_app in Hlen.
      apply all_not_null_length in Hrows. rewrite length_map in Hrows. lia. }
    split; [intros Hne; now rewrite Hok in Hne|].
    intros x Hx. destruct (Hadd x Hx) as [Hin Hfree]. split; [exact Hfree|].
    destruct (all_not_null_In _ _ _ Hrows Hin) as (t & Ht & Hn).
    apply in_map_iff in Ht as (e & <- & He). now exists e.
  - exists []. rewrite app_nil_r. split; [exact Hc|].
    split; [cbn; lia|]. split; [reflexivity|intros x []].
Qed.

Lemma bulk_insert_append_only_witness :
  exists added,
    committed (bulk_insert [ivanov; nameless; petrova] 2 world1).2
    = committed world1 ++ added
    /\ (length added <= length [ivanov; nameless; petrova])%nat
    /\ ((bulk_insert [ivanov; nameless; petrova] 2 world1).1 <> Ok tt ->
        added = [])
    /\ forall x, In x added ->
                 has_key (committed world1) (identity_key x) = false
                 /\ exists e, In e [ivanov; nameless; petrova] /\ stored_as e x.
Proof.
  apply (bulk_insert_append_only world1 [ivanov; nameless; petrova] 2).
  reflexivity.
Defined.

Lemma save_each_ok es : forall rows w,
  idle w ->
  aborted w = false ->
  forallb adaptable (List.map to_tuple es) = true ->
  all_not_null (List.map to_tuple es) = Some rows ->
  exists w',
    for_each es save w = (Ok tt, w')
    /\ idle w'
    /\ committed w' = insert_all (committed w) rows
    /\ sent w' = sent w ++ List.map (fun e => InsertOne (to_tuple e)) es.
Proof.
  induction es as [|e es IH]; intros rows w Hidle Ha Hs Hrows;
    cbn [List.map all_not_null forallb] in Hrows, Hs.
  - injection Hrows as <-. exists w. cbn. now rewrite app_nil_r.
  - apply andb_true_iff in Hs as [Hs1 Hs2].
    destruct (not_null (to_tuple e)) as [r|] eqn:Er; [|discriminate].
    destruct (all_not_null (List.map to_tuple es)) as [rs|] eqn:Ers; [|discriminate].
    injection Hrows as <-.
    cbn [for_each]. erewrite bind_ok by (apply save_ok; eassumption).
    match goal with |- context [for_each es save ?w1] =>
      destruct (IH rs w1 eq_refl Ha Hs2 eq_refl) as (w' & H1 & H2 & H3 & H4) end.
    exists w'. split; [exact H1|]. split; [exact H2|].
    cbn in H3, H4. unfold idle in Hidle. rewrite Hidle in H3.
    split; [exact H3|]. rewrite H4, <- app_assoc. reflexivity.
Qed.

Lemma paginate_length {A} (l : list A) b :
  length (paginate l b) = div_ceil (length l) b.
Proof. unfold paginate. now rewrite length_map, length_seq. Qed.

(** X3. Batching changes the number of statements, never the stored
    result.  For records with all their fields and strings the driver can
    send, on a connection with no pending work and no aborted transaction,
    and a positive batch size, [bulk_insert] commits the table that saving
    the records one by one commits, whatever the batch size; it sends one
    statement per started chunk where the saves send one per record; and
    loading a list in two calls commits what loading it in one call
    commits. *)
Theorem bulk_insert_as_saves
  (w : world) (es1 es2 : list Employee) (rows : list row) (batch_size : Z) :
  idle w ->
  aborted w = false ->
  0 < batch_size ->
  forallb adaptable (List.map to_tuple (es1 ++ es2)) = true ->
  all_not_null (List.map to_tuple (es1 ++ es2)) = Some rows ->
  exists wb ws w1 w2,
    bulk_insert (es1 ++ es2) batch_size w = (Ok tt, wb)
    /\ for_each (es1 ++ es2) save w = (Ok tt, ws)
    /\ bulk_insert es1 batch_size w = (Ok tt, w1)
    /\ bulk_insert es2 batch_size w1 = (Ok tt, w2)
    /\ committed wb = insert_all (committed w) rows
    /\ committed ws = committed wb
    /\ committed w2 = committed wb
    /\ length (sent wb)
       = (length (sent w)
          + div_ceil (length (es1 ++ es2)) (Z.to_nat batch_size))%nat
    /\ length (sent ws) = (length (sent w) + length (es1 ++ es2))%nat.
Proof.
  intros Hidle Ha Hb Hs Hrows.
  destruct (save_each_ok _ _ _ Hidle Ha Hs Hrows) as (ws & S1 & _ & S3 & S4).
  pose proof Hrows as Hsplit. rewrite List.map_app, all_not_null_app in Hsplit.
  destruct (all_not_null (List.map to_tuple es1)) as [r1|] eqn:E1; [|discriminate].
  destruct (all_not_null (List.map to_tuple es2)) as [r2|] eqn:E2; [|discriminate].
  injection Hsplit as <-.
  pose proof Hs as Hs12. rewrite List.map_app, forallb_app in Hs12.
  apply andb_true_iff in Hs12 as [Hs1 Hs2].
  eexists _, ws, _, _.
  split; [apply (bulk_insert_ok _ _ _ _ Hb Ha Hs Hrows)|].
  split; [exact S1|].
  split; [apply (bulk_insert_ok _ _ _ _ Hb Ha Hs1 E1)|].
  split; [apply (bulk_insert_ok es2 batch_size r2 _ Hb); [exact Ha|exact Hs2|exact E2]|].
  unfold idle in Hidle. cbn. rewrite Hidle.
  split; [reflexivity|]. split; [exact S3|].
  split; [symmetry; apply insert_all_app|].
  split.
  - now rewrite length_app, length_map, paginate_length, length_map.
  - now rewrite S4, length_app, length_map.
Qed.

Lemma bulk_insert_as_saves_witness :
  exists wb ws w1 w2,
    bulk_insert ([ivanov; petrova] ++ [ivanov]) 2 world0 = (Ok tt, wb)
    /\ for_each ([ivanov; petrova] ++ [ivanov]) save world0 = (Ok tt, ws)
    /\ bulk_insert [ivanov; petrova] 2 world0 = (Ok tt, w1)
    /\ bulk_insert [ivanov] 2 w1 = (Ok tt, w2)
    /\ committed wb = insert_all (committed world0)
                        [ivanov_row; petrova_row; ivanov_row]
    /\ committed ws = committed wb
    /\ committed w2 = committed wb
    /\ length (sent wb)
       = (length (sent world0)
          + div_ceil (length ([ivanov; petrova] ++ [ivanov])) (Z.to_nat 2))%nat
    /\ length (sent ws)
       = (length (sent world0) + length ([ivanov; petrova] ++ [ivanov]))%nat.
Proof.
  apply (bulk_insert_as_saves world0 [ivanov; petrova] [ivanov]
           [ivanov_row; petrova_row; ivanov_row] 2);
    [reflexivity | reflexivity | lia | reflexivity | reflexivity].
Defined.

(** ** Age and the calendar *)

(** X4. [age] follows the calendar: it never decreases when the reference
    date moves forward, it is non-negative exactly when the reference date
    is not before the date of birth, and on the anniversary [k] years after
    the birth it is [k]. *)
Theorem age_order (e : Employee) (born t1 t2 : date) (w : world) :
  date_of_birth e = Some born ->
  exists a1 a2,
    age e (Some t1) w = (Ok a1, w)
    /\ age e (Some t2) w = (Ok a2, w)
    /\ (date_le t1 t2 -> a1 <= a2)
    /\ (0 <= a1 <-> date_le born t1)
    /\ forall k,
         age e (Some (mkDate (year born + k) (month born) (day born))) w
         = (Ok k, w).
Proof.
  intros Hborn. unfold age, bind, ret. rewrite Hborn.
  eexists _, _. split; [reflexivity|]. split; [reflexivity|].
  unfold tuple_lt, date_le. cbn [fst snd year month day].
  repeat split.
  - intros H.
    destruct (Z.ltb_spec (month t1) (month born));
      destruct (Z.eqb_spec (month t1) (month born));
      destruct (Z.ltb_spec (day t1) (day born));
      destruct (Z.ltb_spec (month t2) (month born));
      destruct (Z.eqb_spec (month t2) (month born));
      destruct (Z.ltb_spec (day t2) (day born)); cbn; lia.
  - destruct (Z.ltb_spec (month t1) (month born));
      destruct (Z.eqb_spec (month t1) (month born));
      destruct (Z.ltb_spec (day t1) (day born)); cbn; lia.
  - destruct (Z.ltb_spec (month t1) (month born));
      destruct (Z.eqb_spec (month t1) (month born));
      destruct (Z.ltb_spec (day t1) (day born)); cbn; lia.
  - intros k. rewrite !Z.ltb_irrefl, Z.eqb_refl. cbn. do 2 f_equal. lia.
Qed.

Lemma age_order_witness :
  exists a1 a2,
    age ivanov (Some (mkDate 2024 7 11)) world0 = (Ok a1, world0)
    /\ age ivanov (Some (mkDate 2024 7 12)) world0 = (Ok a2, world0)
    /\ (date_le (mkDate 2024 7 11) (mkDate 2024 7 12) -> a1 <= a2)
    /\ (0 <= a1 <-> date_le (mkDate 2009 7 12) (mkDate 2024 7 11))
    /\ forall k,
         age ivanov
           (Some (mkDate (year (mkDate 2009 7 12) + k)
                         (month (mkDate 2009 7 12)) (day (mkDate 2009 7 12))))
           world0
         = (Ok k, world0).
Proof.
  apply (age_order ivanov (mkDate 2009 7 12) (mkDate 2024 7 11)
           (mkDate 2024 7 12) world0).
  reflexivity.
Defined.

(** ** Names in, names out *)

Lemma Tokens_are_tokens s ts : Tokens s ts -> Forall is_token ts.
Proof.
  induction 1 as [s Hs|c s ts Hc _ IH|t s ts Ht Hns Hs HT IH].
  - constructor.
  - exact IH.
  - constructor; [now split|exact IH].
Qed.

Lemma Tokens_join ts :
  Forall is_token ts -> Tokens (join (lit " ") ts) ts.
Proof.
  induction 1 as [|t ts [Hne Hns] Hts IH]; [constructor; constructor|].
  destruct ts as [|t' ts].
  - cbn [join]. rewrite <- (app_nil_r t) at 1.
    apply Tokens_token; [exact Hne|exact Hns|exact I|constructor; constructor].
  - change (join (lit " ") (t :: t' :: ts))
      with (t ++ 32%N :: join (lit " ") (t' :: ts)).
    apply Tokens_token; [exact Hne|exact Hns|reflexivity|].
    apply Tokens_skip; [reflexivity|exact IH].
Qed.

Lemma parse_fullname_by_tokens fullname w a b rest :
  split (strip fullname) = a :: b :: rest ->
  parse_fullname fullname w = (Ok (a, b, join (lit " ") rest), w).
Proof.
  intros H. unfold parse_fullname. rewrite H.
  destruct rest as [|c [|d rest]]; reflexivity.
Qed.

Lemma parse_fullname_inv fullname w s g p :
  (parse_fullname fullname w).1 = Ok (s, g, p) ->
  exists rest,
    split (strip fullname) = s :: g :: rest /\ p = join (lit " ") rest.
Proof.
  destruct (split (strip fullname)) as [|a [|b rest]] eqn:E.
  - unfold parse_fullname. rewrite E. discriminate.
  - unfold parse_fullname. rewrite E. discriminate.
  - rewrite (parse_fullname_by_tokens _ _ _ _ _ E). cbn.
    intros [= <- <- <-]. now exists rest.
Qed.

(** X5. A list of tokens joined by single spaces parses back into itself:
    the first two tokens are the surname and the given name, the others,
    joined again, the patronymic. *)
Theorem parse_fullname_join (s g : str) (rest : list str) (w : world) :
  is_token s -> is_token g -> Forall is_token rest ->
  parse_fullname (join (lit " ") (s :: g :: rest)) w
  = (Ok (s, g, join (lit " ") rest), w).
Proof.
  intros Hs Hg Hrest. apply parse_fullname_by_tokens.
  rewrite split_strip. apply Tokens_split, Tokens_join.
  constructor; [exact Hs|]. constructor; [exact Hg|exact Hrest].
Qed.

Lemma parse_fullname_join_witness :
  parse_fullname (join (lit " ") [lit "Ivanov"; lit "Petr"; lit "De"; lit "La"])
                 world0
  = (Ok (lit "Ivanov", lit "Petr", join (lit " ") [lit "De"; lit "La"]), world0).
Proof.
  apply (parse_fullname_join (lit "Ivanov") (lit "Petr") [lit "De"; lit "La"]);
    repeat constructor; discriminate.
Defined.

(** X6. What [parse_fullname] returns is normalised, and stable: surname
    and given name are tokens, the patronymic is a list of tokens joined by
    single spaces (possibly none), and the name written back as
    [surname given_name patronymic], the way modes 2 and 3 print it, parses
    into the same three parts. *)
Theorem parse_fullname_stable (fullname s g p : str) (w : world) :
  (parse_fullname fullname w).1 = Ok (s, g, p) ->
  is_token s /\ is_token g
  /\ (exists rest, Forall is_token rest /\ p = join (lit " ") rest)
  /\ parse_fullname (s ++ lit " " ++ g ++ lit " " ++ p) w = (Ok (s, g, p), w).
Proof.
  intros H. apply parse_fullname_inv in H as (rest & Hts & ->).
  pose proof (Tokens_total (strip fullname)) as HT.
  rewrite split_strip, <- (split_strip fullname), Hts in HT.
  apply Tokens_are_tokens in HT.
  apply Forall_cons in HT as [Hs HT]. apply Forall_cons in HT as [Hg Hrest].
  split; [exact Hs|]. split; [exact Hg|]. split; [now exists rest|].
  destruct rest as [|c rest].
  - apply parse_fullname_by_tokens. rewrite split_strip.
    change (s ++ lit " " ++ g ++ lit " " ++ join (lit " ") [])
      with (s ++ lit " " ++ g ++ lit " ").
    replace (s ++ lit " " ++ g ++ lit " ")
      with (join (lit " ") [s; g] ++ lit " ")
      by (cbn [join]; now rewrite <- !app_assoc).
    unfold split. rewrite split_aux_trailing by (repeat constructor).
    apply Tokens_split, Tokens_join.
    constructor; [exact Hs|]. constructor; [exact Hg|constructor].
  - apply parse_fullname_by_tokens. rewrite split_strip.
    apply Tokens_split, (Tokens_join (s :: g :: c :: rest)).
    constructor; [exact Hs|]. constructor; [exact Hg|exact Hrest].
Qed.

Lemma parse_fullname_stable_witness :
  is_token (lit "Ivanov") /\ is_token (lit "Petr")
  /\ (exists rest, Forall is_token rest /\ [] = join (lit " ") rest)
  /\ parse_fullname (lit "Ivanov" ++ lit " " ++ lit "Petr" ++ lit " " ++ [])
       world0
     = (Ok (lit "Ivanov", lit "Petr", []), world0).
Proof.
  apply (parse_fullname_stable (lit " Ivanov  Petr ")). reflexivity.
Defined.

Lemma parse_fullname_few fullname w :
  (length (split (strip fullname)) < 2)%nat ->
  (parse_fullname fullname w).1 = Raise ValueError.
Proof.
  intros H. unfold parse_fullname.
  destruct (split (strip fullname)) as [|a [|b rest]]; cbn in *;
    [reflexivity..|lia].
Qed.

Lemma parse_fullname_enough fullname w :
  (2 <= length (split (strip fullname)))%nat ->
  exists name, (parse_fullname fullname w).1 = Ok name.
Proof.
  intros H.
  destruct (split (strip fullname)) as [|a [|b rest]] eqn:E; cbn in H; [lia..|].
  rewrite (parse_fullname_by_tokens _ _ _ _ _ E). now eexists.
Qed.

Lemma join_adaptable parts :
  adaptable_str (join (lit " ") parts) = forallb adaptable_str parts.
Proof.
  induction parts as [|t [|u parts] IH]; [reflexivity| |].
  - cbn. now rewrite andb_true_r.
  - change (join (lit " ") (t :: u :: parts))
      with (t ++ lit " " ++ join (lit " ") (u :: parts)).
    rewrite !adaptable_str_app, IH. reflexivity.
Qed.

(** X7. Mode 2 ends in one of three ways.  It raises [ValueError] before
    a connection is opened, and nothing at all changes, exactly when the
    full name has fewer than two tokens or the date does not parse.  When
    they parse but the driver cannot send one of the tokens of the name or
    the gender (a U+0000, a lone surrogate), [save] raises [ValueError] on
    the connection just opened: nothing is sent and no row changes.  In
    every other case it returns normally, having sent one single-row
    INSERT, and leaves no uncommitted work behind. *)
Theorem mode_insert_single_errors
  (strptime_ymd : str -> option date) (fullname dob_str g : str) (w : world) :
  let bad := (length (split (strip fullname)) < 2)%nat
             \/ strptime_ymd dob_str = None in
  let sendable :=
    forallb adaptable_str (split (strip fullname)) && adaptable_str g in
  let run := mode_insert_single strptime_ymd fullname dob_str g w in
  (bad \/ sendable = false <-> run.1 = Raise ValueError)
  /\ (bad -> run.2 = w)
  /\ (~ bad -> sendable = false -> run.2 = fresh_session w)
  /\ (~ bad -> sendable = true ->
      run.1 = Ok tt
      /\ idle run.2
      /\ exists s gv p d,
           sent run.2
           = sent w ++ [InsertOne (Some s, Some gv, Some p, Some d, Some g)]
           /\ (parse_fullname fullname w).1 = Ok (s, gv, p)
           /\ strptime_ymd dob_str = Some d).
Proof.
  intros bad sendable run. subst bad run.
  pose proof (mode_insert_single_cases strptime_ymd fullname dob_str g w) as H.
  destruct (Nat.lt_ge_cases (length (split (strip fullname))) 2) as [Hfew|Hok].
  - rewrite (parse_fullname_few _ w Hfew) in H. rewrite H. cbn [fst snd].
    split; [split; [reflexivity|intros _; left; now left]|].
    split; [reflexivity|].
    split; intros Hn; exfalso; apply Hn; now left.
  - destruct (parse_fullname_enough _ w Hok) as ([[s gv] p] & E).
    rewrite E in H.
    destruct (parse_fullname_inv _ _ _ _ _ E) as (rest & Hparts & ->).
    destruct (strptime_ymd dob_str) as [d|] eqn:D.
    + assert (Hsend : adaptable (Some s, Some gv, Some (join (lit " ") rest),
                                 Some d, Some g) = sendable).
      { subst sendable. rewrite Hparts. cbn [adaptable adaptable_opt forallb].
        rewrite join_adaptable. now rewrite !andb_assoc. }
      rewrite Hsend in H.
      destruct sendable; cbv zeta in H; rewrite H; cbn [fst snd].
      * split; [split; [intros [[?|?]|?]; [lia|discriminate..]|discriminate]|].
        split; [intros [?|?]; [lia|discriminate]|].
        split; [discriminate|].
        intros _ _. split; [reflexivity|]. split; [reflexivity|].
        now exists s, gv, (join (lit " ") rest), d.
      * split; [split; [reflexivity|intros _; now right]|].
        split; [intros [?|?]; [lia|discriminate]|].
        split; [reflexivity|discriminate].
    + rewrite H. cbn [fst snd].
      split; [split; [reflexivity|intros _; left; now right]|].
      split; [reflexivity|].
      split; intros Hn; exfalso; apply Hn; now right.
Qed.

(** ** The surname pools and the generator *)

Lemma prepared_other d K : ~ In K LETTERS -> prepared d !! K = d !! K.
Proof.
  unfold prepared. generalize LETTERS. intros ls. revert d.
  induction ls as [|x ls IH]; intros d Hn; [reflexivity|].
  cbn [fold_left]. rewrite IH by (intros H; apply Hn; now right).
  apply lookup_insert_ne. intros ->. apply Hn. now left.
Qed.

Lemma prepared_idempotent d : prepared (prepared d) = prepared d.
Proof.
  apply map_eq. intros K.
  destruct (in_dec N.eq_dec K LETTERS) as [Hin|Hn].
  - now rewrite !(prepared_ready _ K Hin).
  - now rewrite !prepared_other by exact Hn.
Qed.

Lemma str_of_nat_NoDup : List.NoDup (List.map str_of_nat (seq 1 200)).
Proof.
  apply NoDup_ListNoDup. apply (bool_decide_unpack _). vm_compute. exact I.
Qed.

Lemma pool_of_NoDup L : List.NoDup (pool_of L).
Proof.
  unfold pool_of.
  replace (List.map (surname_of L) (seq 1 200))
    with (List.map (fun t => L :: lit "surname" ++ t)
            (List.map str_of_nat (seq 1 200)))
    by (now rewrite List.map_map).
  apply Finite.Injective_map_NoDup; [|exact str_of_nat_NoDup].
  intros a b H. now injection H.
Qed.

Lemma pool_of_head L s : In s (pool_of L) -> exists rest, s = L :: rest.
Proof.
  unfold pool_of. rewrite in_map_iff. intros (n & <- & _).
  destruct (surname_of_head L n) as (rest & ->). now eexists.
Qed.

(** X8. [prepare_surnames] gives each of the 26 letters A..Z a pool of
    exactly 200 surnames, all different and all starting with the letter,
    leaves every other key of the dict and the rest of the world alone,
    and changes nothing when it is run again. *)
Theorem prepare_surnames_pools (w : world) :
  exists w',
    prepare_surnames w = (Ok tt, w')
    /\ w' = with_pool (SURNAMES_BY_LETTER w') w
    /\ (forall L, In L LETTERS ->
          exists arr,
            SURNAMES_BY_LETTER w' !! L = Some arr
            /\ length arr = 200%nat
            /\ List.NoDup arr
            /\ forall s, In s arr -> exists rest, s = L :: rest)
    /\ (forall K, ~ In K LETTERS ->
          SURNAMES_BY_LETTER w' !! K = SURNAMES_BY_LETTER w !! K)
    /\ length LETTERS = 26%nat
    /\ prepare_surnames w' = (Ok tt, w').
Proof.
  rewrite prepare_surnames_spec. eexists. split; [reflexivity|].
  cbn [SURNAMES_BY_LETTER with_pool].
  split; [now destruct w|].
  split.
  { intros L HL. exists (pool_of L).
    split; [now apply prepared_ready|]. split; [apply pool_of_length|].
    split; [apply pool_of_NoDup|apply pool_of_head]. }
  split; [intros K HK; now apply prepared_other|].
  split; [reflexivity|].
  rewrite prepare_surnames_spec. cbn [SURNAMES_BY_LETTER with_pool].
  rewrite prepared_idempotent. now destruct w.
Qed.

Lemma random_choice_In {A} (items : list A) w :
  items <> [] ->
  exists x,
    random_choice items w = (Ok x, with_cursor (S (cursor w)) w)
    /\ In x items.
Proof.
  intros Hne. destruct items as [|d items]; [congruence|].
  rewrite (random_choice_ok _ d) by discriminate.
  eexists. split; [reflexivity|].
  apply nth_In, Nat.mod_upper_bound. discriminate.
Qed.

Lemma random_randint_range a b w :
  a <= b ->
  exists v,
    random_randint a b w = (Ok v, with_cursor (S (cursor w)) w)
    /\ a <= v <= b.
Proof.
  intros H. rewrite random_randint_ok by exact H. eexists. split; [reflexivity|].
  pose proof (Z.mod_pos_bound (Z.of_nat (tape w (cursor w))) (b - a + 1)). lia.
Qed.

Lemma pool_ready_nonempty (d : gmap N (list str)) : pool_ready d -> d <> ∅.
Proof.
  intros Hready E. specialize (Hready 65%N (or_introl eq_refl)).
  rewrite E, lookup_empty in Hready. discriminate.
Qed.

Lemma bind_same {A B} (c : M A) (k : A -> M B) w w' a w1 :
  c w = (Ok a, w1) -> c w' = (Ok a, w1) -> bind c k w = bind c k w'.
Proof. unfold bind. now intros -> ->. Qed.

(** The lazy initialisation: on an empty dict the generator first runs
    [prepare_surnames], then goes on as if the dict had been prepared. *)
Lemma gen_random_employee_lazy letter gender w :
  SURNAMES_BY_LETTER w = ∅ ->
  gen_random_employee letter gender w
  = gen_random_employee letter gender (with_pool (prepared ∅) w).
Proof.
  intros E. unfold gen_random_employee.
  apply (bind_same _ _ _ _ tt (with_pool (prepared ∅) w)).
  - destruct (decide (SURNAMES_BY_LETTER w = ∅)) as [_|Hn]; [|contradiction].
    rewrite prepare_surnames_spec, E. reflexivity.
  - cbn [SURNAMES_BY_LETTER with_pool].
    destruct (decide (prepared ∅ = ∅)) as [E'|_]; [|reflexivity].
    exfalso. exact (pool_ready_nonempty _ (prepared_ready ∅) E').
Qed.

Lemma gen_random_employee_ready letter gender w :
  pool_ready (SURNAMES_BY_LETTER w) ->
  (forall L, letter = Some L -> In L LETTERS) ->
  exists e w' L s gv p d x,
    gen_random_employee letter gender w = (Ok e, w')
    /\ e = mkEmployee (Some s) (Some gv) (Some p) (Some d) (Some x)
    /\ In L LETTERS /\ (forall L0, letter = Some L0 -> L = L0)
    /\ In s (pool_of L)
    /\ In gv FIRST_NAMES /\ In p PATRONYMICS
    /\ 18 <= year (clock w) - year d <= 70
    /\ 1 <= month d <= 12 /\ 1 <= day d <= 28
    /\ (forall g0, gender = Some g0 -> x = g0)
    /\ (gender = None -> x = Male \/ x = Female)
    /\ w' = with_cursor (cursor w') w
    /\ cursor w' = (cursor w + 6 + draws_for letter
                    + draws_for gender)%nat.
Proof.
  intros Hready Hletter. unfold gen_random_employee.
  erewrite bind_ok; cycle 1.
  { destruct (decide (SURNAMES_BY_LETTER w = ∅)) as [E|_]; [|reflexivity].
    now apply pool_ready_nonempty in Hready. }
  assert (HL : exists L w1,
            match letter with
            | Some l => ret l
            | None => random_choice LETTERS
            end w = (Ok L, w1)
            /\ In L LETTERS /\ (forall L0, letter = Some L0 -> L = L0)
            /\ w1 = with_cursor (cursor w + draws_for letter) w).
  { destruct letter as [L|].
    - exists L, w. split; [reflexivity|]. split; [now apply Hletter|].
      split; [now intros ? [= ->]|]. rewrite Nat.add_0_r. now destruct w.
    - destruct (random_choice_In LETTERS w) as (L & Hrun & HinL); [discriminate|].
      exists L, (with_cursor (S (cursor w)) w). split; [exact Hrun|].
      split; [exact HinL|]. split; [discriminate|]. now rewrite Nat.add_1_r. }
  destruct HL as (L & w1 & HrunL & HinL & HsameL & ->).
  erewrite bind_ok by exact HrunL.
  erewrite bind_ok
    by (cbn [SURNAMES_BY_LETTER with_cursor]; rewrite (Hready L HinL); reflexivity).
  edestruct (random_choice_In (pool_of L)) as (s & Hs & Hins);
    [apply pool_of_nonempty|]. erewrite bind_ok by exact Hs.
  edestruct (random_choice_In FIRST_NAMES) as (gv & Hgv & Hingv); [discriminate|].
  erewrite bind_ok by exact Hgv.
  edestruct (random_choice_In PATRONYMICS) as (p & Hp & Hinp); [discriminate|].
  erewrite bind_ok by exact Hp.
  edestruct (random_randint_range 18 70) as (a & Ha & Hra); [lia|].
  erewrite bind_ok by exact Ha.
  erewrite bind_ok by reflexivity.
  edestruct (random_randint_range 1 12) as (m & Hm & Hrm); [lia|].
  erewrite bind_ok by exact Hm.
  edestruct (random_randint_range 1 28) as (dd & Hdd & Hrd); [lia|].
  erewrite bind_ok by exact Hdd.
  cbn [clock with_cursor cursor].
  assert (HG : exists x w2,
            match gender with
            | Some g0 => ret g0
            | None => random_choice [Male; Female]
            end (with_cursor (cursor w + draws_for letter + 6) w)
            = (Ok x, w2)
            /\ (forall g0, gender = Some g0 -> x = g0)
            /\ (gender = None -> x = Male \/ x = Female)
            /\ w2 = with_cursor (cursor w + draws_for letter + 6
                                 + draws_for gender) w).
  { destruct gender as [g0|].
    - eexists g0, _. split; [reflexivity|]. split; [now intros ? [= ->]|].
      split; [discriminate|]. now rewrite Nat.add_0_r.
    - edestruct (random_choice_In [Male; Female]) as (x & Hx & Hinx); [discriminate|].
      eexists x, _. split; [exact Hx|]. split; [discriminate|].
      split; [intros _; destruct Hinx as [<-|[<-|[]]]; auto|].
      cbn [cursor with_cursor]. unfold with_cursor. cbn. f_equal. lia. }
  destruct HG as (x & w2 & Hx & Hx1 & Hx2 & ->).
  replace (with_cursor _ (with_cursor _ (with_cursor _ (with_cursor _
             (with_cursor _ (with_cursor _ (with_cursor _ w)))))))
    with (with_cursor (cursor w + draws_for letter + 6) w)
    by (unfold with_cursor; cbn; f_equal; lia).
  erewrite bind_ok by exact Hx.
  eexists _, _, L, s, gv, p, _, x. split; [reflexivity|].
  split; [reflexivity|]. split; [exact HinL|]. split; [exact HsameL|].
  split; [exact Hins|]. split; [exact Hingv|]. split; [exact Hinp|].
  cbn [year month day cursor with_cursor].
  split; [lia|]. split; [exact Hrm|]. split; [exact Hrd|].
  split; [exact Hx1|]. split; [exact Hx2|]. split; [reflexivity|]. lia.
Qed.

(** X9. [gen_random_employee] cannot fail when the dict of pools is empty
    or prepared and the letter, if given, is one of A..Z.  The record has
    all five fields: a surname from the pool of the letter (the given one,
    or one of A..Z), a given name and a patronymic from the two catalogues,
    a date of birth whose year lies 18 to 70 years before the year of the
    clock with month in 1..12 and day in 1..28, and the gender asked for or
    else Male or Female.  Only the pools and the position on the tape can
    change: six draws, and one more for each argument left out. *)
Theorem gen_random_employee_ranges
  (letter : option char) (gender : option str) (w : world) :
  SURNAMES_BY_LETTER w = ∅ \/ pool_ready (SURNAMES_BY_LETTER w) ->
  (forall L, letter = Some L -> In L LETTERS) ->
  exists e w' L s gv p d x,
    gen_random_employee letter gender w = (Ok e, w')
    /\ e = mkEmployee (Some s) (Some gv) (Some p) (Some d) (Some x)
    /\ In L LETTERS /\ (forall L0, letter = Some L0 -> L = L0)
    /\ In s (pool_of L)
    /\ In gv FIRST_NAMES /\ In p PATRONYMICS
    /\ 18 <= year (clock w) - year d <= 70
    /\ 1 <= month d <= 12 /\ 1 <= day d <= 28
    /\ (forall g0, gender = Some g0 -> x = g0)
    /\ (gender = None -> x = Male \/ x = Female)
    /\ pool_ready (SURNAMES_BY_LETTER w')
    /\ w' = with_cursor (cursor w') (with_pool (SURNAMES_BY_LETTER w') w)
    /\ cursor w' = (cursor w + 6 + draws_for letter + draws_for gender)%nat.
Proof.
  intros [Hempty|Hready] Hletter.
  - rewrite (gen_random_employee_lazy _ _ _ Hempty).
    destruct (gen_random_employee_ready letter gender
                (with_pool (prepared ∅) w) (prepared_ready ∅) Hletter)
      as (e & w' & L & s & gv & p & d & x & H1 & H2 & H3 & H4 & H5 & H6 & H7
          & H8 & H9 & H10 & H11 & H12 & H13 & H14).
    exists e, w', L, s, gv, p, d, x.
    cbn [clock cursor with_pool] in H8, H14.
    repeat (split; [assumption|]).
    rewrite H13. cbn [SURNAMES_BY_LETTER with_cursor with_pool cursor].
    split; [apply prepared_ready|]. split; [now destruct w|exact H14].
  - destruct (gen_random_employee_ready letter gender w Hready Hletter)
      as (e & w' & L & s & gv & p & d & x & H1 & H2 & H3 & H4 & H5 & H6 & H7
          & H8 & H9 & H10 & H11 & H12 & H13 & H14).
    exists e, w', L, s, gv, p, d, x.
    repeat (split; [assumption|]).
    rewrite H13. cbn [SURNAMES_BY_LETTER with_cursor with_pool cursor].
    split; [exact Hready|]. split; [now destruct w|exact H14].
Qed.

Lemma gen_random_employee_ranges_witness :
  exists e w' L s gv p d x,
    gen_random_employee None None world0 = (Ok e, w')
    /\ e = mkEmployee (Some s) (Some gv) (Some p) (Some d) (Some x)
    /\ In L LETTERS /\ (forall L0, @None N = Some L0 -> L = L0)
    /\ In s (pool_of L)
    /\ In gv FIRST_NAMES /\ In p PATRONYMICS
    /\ 18 <= year (clock world0) - year d <= 70
    /\ 1 <= month d <= 12 /\ 1 <= day d <= 28
    /\ (forall g0, @None (list N) = Some g0 -> x = g0)
    /\ (@None (list N) = None -> x = Male \/ x = Female)
    /\ pool_ready (SURNAMES_BY_LETTER w')
    /\ w' = with_cursor (cursor w') (with_pool (SURNAMES_BY_LETTER w') world0)
    /\ cursor w'
       = (cursor world0 + 6 + draws_for (@None N)
          + draws_for (@None (list N)))%nat.
Proof.
  apply (gen_random_employee_ranges None None world0).
  - left. reflexivity.
  - discriminate.
Defined.

(** X10. How [gen_random_employee] fails, each time before any draw: a
    letter outside A..Z raises [KeyError], after the lazy initialisation
    when the dict was empty; the initialisation is skipped as soon as the
    dict holds anything, so that a letter missing from a non-empty dict
    raises [KeyError] even if it is one of A..Z; and a letter whose pool is
    empty raises [IndexError]. *)
Theorem gen_random_employee_errors
  (L : char) (gender : option str) (w : world) :
  (SURNAMES_BY_LETTER w = ∅ -> ~ In L LETTERS ->
   gen_random_employee (Some L) gender w
   = (Raise KeyError, with_pool (prepared ∅) w))
  /\ (SURNAMES_BY_LETTER w <> ∅ -> SURNAMES_BY_LETTER w !! L = None ->
      gen_random_employee (Some L) gender w = (Raise KeyError, w))
  /\ (SURNAMES_BY_LETTER w !! L = Some [] ->
      gen_random_employee (Some L) gender w = (Raise IndexError, w)).
Proof.
  assert (Hskip : SURNAMES_BY_LETTER w <> ∅ ->
    (fun w0 => if decide (SURNAMES_BY_LETTER w0 = ∅)
               then prepare_surnames w0 else ret tt w0) w = (Ok tt, w)).
  { intros Hne. cbv beta. now destruct (decide (SURNAMES_BY_LETTER w = ∅)). }
  split; [|split].
  - intros E Hn. rewrite (gen_random_employee_lazy _ _ _ E).
    unfold gen_random_employee.
    erewrite bind_ok; cycle 1.
    { cbn [SURNAMES_BY_LETTER with_pool].
      destruct (decide (prepared ∅ = ∅)) as [E'|_]; [|reflexivity].
      exfalso. exact (pool_ready_nonempty _ (prepared_ready ∅) E'). }
    erewrite bind_ok by reflexivity.
    unfold bind at 1. cbn [SURNAMES_BY_LETTER with_pool].
    rewrite prepared_other by exact Hn. now rewrite lookup_empty.
  - intros Hne Hnone. unfold gen_random_employee.
    erewrite bind_ok by (apply Hskip; exact Hne).
    erewrite bind_ok by reflexivity.
    unfold bind at 1. now rewrite Hnone.
  - intros Hsome. unfold gen_random_employee.
    erewrite bind_ok; cycle 1.
    { apply Hskip. intros E. rewrite E, lookup_empty in Hsome. discriminate. }
    erewrite bind_ok by reflexivity.
    erewrite bind_ok by (rewrite Hsome; reflexivity).
    reflexivity.
Qed.

Lemma gen_random_employee_errors_witness :
  gen_random_employee (Some 97%N) None world0
  = (Raise KeyError, with_pool (prepared ∅) world0).
Proof.
  refine (proj1 (gen_random_employee_errors 97%N None world0) _ _).
  - reflexivity.
  - intros H. vm_compute in H. intuition discriminate.
Defined.

(** ** What mode 4 loads *)

Lemma general_row_gender tp today p i :
  r_gender (general_row tp today p i)
  = if (i mod 2 =? 0)%nat then Male else Female.
Proof. reflexivity. Qed.

Lemma general_row_initial tp today p i :
  exists rest,
    r_surname (general_row tp today p i) = N.of_nat (65 + i mod 26) :: rest.
Proof.
  rewrite general_row_surname.
  rewrite LETTERS_nth by (apply Nat.mod_upper_bound; discriminate).
  destruct (surname_of_head (N.of_nat (65 + i mod 26)) (1 + tp p mod 200))
    as (rest & ->).
  now eexists.
Qed.

Lemma filter_map_length {A B} (f : B -> bool) (g : A -> B) l :
  length (List.filter f (List.map g l))
  = length (List.filter (fun x => f (g x)) l).
Proof.
  induction l as [|x l IH]; cbn; [reflexivity|].
  destruct (f (g x)); cbn; now rewrite IH.
Qed.

Lemma general_rows_male tp today len : forall p start,
  length (List.filter (fun r => bool_decide (r_gender r = Male))
            (general_rows tp today p start len))
  = ((len + (1 - start mod 2)) / 2)%nat.
Proof.
  induction len as [|len IH]; intros p start; cbn [general_rows List.filter].
  - pose proof (Nat.mod_upper_bound start 2 ltac:(discriminate)).
    symmetry. apply Nat.div_small. lia.
  - rewrite general_row_gender.
    pose proof (Nat.mod_upper_bound start 2 ltac:(discriminate)) as B1.
    pose proof (Nat.mod_upper_bound (S start) 2 ltac:(discriminate)) as B2.
    pose proof (Nat.div_mod_eq start 2) as D1.
    pose proof (Nat.div_mod_eq (S start) 2) as D2.
    destruct (Nat.eqb_spec (start mod 2) 0) as [E|E].
    + rewrite bool_decide_eq_true_2 by reflexivity. cbn [length].
      rewrite IH.
      replace (1 - S start mod 2)%nat with 0%nat by lia.
      replace (1 - start mod 2)%nat with 1%nat by lia.
      replace (S len + 1)%nat with (len + 0 + 1 * 2)%nat by lia.
      rewrite Nat.div_add by discriminate. lia.
    + rewrite bool_decide_eq_false_2 by (intros H; now apply Male_not_Female).
      rewrite IH.
      replace (1 - S start mod 2)%nat with 1%nat by lia.
      replace (1 - start mod 2)%nat with 0%nat by lia.
      f_equal. lia.
Qed.

(** X11. In every run of [mode_bulk_generate] the first letter of a general
    record's surname decides its gender: the alphabet has an even number of
    letters, so that the letters at even positions (A, C, E, ...) only get
    Male records and those at odd positions (B, D, F, ...) only Female
    ones.  Of the [total] general records, [(total + 1) / 2] are Male. *)
Theorem letter_decides_gender (total : Z) (w : world) :
  exists w' stmts general special,
    mode_bulk_generate total w = (Ok tt, w')
    /\ sent w' = sent w ++ stmts
    /\ concat (List.map statement_rows stmts)
       = List.map to_tuple (general ++ special)
    /\ length general = Z.to_nat total
    /\ length special = 100%nat
    /\ (forall e, In e general ->
          exists c rest,
            surname e = Some (c :: rest)
            /\ (65 <= c <= 90)%N
            /\ ((letter_index c mod 2 = 0)%nat <-> gender e = Some Male)
            /\ ((letter_index c mod 2 = 1)%nat <-> gender e = Some Female))
    /\ length (List.filter (fun e => bool_decide (gender e = Some Male)) general)
       = ((Z.to_nat total + 1) / 2)%nat.
Proof.
  destruct (mode_bulk_generate_spec total w) as
    (stmts & w' & Hrun & Hpool & (_ & _ & _ & _ & Hsent & Hrows & _)).
  set (G := general_rows (tape w) (clock w) (cursor w) 0 (Z.to_nat total)) in *.
  set (S := special_rows _ _ _ 0 100) in *.
  exists w', stmts, (List.map Employee_of_row G), (List.map Employee_of_row S).
  split; [exact Hrun|]. split; [exact Hsent|].
  split; [now rewrite <- List.map_app|].
  split; [rewrite length_map; apply general_rows_length|].
  split; [rewrite length_map; apply special_rows_length|].
  split.
  - intros e He. apply in_map_iff in He as (r & <- & Hr).
    apply general_rows_In in Hr as (q & i & ->).
    destruct (general_row_initial (tape w) (clock w) q i) as (rest & Hs).
    exists (N.of_nat (65 + i mod 26)), rest.
    pose proof (Nat.mod_upper_bound i 26 ltac:(discriminate)) as Hlt.
    split; [cbn [surname Employee_of_row]; now rewrite Hs|].
    split; [lia|].
    assert (Hidx : letter_index (N.of_nat (65 + i mod 26)) = (i mod 26)%nat)
      by (unfold letter_index; lia).
    rewrite Hidx, mod_26_parity.
    cbn [gender Employee_of_row]. rewrite general_row_gender.
    pose proof (Nat.mod_upper_bound i 2 ltac:(discriminate)).
    destruct (Nat.eqb_spec (i mod 2) 0) as [E|E]; split; split; intros H';
      try reflexivity; try lia; try (now injection H').
  - rewrite filter_map_length.
    erewrite List.filter_ext; [apply (general_rows_male _ _ _ _ 0)|].
    intros r. cbn [gender Employee_of_row].
    destruct (bool_decide_reflect (r_gender r = Male)) as [->|Hn].
    + now rewrite bool_decide_eq_true_2.
    + rewrite bool_decide_eq_false_2; [reflexivity|]. now intros [= ?].
Qed.

Lemma male_F_spec r :
  male_F r = true
  <-> r_gender r = Male /\ exists rest, r_surname r = lit "F" ++ rest.
Proof. unfold male_F. now rewrite andb_true_iff, bool_decide_eq_true, like_F. Qed.

Lemma special_row_male_F tp today p i : male_F (special_row tp today p i) = true.
Proof.
  apply male_F_spec. split; [reflexivity|].
  cbn [r_surname special_row].
  destruct (special_surname_head i) as (rest & ->). now eexists.
Qed.

(** After a load of general and special rows over a table whose rows with a
    special surname are all Male, each of the 100 special surnames has a
    row that matches the benchmark predicate. *)
Lemma special_rows_counted tp today p table G :
  (forall r i, In r table -> (i < 100)%nat ->
               r_surname r = special_surname i -> r_gender r = Male) ->
  (forall r, In r G -> exists q j, r = general_row tp today q j) ->
  (100 <= length (List.filter male_F
                    (insert_all table (G ++ special_rows tp today p 0 100))))%nat.
Proof.
  intros Hinit HG.
  set (S := special_rows tp today p 0 100).
  set (final := insert_all table (G ++ S)).
  assert (Hinv : forall r, In r final ->
            forall i, (i < 100)%nat -> r_surname r = special_surname i ->
                      r_gender r = Male).
  { apply (insert_all_Forall
             (fun r => forall i, (i < 100)%nat ->
                                 r_surname r = special_surname i ->
                                 r_gender r = Male)).
    - intros r Hr i Hi Hs. exact (Hinit r i Hr Hi Hs).
    - intros r Hr i Hi Hs. apply in_app_or in Hr as [Hr|Hr].
      + apply HG in Hr as (q & j & ->).
        now apply general_row_not_special in Hs.
      + apply special_rows_In in Hr as (q & j & ->). reflexivity. }
  rewrite <- (length_map r_surname).
  replace 100%nat with (length (List.map special_surname (seq 0 100)))
    by (now rewrite length_map, length_seq).
  apply List.NoDup_incl_length; [exact special_surnames_NoDup|].
  intros s Hs. apply in_map_iff in Hs as (i & <- & Hi). apply in_seq in Hi.
  assert (Hkey : has_key final
                   (identity_key (special_row tp today (p + 5 * i) i)) = true).
  { apply insert_all_has_key. apply in_or_app. right.
    apply (nth_error_In _ i). subst S.
    rewrite special_rows_nth_ok by lia. reflexivity. }
  apply has_key_In in Hkey as (r & Hr & Hk).
  assert (Hsur : r_surname r = special_surname i) by (now injection Hk).
  apply in_map_iff. exists r. split; [exact Hsur|].
  apply filter_In. split; [exact Hr|]. apply male_F_spec.
  split; [apply (Hinv r Hr i); [lia|exact Hsur]|].
  rewrite Hsur. destruct (special_surname_head i) as (rest & ->). now eexists.
Qed.

(** X12. Over a table in which no surname starts with F (an empty table,
    for one), the benchmark is deterministic whatever the random draws:
    after [mode_bulk_generate], mode 5 prints exactly 100, and the rows it
    fetches are special records, since the general records with an F
    surname are all Female. *)
Theorem benchmark_exactly_100
  (collate_le : str -> str -> bool) (total : Z) (w : world) :
  (forall r, In r (committed w) ->
             ~ exists rest, r_surname r = lit "F" ++ rest) ->
  exists w1 w2 rep,
    mode_bulk_generate total w = (Ok tt, w1)
    /\ mode_select_male_F_measure collate_le w1 = (Ok rep, w2)
    /\ count_printed rep = 100%nat
    /\ length (rows_fetched rep) = 100%nat
    /\ forall r, In r (rows_fetched rep) ->
                 r_gender r = Male
                 /\ exists i, (i < 100)%nat /\ r_surname r = special_surname i.
Proof.
  intros HnoF.
  destruct (mode_bulk_generate_spec total w) as
    (stmts & w1 & Hrun & _ & (_ & _ & _ & Hcommitted & _ & _)).
  cbn [committed with_session with_aborted fresh_session] in Hcommitted.
  set (G := general_rows _ _ _ _ _) in Hcommitted.
  set (S := special_rows (tape w) (clock w) _ 0 100) in Hcommitted.
  destruct (mode_select_spec collate_le w1) as (lines & Hsel).
  eexists w1, _, _. split; [exact Hrun|]. split; [exact Hsel|].
  cbn [rows_fetched count_printed].
  assert (HG : forall r, In r G -> exists q j,
                r = general_row (tape w) (clock w) q j)
    by (intros r; apply general_rows_In).
  assert (Hnone : forall r, In r (committed w) -> male_F r = false).
  { intros r Hr. apply not_true_is_false. rewrite male_F_spec.
    intros [_ HF]. exact (HnoF r Hr HF). }
  assert (Hcount : length (select_where collate_le (Male, lit "F%") (committed w1))
                   = 100%nat).
  { unfold select_where. cbn [fst snd]. rewrite order_by_surname_length.
    fold male_F. change (fun r => male_F r) with male_F.
    rewrite Hcommitted. apply Nat.le_antisymm.
    - eapply Nat.le_trans; [apply insert_all_count_le|].
      rewrite (filter_none male_F (committed w)) by exact Hnone.
      rewrite List.filter_app, length_app.
      rewrite (filter_none _ G); cycle 1.
      { intros r Hr. apply HG in Hr as (q & j & ->).
        unfold male_F. now rewrite general_row_no_match. }
      cbn [length Nat.add].
      eapply Nat.le_trans; [apply List.filter_length_le|].
      subst S. now rewrite special_rows_length.
    - apply special_rows_counted; [|exact HG].
      intros r i Hr _ Hs. exfalso. apply (HnoF r Hr).
      rewrite Hs. destruct (special_surname_head i) as (rest & ->). now eexists. }
  split; [exact Hcount|]. split; [exact Hcount|].
  intros r Hr. apply select_where_In in Hr as (Hr & Hg & Hlike).
  split; [exact Hg|].
  rewrite Hcommitted in Hr.
  destruct (insert_all_extends (G ++ S) (committed w)) as (added & E & Hadd).
  rewrite E in Hr. apply in_app_or in Hr as [Hr|Hr].
  - exfalso. apply like_F in Hlike. exact (HnoF r Hr Hlike).
  - destruct (Hadd r Hr) as [Hin _]. apply in_app_or in Hin as [Hin|Hin].
    + exfalso. apply HG in Hin as (q & j & ->).
      pose proof (general_row_no_match (tape w) (clock w) q j) as Hno.
      rewrite Hlike, andb_true_r in Hno.
      now rewrite bool_decide_eq_true_2 in Hno.
    + apply In_nth_error in Hin as (i & Hi).
      assert (Hlt : (i < 100)%nat).
      { assert (i < length S)%nat by (apply nth_error_Some; congruence).
        subst S. now rewrite special_rows_length in *. }
      apply special_rows_nth in Hi. cbn [Nat.add] in Hi. subst r.
      exists i. split; [exact Hlt|reflexivity].
Qed.

Lemma benchmark_exactly_100_witness :
  exists w1 w2 rep,
    mode_bulk_generate 1000000 world0 = (Ok tt, w1)
    /\ mode_select_male_F_measure codepoint_le w1 = (Ok rep, w2)
    /\ count_printed rep = 100%nat
    /\ length (rows_fetched rep) = 100%nat
    /\ forall r, In r (rows_fetched rep) ->
                 r_gender r = Male
                 /\ exists i, (i < 100)%nat /\ r_surname r = special_surname i.
Proof.
  apply (benchmark_exactly_100 codepoint_le 1000000 world0).
  intros r [].
Defined.

(** X13. [mode_bulk_generate] cannot fail, whatever the table, the random
    draws and the date; it only appends to the table, at most [total + 100]
    rows, each with a key that was free and with gender Male or Female;
    and it leaves nothing uncommitted. *)
Theorem mode_bulk_generate_grows (total : Z) (w : world) :
  exists w' added,
    mode_bulk_generate total w = (Ok tt, w')
    /\ committed w' = committed w ++ added
    /\ (length added <= Z.to_nat total + 100)%nat
    /\ idle w'
    /\ forall x, In x added ->
                 has_key (committed w) (identity_key x) = false
                 /\ (r_gender x = Male \/ r_gender x = Female).
Proof.
  destruct (mode_bulk_generate_spec total w) as
    (stmts & w' & Hrun & _ & (_ & _ & Hidle & Hcommitted & _ & _)).
  cbn [committed with_session with_aborted fresh_session] in Hcommitted.
  set (G := general_rows _ _ _ _ _) in Hcommitted.
  set (S := special_rows (tape w) (clock w) _ 0 100) in Hcommitted.
  destruct (insert_all_extends (G ++ S) (committed w)) as (added & E & Hadd).
  exists w', added. split; [exact Hrun|]. split; [now rewrite Hcommitted|].
  split.
  { pose proof (insert_all_length (G ++ S) (committed w)) as Hlen.
    rewrite E, !length_app in Hlen. subst G S.
    rewrite general_rows_length, special_rows_length in Hlen. lia. }
  split; [exact Hidle|].
  intros x Hx. destruct (Hadd x Hx) as [Hin Hfree]. split; [exact Hfree|].
  apply in_app_or in Hin as [Hin|Hin].
  - apply general_rows_In in Hin as (q & i & ->). rewrite general_row_gender.
    destruct (i mod 2 =? 0)%nat; auto.
  - apply special_rows_In in Hin as (q & i & ->). now left.
Qed.

(** ** Modes 3 and 5 read, and only read *)

Lemma insert_sorted_Permutation collate_le r l :
  Permutation (insert_sorted collate_le r l) (r :: l).
Proof.
  induction l as [|x l IH]; cbn; [reflexivity|].
  destruct (collate_le (r_surname r) (r_surname x)); [reflexivity|].
  rewrite IH. apply perm_swap.
Qed.

Lemma order_by_surname_Permutation collate_le l :
  Permutation (order_by_surname collate_le l) l.
Proof.
  unfold order_by_surname.
  induction l as [|x l IH]; cbn [fold_right]; [reflexivity|].
  rewrite insert_sorted_Permutation. now constructor.
Qed.

(** The lines of a listing: each row with its age on the given day. *)
Lemma age_lines today rs : forall acc w,
  exists lines,
    for_fold rs acc (fun r lines =>
      a <- age (Employee_of_row r) today ;; ret (lines ++ [(r, a)])) w
    = (Ok (acc ++ lines), w)
    /\ List.map fst lines = rs
    /\ forall r a, In (r, a) lines ->
                   age (Employee_of_row r) today w = (Ok a, w).
Proof.
  induction rs as [|r rs IH]; intros acc w; cbn [for_fold].
  - exists []. rewrite app_nil_r. split; [reflexivity|].
    split; [reflexivity|intros ? ? []].
  - assert (Hage : exists a, age (Employee_of_row r) today w = (Ok a, w)).
    { destruct today as [t|]; eexists; [apply age_of_row|].
      unfold age. erewrite bind_ok by reflexivity. reflexivity. }
    destruct Hage as (a & Ha).
    erewrite bind_ok by (erewrite bind_ok by exact Ha; reflexivity).
    destruct (IH (acc ++ [(r, a)]) w) as (lines & H1 & H2 & H3).
    exists ((r, a) :: lines). rewrite H1, <- app_assoc.
    split; [reflexivity|]. split; [cbn; now rewrite H2|].
    intros r' a' [[= <- <-]|Hin]; [exact Ha|now apply H3].
Qed.

(** X14. Mode 5, on any table: it fetches each committed row that is Male
    with a surname starting with F exactly once, prints their number,
    previews the first 20 of them (all of them when there are fewer), each
    with its age on the day of the run, and changes neither the table nor
    the log of statements. *)
Theorem mode_select_report (collate_le : str -> str -> bool) (w : world) :
  exists rep w',
    mode_select_male_F_measure collate_le w = (Ok rep, w')
    /\ Permutation (rows_fetched rep) (List.filter male_F (committed w))
    /\ count_printed rep = length (List.filter male_F (committed w))
    /\ List.map fst (preview rep) = take 20 (rows_fetched rep)
    /\ length (preview rep) = Nat.min 20 (count_printed rep)
    /\ (forall r a, In (r, a) (preview rep) ->
                    age (Employee_of_row r) (Some (clock w)) w = (Ok a, w))
    /\ committed w' = committed w /\ sent w' = sent w /\ idle w'.
Proof.
  unfold mode_select_male_F_measure.
  erewrite bind_ok by reflexivity.
  erewrite bind_ok by reflexivity.
  erewrite bind_ok by reflexivity.
  cbn [session with_session with_aborted fresh_session committed].
  set (rows := select_where _ _ _).
  set (w1 := fresh_session (fresh_session w)).
  destruct (age_lines None (take 20 rows) [] w1) as (lines & H1 & H2 & H3).
  erewrite bind_ok by exact H1.
  eexists _, _. split; [reflexivity|]. cbn [rows_fetched count_printed preview app].
  assert (Hperm : Permutation rows (List.filter male_F (committed w)))
    by apply order_by_surname_Permutation.
  split; [exact Hperm|].
  split; [now apply Permutation_length|].
  split; [exact H2|].
  split.
  { rewrite <- (length_map fst lines), H2, length_take. lia. }
  split; [|now subst w1].
  intros r a Hin. apply H3 in Hin. subst w1.
  rewrite age_of_row. unfold age in Hin.
  erewrite bind_ok in Hin by reflexivity. cbn in Hin.
  injection Hin as <-. reflexivity.
Qed.

Lemma insert_by_Permutation le r l : Permutation (insert_by le r l) (r :: l).
Proof.
  induction l as [|x l IH]; cbn; [reflexivity|].
  destruct (le r x); [reflexivity|]. rewrite IH. apply perm_swap.
Qed.

Lemma sort_by_Permutation le l : Permutation (sort_by le l) l.
Proof.
  unfold sort_by. induction l as [|x l IH]; cbn [fold_right]; [reflexivity|].
  rewrite insert_by_Permutation. now constructor.
Qed.

Lemma insert_by_Sorted (le : row -> row -> bool) r l :
  (forall a b, le a b = true \/ le b a = true) ->
  Sorted (fun a b => le a b = true) l ->
  Sorted (fun a b => le a b = true) (insert_by le r l).
Proof.
  intros Htotal. induction 1 as [|y l Hs IH Hhd]; cbn.
  - repeat constructor.
  - destruct (le r y) eqn:E.
    + constructor; [now constructor|]. constructor. exact E.
    + constructor; [exact IH|].
      assert (Hyr : le y r = true)
        by (destruct (Htotal r y); [congruence|assumption]).
      destruct l as [|z l]; cbn.
      * constructor. exact Hyr.
      * destruct (le r z); constructor; [exact Hyr|]. now inversion Hhd.
Qed.

Lemma sort_by_Sorted (le : row -> row -> bool) l :
  (forall a b, le a b = true \/ le b a = true) ->
  Sorted (fun a b => le a b = true) (sort_by le l).
Proof.
  intros Htotal. unfold sort_by.
  induction l as [|y l IH]; cbn [fold_right]; [constructor|].
  now apply insert_by_Sorted.
Qed.

Lemma name_le_total collate_le :
  (forall a b, collate_le a b = true \/ collate_le b a = true) ->
  forall a b, name_le collate_le a b = true \/ name_le collate_le b a = true.
Proof.
  intros Htotal a b. unfold name_le, collate_lt, collate_eq.
  destruct (Htotal (r_surname a) (r_surname b)) as [Hs|Hs];
    destruct (Htotal (r_given_name a) (r_given_name b)) as [Hg|Hg];
    destruct (Htotal (r_patronymic a) (r_patronymic b)) as [Hp|Hp];
    rewrite ?Hs, ?Hg, ?Hp;
    destruct (collate_le (r_surname a) (r_surname b)),
             (collate_le (r_surname b) (r_surname a)),
             (collate_le (r_given_name a) (r_given_name b)),
             (collate_le (r_given_name b) (r_given_name a)),
             (collate_le (r_patronymic a) (r_patronymic b)),
             (collate_le (r_patronymic b) (r_patronymic a));
    cbn; auto; discriminate.
Qed.

(** A table that respects the UNIQUE constraint has no repeated row, so
    grouping by all the columns keeps every row. *)
Lemma remove_dups_unique table :
  unique_keys table -> Permutation (remove_dups table) table.
Proof.
  intros Hu. apply NoDup_Permutation.
  - apply NoDup_remove_dups.
  - apply NoDup_ListNoDup. exact (List.NoDup_map_inv _ _ Hu).
  - intros r. apply elem_of_remove_dups.
Qed.

(** X15. Mode 3, on any table and for any total collation: it lists every
    stored row, none twice, ordered by surname, then given name, then
    patronymic, each with its age on the day of the run, and the total it
    prints is the number of lines.  On a table that respects the UNIQUE
    constraint the GROUP BY removes nothing: the listing is a permutation
    of the table and the total is the number of stored rows.  The table
    and the log of statements are left as they were. *)
Theorem mode_list_all_report (collate_le : str -> str -> bool) (w : world) :
  (forall a b, collate_le a b = true \/ collate_le b a = true) ->
  exists lines n w',
    mode_list_all collate_le w = (Ok (lines, n), w')
    /\ n = length lines
    /\ Sorted (fun a b => name_le collate_le a b = true) (List.map fst lines)
    /\ List.NoDup (List.map fst lines)
    /\ (forall r, In r (List.map fst lines) <-> In r (committed w))
    /\ (unique_keys (committed w) ->
        Permutation (List.map fst lines) (committed w)
        /\ n = length (committed w))
    /\ (forall r a, In (r, a) lines ->
                    age (Employee_of_row r) (Some (clock w)) w = (Ok a, w))
    /\ committed w' = committed w /\ sent w' = sent w /\ idle w'.
Proof.
  intros Htotal. unfold mode_list_all.
  erewrite bind_ok by reflexivity.
  erewrite bind_ok by reflexivity.
  erewrite bind_ok by reflexivity.
  erewrite bind_ok by reflexivity.
  cbn [session with_session committed clock].
  set (rows := select_all_grouped _ _).
  set (w1 := fresh_session (fresh_session w)).
  destruct (age_lines (Some (clock w)) rows [] w1) as (lines & H1 & H2 & H3).
  erewrite bind_ok by exact H1.
  eexists _, _, _. split; [reflexivity|]. cbn [app].
  assert (Hperm : Permutation rows (remove_dups (committed w)))
    by apply sort_by_Permutation.
  split; [now rewrite <- (length_map fst lines), H2|].
  rewrite H2.
  split; [apply sort_by_Sorted, name_le_total, Htotal|].
  split.
  { apply (Permutation_NoDup (Permutation_sym Hperm)).
    apply NoDup_ListNoDup, NoDup_remove_dups. }
  split.
  { intros r. rewrite <- !list_elem_of_In, Hperm. apply elem_of_remove_dups. }
  split.
  { intros Hu. pose proof (remove_dups_unique _ Hu) as Hp.
    split; [now rewrite Hperm|].
    now rewrite (Permutation_length Hperm), (Permutation_length Hp). }
  split; [|now subst w1].
  intros r a Hin. apply H3 in Hin. subst w1. rewrite age_of_row.
  rewrite age_of_row in Hin. now injection Hin as <-.
Qed.

Lemma mode_list_all_report_witness :
  exists lines n w',
    mode_list_all codepoint_le world1 = (Ok (lines, n), w')
    /\ n = length lines
    /\ Sorted (fun a b => name_le codepoint_le a b = true) (List.map fst lines)
    /\ List.NoDup (List.map fst lines)
    /\ (forall r, In r (List.map fst lines) <-> In r (committed world1))
    /\ (unique_keys (committed world1) ->
        Permutation (List.map fst lines) (committed world1)
        /\ n = length (committed world1))
    /\ (forall r a, In (r, a) lines ->
                    age (Employee_of_row r) (Some (clock world1)) world1
                    = (Ok a, world1))
    /\ committed w' = committed world1 /\ sent w' = sent world1 /\ idle w'.
Proof.
  apply (mode_list_all_report codepoint_le world1). exact codepoint_le_total.
Defined.

(** ** Mode 6 *)

Lemma has_index_app c1 c2 n :
  has_index (c1 ++ c2) n = has_index c1 n || has_index c2 n.
Proof. unfold has_index. apply existsb_app. Qed.

Lemma with_index_has ix catalog :
  has_index (with_index ix catalog) (ix_name ix) = true.
Proof.
  unfold with_index. destruct (has_index catalog (ix_name ix)) eqn:E; [exact E|].
  rewrite has_index_app. cbn. rewrite bool_decide_eq_true_2 by reflexivity.
  now rewrite orb_true_r.
Qed.

Lemma with_index_keeps ix catalog n :
  has_index catalog n = true -> has_index (with_index ix catalog) n = true.
Proof.
  intros H. unfold with_index. destruct (has_index catalog (ix_name ix)); [exact H|].
  rewrite has_index_app, H. reflexivity.
Qed.

Lemma with_index_present ix catalog :
  has_index catalog (ix_name ix) = true -> with_index ix catalog = catalog.
Proof. unfold with_index. now intros ->. Qed.

(** One run of mode 6, whatever the server was doing: the two statements
    take effect together or not at all. *)
Lemma mode_optimize_run s :
  mode_optimize_create_indexes s
  = (Done tt,
     let catalog :=
       if refuses s (ix_name idx_gender_surname)
          || refuses s (ix_name idx_gender_lower_surname)
       then indexes s
       else with_index idx_gender_lower_surname
              (with_index idx_gender_surname (indexes s)) in
     mkServer (fresh_session (base s))
              catalog catalog false (refuses s)).
Proof.
  destruct s as [[pool tp cur today table sess stmts] cat tx failed refuse].
  cbv [mode_optimize_create_indexes sbind session_reset sfor_each try_except
       create_index_if_not_exists commit_tx sret with_index
       tx_failed refuses tx_indexes indexes base committed session
       with_session with_committed SURNAMES_BY_LETTER tape cursor clock sent].
  destruct (refuse (ix_name idx_gender_surname)); cbv [orb]; [reflexivity|].
  destruct (has_index cat (ix_name idx_gender_surname));
    destruct (refuse (ix_name idx_gender_lower_surname)); try reflexivity.
  - now destruct (has_index cat (ix_name idx_gender_lower_surname)).
  - now destruct (has_index (cat ++ [idx_gender_surname])
                    (ix_name idx_gender_lower_surname)).
Qed.

Lemma with_index_In ix catalog x :
  In x (with_index ix catalog) <-> In x catalog \/ (x = ix /\ has_index catalog (ix_name ix) = false).
Proof.
  unfold with_index. destruct (has_index catalog (ix_name ix)).
  - split; [auto|]. intros [H|[_ H]]; [exact H|discriminate].
  - rewrite in_app_iff. cbn. split.
    + intros [H|[<-|[]]]; auto.
    + intros [H|[-> _]]; auto.
Qed.

(** X16. When the server refuses neither statement, mode 6 returns with
    both index names in the catalog.  It adds an index only under a name
    that was free (an index that already has the name is kept as it is,
    whatever it covers), removes none, touches no row, and run again it
    changes nothing. *)
Theorem create_indexes_idempotent (s : server) :
  refuses s (ix_name idx_gender_surname) = false ->
  refuses s (ix_name idx_gender_lower_surname) = false ->
  exists s',
    mode_optimize_create_indexes s = (Done tt, s')
    /\ has_index (indexes s') (ix_name idx_gender_surname) = true
    /\ has_index (indexes s') (ix_name idx_gender_lower_surname) = true
    /\ (forall ix, In ix (indexes s) -> In ix (indexes s'))
    /\ (forall ix, In ix (indexes s') ->
          In ix (indexes s)
          \/ (has_index (indexes s) (ix_name ix) = false
              /\ (ix = idx_gender_surname \/ ix = idx_gender_lower_surname)))
    /\ settled s'
    /\ committed (base s') = committed (base s)
    /\ sent (base s') = sent (base s)
    /\ mode_optimize_create_indexes s' = (Done tt, s').
Proof.
  intros R1 R2. rewrite mode_optimize_run, R1, R2. cbn [orb]. cbv zeta.
  eexists. split; [reflexivity|]. cbn [indexes tx_indexes tx_failed base refuses].
  set (c1 := with_index idx_gender_surname (indexes s)).
  set (c2 := with_index idx_gender_lower_surname c1).
  assert (H1 : has_index c2 (ix_name idx_gender_surname) = true)
    by apply with_index_keeps, with_index_has.
  assert (H2 : has_index c2 (ix_name idx_gender_lower_surname) = true)
    by apply with_index_has.
  split; [exact H1|]. split; [exact H2|].
  split.
  { intros ix Hix. apply with_index_In. left. apply with_index_In. now left. }
  split.
  { intros ix Hix. apply with_index_In in Hix as [Hix|[-> Hfree]].
    - apply with_index_In in Hix as [Hix|[-> Hfree]]; [now left|right; auto].
    - right. split; [|now right].
      destruct (has_index (indexes s) (ix_name idx_gender_lower_surname)) eqn:E;
        [|reflexivity].
      subst c1. now rewrite with_index_keeps in Hfree. }
  split; [now split|].
  split; [reflexivity|]. split; [reflexivity|].
  rewrite mode_optimize_run. cbn [indexes tx_indexes tx_failed base refuses].
  rewrite R1, R2. cbn [orb]. cbv zeta.
  assert (E1 : with_index idx_gender_surname c2 = c2)
    by (now apply with_index_present).
  rewrite E1. rewrite (with_index_present _ _ H2). reflexivity.
Qed.

Lemma create_indexes_idempotent_witness :
  exists s',
    mode_optimize_create_indexes (server_of world1) = (Done tt, s')
    /\ has_index (indexes s') (ix_name idx_gender_surname) = true
    /\ has_index (indexes s') (ix_name idx_gender_lower_surname) = true
    /\ (forall ix, In ix (indexes (server_of world1)) -> In ix (indexes s'))
    /\ (forall ix, In ix (indexes s') ->
          In ix (indexes (server_of world1))
          \/ (has_index (indexes (server_of world1)) (ix_name ix) = false
              /\ (ix = idx_gender_surname \/ ix = idx_gender_lower_surname)))
    /\ settled s'
    /\ committed (base s') = committed (base (server_of world1))
    /\ sent (base s') = sent (base (server_of world1))
    /\ mode_optimize_create_indexes s' = (Done tt, s').
Proof.
  apply (create_indexes_idempotent (server_of world1)); reflexivity.
Defined.

(** X17. When the server refuses either statement, mode 6 still returns
    normally, and the catalog is the one before the run: both statements
    run in one transaction, the error of one is caught but aborts the
    transaction, and the commit then rolls back, so that the index that
    was not refused is not created either. *)
Theorem create_indexes_all_or_nothing (s : server) :
  refuses s (ix_name idx_gender_surname) = true
  \/ refuses s (ix_name idx_gender_lower_surname) = true ->
  exists s',
    mode_optimize_create_indexes s = (Done tt, s')
    /\ indexes s' = indexes s
    /\ settled s'
    /\ committed (base s') = committed (base s)
    /\ sent (base s') = sent (base s).
Proof.
  intros Hr. rewrite mode_optimize_run.
  assert (E : refuses s (ix_name idx_gender_surname)
              || refuses s (ix_name idx_gender_lower_surname) = true)
    by (destruct Hr as [-> | ->]; [reflexivity|apply orb_true_r]).
  rewrite E. cbv zeta. eexists. split; [reflexivity|].
  cbn [indexes tx_indexes tx_failed base]. now repeat split.
Qed.

Lemma create_indexes_all_or_nothing_witness :
  exists s',
    mode_optimize_create_indexes
      (refusing (ix_name idx_gender_lower_surname) (server_of world1))
    = (Done tt, s')
    /\ indexes s'
       = indexes (refusing (ix_name idx_gender_lower_surname) (server_of world1))
    /\ settled s'
    /\ committed (base s')
       = committed (base (refusing (ix_name idx_gender_lower_surname)
                            (server_of world1)))
    /\ sent (base s')
       = sent (base (refusing (ix_name idx_gender_lower_surname)
                       (server_of world1))).
Proof.
  apply (create_indexes_all_or_nothing
           (refusing (ix_name idx_gender_lower_surname) (server_of world1))).
  right. reflexivity.
Defined.

(** ** The command line *)

Lemma lift_ok {A} (c : M A) s a w' :
  c (base s) = (Ok a, w') ->
  lift c s
  = (Done a, mkServer w' (indexes s) (tx_indexes s) (tx_failed s) (refuses s)).
Proof. unfold lift. now intros ->. Qed.

Lemma lift_raise {A} (c : M A) s e w' :
  c (base s) = (Raise e, w') ->
  lift c s
  = (Failed e, mkServer w' (indexes s) (tx_indexes s) (tx_failed s) (refuses s)).
Proof. unfold lift. now intros ->. Qed.

Lemma mode_list_all_run collate_le w :
  exists res,
    mode_list_all collate_le w = (Ok res, fresh_session w).
Proof.
  unfold mode_list_all.
  erewrite bind_ok by reflexivity.
  erewrite bind_ok by reflexivity.
  erewrite bind_ok by reflexivity.
  erewrite bind_ok by reflexivity.
  cbn [session with_session committed clock].
  set (rows := select_all_grouped _ _).
  destruct (age_lines (Some (clock w)) rows []
              (fresh_session (fresh_session w)))
    as (lines & H1 & _).
  erewrite bind_ok by exact H1. eexists. unfold ret. now destruct w.
Qed.

(** The modes of [main] that are not a usage error, one by one. *)
Lemma main_modes strptime_ymd collate_le argv s :
  (2 <= length argv)%nat ->
  let mode := nth 1 argv [] in
  let run := main strptime_ymd collate_le argv s in
  (mode = lit "1" \/ mode = lit "3" \/ mode = lit "5" ->
   run.1 = Done tt
   /\ committed (base run.2) = committed (base s)
   /\ sent (base run.2) = sent (base s)
   /\ indexes run.2 = indexes s)
  /\ (mode = lit "2" ->
      ((length argv < 5)%nat -> run = (Done tt, s))
      /\ ((5 <= length argv)%nat ->
          (run.1 = Done tt
           \/ (run.1 = Failed ValueError
               /\ (run.2 = s
                   \/ run.2 = mkServer (fresh_session (base s)) (indexes s)
                                       (tx_indexes s) (tx_failed s)
                                       (refuses s))))
          /\ indexes run.2 = indexes s))
  /\ (mode = lit "4" -> run.1 = Done tt /\ indexes run.2 = indexes s)
  /\ (mode = lit "6" ->
      run.1 = Done tt
      /\ committed (base run.2) = committed (base s)
      /\ sent (base run.2) = sent (base s))
  /\ (mode <> lit "1" -> mode <> lit "2" -> mode <> lit "3" ->
      mode <> lit "4" -> mode <> lit "5" -> mode <> lit "6" ->
      run = (Done tt, s)).
Proof.
  intros Hlen mode run. subst run. unfold main. fold mode. clearbody mode.
  destruct (Nat.ltb_spec (length argv) 2) as [?|_]; [lia|].
  split; [|split; [|split; [|split]]].
  - intros [E|[E|E]]; rewrite E; clear E;
      repeat (rewrite bool_decide_eq_false_2 by discriminate);
      rewrite bool_decide_eq_true_2 by reflexivity.
    + rewrite (lift_ok _ _ tt (fresh_session
                 (with_committed (committed (base s))
                    (fresh_session (base s))))) by reflexivity.
      now repeat split.
    + destruct (mode_list_all_run collate_le (base s)) as (res & Hres).
      rewrite (lift_ok _ _ tt (fresh_session (base s)))
        by (erewrite bind_ok by exact Hres; reflexivity).
      now repeat split.
    + destruct (mode_select_spec collate_le (base s)) as (lines & Hres).
      rewrite (lift_ok _ _ tt (fresh_session (base s)))
        by (erewrite bind_ok by exact Hres; reflexivity).
      now repeat split.
  - intros E. rewrite E. clear E.
    rewrite bool_decide_eq_false_2 by discriminate.
    rewrite bool_decide_eq_true_2 by reflexivity.
    split; intros Hn.
    + now destruct (Nat.ltb_spec (length argv) 5) as [_|?]; [|lia].
    + destruct (Nat.ltb_spec (length argv) 5) as [?|_]; [lia|].
      pose proof (mode_insert_single_cases strptime_ymd (nth 2 argv [])
                    (nth 3 argv []) (nth 4 argv []) (base s)) as Hc.
      destruct (parse_fullname (nth 2 argv []) (base s)).1 as [[[a b] c]|x];
        [destruct (strptime_ymd (nth 3 argv [])) as [d|];
         [destruct (adaptable (Some a, Some b, Some c, Some d,
                               Some (nth 4 argv [])))|]|].
      * cbv zeta in Hc. rewrite (lift_ok _ _ _ _ Hc).
        split; [now left|reflexivity].
      * rewrite (lift_raise _ _ _ _ Hc). split; [right|reflexivity].
        split; [reflexivity|now right].
      * rewrite (lift_raise _ _ _ _ Hc). split; [right|reflexivity].
        split; [reflexivity|left; now destruct s].
      * rewrite (lift_raise _ _ _ _ Hc). split; [right|reflexivity].
        split; [reflexivity|left; now destruct s].
  - intros E. rewrite E. clear E.
    repeat (rewrite bool_decide_eq_false_2 by discriminate).
    rewrite bool_decide_eq_true_2 by reflexivity.
    generalize 1000000%Z. intros total.
    destruct (mode_bulk_generate_spec total (base s)) as (stmts & w' & Hrun & _).
    rewrite (lift_ok (mode_bulk_generate total) s tt w' Hrun).
    split; reflexivity.
  - intros E. rewrite E. clear E.
    repeat (rewrite bool_decide_eq_false_2 by discriminate).
    rewrite bool_decide_eq_true_2 by reflexivity.
    now rewrite mode_optimize_run.
  - intros. now rewrite !bool_decide_eq_false_2 by assumption.
Qed.

(** X18. What one run of [main] can do, for every argument vector and every
    server state.  It ends with an exception only in mode "2" with at least
    five arguments (a name of fewer than two tokens, a date that does not
    parse, a string the driver cannot send); the exception is
    [ValueError], no row, statement log or index has changed, and the
    state is the one before the run, at most with a connection opened on
    it.  In every other case it returns normally.  A usage error (fewer
    than two arguments, mode "2" with fewer than five, or a mode other than
    "1".."6") changes nothing.  The stored rows and the log of data
    statements can change only in modes "2" and "4", the index catalog only
    in mode "6". *)
Theorem main_effects strptime_ymd collate_le argv s :
  let mode := nth 1 argv [] in
  let run := main strptime_ymd collate_le argv s in
  (run.1 = Done tt
   \/ (run.1 = Failed ValueError /\ mode = lit "2"
       /\ (5 <= length argv)%nat
       /\ (run.2 = s
           \/ run.2 = mkServer (fresh_session (base s)) (indexes s)
                               (tx_indexes s) (tx_failed s) (refuses s))
       /\ (idle (base s) -> aborted (base s) = false -> run.2 = s)))
  /\ ((length argv < 2)%nat
      \/ (mode = lit "2" /\ (length argv < 5)%nat)
      \/ ~ In mode (List.map lit ["1"; "2"; "3"; "4"; "5"; "6"]%string) ->
      run = (Done tt, s))
  /\ (mode <> lit "2" -> mode <> lit "4" ->
      committed (base run.2) = committed (base s)
      /\ sent (base run.2) = sent (base s))
  /\ (mode <> lit "6" -> indexes run.2 = indexes s).
Proof.
  intros mode run.
  destruct (Nat.ltb_spec (length argv) 2) as [Hshort|Hlen].
  { assert (Hrun : run = (Done tt, s)).
    { subst run. unfold main.
      now destruct (Nat.ltb_spec (length argv) 2) as [_|?]; [|lia]. }
    rewrite Hrun. repeat split; auto. }
  destruct (main_modes strptime_ymd collate_le argv s Hlen)
    as (H135 & H2 & H4 & H6 & Hnone).
  fold mode in H135, H2, H4, H6, Hnone. fold run in H135, H2, H4, H6, Hnone.
  clearbody mode run.
  assert (Hcases : mode = lit "1" \/ mode = lit "2" \/ mode = lit "3"
                   \/ mode = lit "4" \/ mode = lit "5" \/ mode = lit "6"
                   \/ ~ In mode (List.map lit ["1"; "2"; "3"; "4"; "5"; "6"]%string)).
  { destruct (decide (mode = lit "1")) as [|N1]; [now left|].
    destruct (decide (mode = lit "2")) as [|N2]; [right; now left|].
    destruct (decide (mode = lit "3")) as [|N3]; [do 2 right; now left|].
    destruct (decide (mode = lit "4")) as [|N4]; [do 3 right; now left|].
    destruct (decide (mode = lit "5")) as [|N5]; [do 4 right; now left|].
    destruct (decide (mode = lit "6")) as [|N6]; [do 5 right; now left|].
    do 6 right. cbn [List.map In]. intros [E|[E|[E|[E|[E|[E|[]]]]]]];
      symmetry in E; contradiction. }
  assert (Hunknown :
            ~ In mode (List.map lit ["1"; "2"; "3"; "4"; "5"; "6"]%string) ->
            run = (Done tt, s)).
  { intros Hn. cbn [List.map In] in Hn.
    apply Hnone; intros E; apply Hn; symmetry in E.
    - now left.
    - right. now left.
    - do 2 right. now left.
    - do 3 right. now left.
    - do 4 right. now left.
    - do 5 right. now left. }
  assert (Hmode2 : mode = lit "2" ->
            (length argv < 5)%nat \/ (5 <= length argv)%nat) by (intros; lia).
  assert (Hfresh : idle (base s) -> aborted (base s) = false ->
            mkServer (fresh_session (base s)) (indexes s) (tx_indexes s)
                     (tx_failed s) (refuses s) = s).
  { destruct s as [[pool tp cur today table sess ab stmts] cat tx failed refuse].
    unfold idle, fresh_session, with_aborted, with_session. cbn.
    now intros -> ->. }
  split; [|split; [|split]].
  - destruct Hcases as [E|[E|[E|[E|[E|[E|E]]]]]].
    + left. apply H135. now left.
    + destruct (H2 E) as (Hfew & Hfull).
      destruct (Hmode2 E) as [Hn|Hn].
      * left. now rewrite (Hfew Hn).
      * destruct (Hfull Hn) as ([Hd|(Hf & Hs)] & _); [now left|].
        right. split; [exact Hf|]. split; [exact E|]. split; [exact Hn|].
        split; [exact Hs|]. intros Hi Ha.
        destruct Hs as [Hs|Hs]; [exact Hs|]. rewrite Hs. now apply Hfresh.
    + left. apply H135. right. now left.
    + left. apply H4, E.
    + left. apply H135. right. now right.
    + left. apply H6, E.
    + left. now rewrite (Hunknown E).
  - intros [Hn|[(E & Hn)|Hn]]; [lia| |now apply Hunknown].
    now apply (H2 E).
  - intros N2 N4.
    destruct Hcases as [E|[E|[E|[E|[E|[E|E]]]]]]; try contradiction.
    + destruct H135 as (_ & Hc & Hs & _); [now left|]. now split.
    + destruct H135 as (_ & Hc & Hs & _); [right; now left|]. now split.
    + destruct H135 as (_ & Hc & Hs & _); [right; now right|]. now split.
    + destruct (H6 E) as (_ & Hc & Hs). now split.
    + now rewrite (Hunknown E).
  - intros N6.
    destruct Hcases as [E|[E|[E|[E|[E|[E|E]]]]]]; try contradiction.
    + apply H135. now left.
    + destruct (H2 E) as (Hfew & Hfull).
      destruct (Hmode2 E) as [Hn|Hn].
      * now rewrite (Hfew Hn).
      * apply (Hfull Hn).
    + apply H135. right. now left.
    + apply H4, E.
    + apply H135. right. now right.
    + now rewrite (Hunknown E).
Qed.
